(** * Mokugyo rhythm game: timing, judgement and scene engine of [main.py]

    A shallow embedding of the gameplay core of [src/main.py] (note
    scheduling on the beat grid, note motion and expiry, hit judgement,
    gimmick bookkeeping and the scene loop), with the properties the
    specification states about it.

    Numbers.  Python floats that carry times and durations are embedded as
    exact rationals [Q]; Python ints (combo, misses, counters, pixel
    coordinates) as [Z].  Rounding of IEEE doubles is therefore outside the
    model: equalities between times are equalities of rationals ([==]).

    Environment.  [pygame.time.get_ticks] and the [random] module are read
    through oracles stored in the state ([World]): every call consumes the
    next reading, so two reads in one frame may differ, as in the program. *)

From Stdlib Require Import QArith ZArith List Bool Lia Lqa Qround Sorted.
Import ListNotations.
Open Scope Q_scope.

(** ** Python helpers on floats *)

Definition Qltb (a b : Q) : bool := negb (Qle_bool b a).

(** [max(a, b)] of Python: the first argument unless the second is larger. *)
Definition py_max (a b : Q) : Q := if Qltb a b then b else a.

(** [min(a, b)] of Python: the first argument unless the second is smaller. *)
Definition py_min (a b : Q) : Q := if Qltb b a then b else a.

(** [def clamp(v, a, b): return max(a, min(b, v))] *)
Definition clamp (v a b : Q) : Q := py_max a (py_min b v).

(** [abs(x)] *)
Definition py_abs (x : Q) : Q := if Qltb x 0 then - x else x.

(** Truthiness of a float that may be [None]. *)
Definition truthy (o : option Q) : bool :=
  match o with
  | None => false
  | Some q => negb (Qeq_bool q 0)
  end.

(** [int(x)] on the non-negative values it is applied to here. *)
Definition py_int (x : Q) : Z := Qfloor x.

(** ** Enumerations (closed sets of string constants in the source) *)

Inductive Scene := SCENE_START | SCENE_SETTINGS | SCENE_GAME | SCENE_GAMEOVER | SCENE_CLEAR.

Inductive Difficulty := easy | normal | hard.

Inductive Judgement := PERFECT | GOOD | OK | MISS.

Inductive EffectKind :=
  | shake_small | shake_big | rotate60 | flash | slowmo
  | lane_wobble | ghost | spawn_rush | blackout | invert.

Inductive JudgePos := top | bottom.

Definition Scene_eqb (a b : Scene) : bool :=
  match a, b with
  | SCENE_START, SCENE_START | SCENE_SETTINGS, SCENE_SETTINGS
  | SCENE_GAME, SCENE_GAME | SCENE_GAMEOVER, SCENE_GAMEOVER
  | SCENE_CLEAR, SCENE_CLEAR => true
  | _, _ => false
  end.

Definition EffectKind_eqb (a b : EffectKind) : bool :=
  match a, b with
  | shake_small, shake_small | shake_big, shake_big | rotate60, rotate60
  | flash, flash | slowmo, slowmo | lane_wobble, lane_wobble
  | ghost, ghost | spawn_rush, spawn_rush | blackout, blackout
  | invert, invert => true
  | _, _ => false
  end.

Definition Judgement_eqb (a b : Judgement) : bool :=
  match a, b with
  | PERFECT, PERFECT | GOOD, GOOD | OK, OK | MISS, MISS => true
  | _, _ => false
  end.

(** ** Gameplay constants *)

Definition WIDTH : Z := 1280.
Definition HEIGHT : Z := 720.
Definition FPS : Z := 60.

Definition BPM : Q := 158.
Definition SPB : Q := 60.0 / BPM.
Definition NOTE_TRAVEL_SEC : Q := 1.6.

Definition PREV_PLAY_WIDTH : Z := py_int (inject_Z WIDTH * 0.38).
Definition PREV_LEFT_BLANK : Z := (WIDTH / 2 - PREV_PLAY_WIDTH)%Z.
Definition NEW_LEFT_BLANK : Z := Z.max 8 (PREV_LEFT_BLANK / 3).
Definition PLAY_AREA_RIGHT : Z := (WIDTH / 2)%Z.
Definition PLAY_WIDTH : Z := (PLAY_AREA_RIGHT - NEW_LEFT_BLANK)%Z.

(** [pygame.Rect(left, top, width, height)] *)
Record Rect := mkRect { r_left : Z; r_top : Z; r_width : Z; r_height : Z }.

Definition r_bottom (r : Rect) : Z := (r_top r + r_height r)%Z.
Definition r_right (r : Rect) : Z := (r_left r + r_width r)%Z.

(** [Rect.collidepoint]: the right and bottom edges are outside. *)
Definition collidepoint (r : Rect) (mx my : Z) : bool :=
  (r_left r <=? mx)%Z && (mx <? r_right r)%Z &&
  (r_top r <=? my)%Z && (my <? r_bottom r)%Z.

(** [surface.get_rect(center=(cx, cy))] for a [w] x [h] surface. *)
Definition rect_centered (w h cx cy : Z) : Rect :=
  mkRect (cx - w / 2) (cy - h / 2) w h.

Definition PLAY_AREA : Rect :=
  mkRect NEW_LEFT_BLANK 40 PLAY_WIDTH (py_int (inject_Z HEIGHT * 0.86)).

Definition LANE_X : Z :=
  py_int (inject_Z (r_left PLAY_AREA) + inject_Z (r_width PLAY_AREA) * 0.25).
Definition MOKUGYO_CENTER : Z * Z := (LANE_X, (r_bottom PLAY_AREA - 40)%Z).
Definition HITLINE_Y : Z := (r_bottom PLAY_AREA - 120)%Z.

Definition PERFECT_WINDOW : Q := 0.05.
Definition GOOD_WINDOW : Q := 0.09.
Definition OK_WINDOW : Q := 0.14.

Definition MISS_LIMIT_MAP (d : Difficulty) : Z :=
  match d with easy => 12 | normal => 6 | hard => 1 end.

Definition DIFF_WINDOW (d : Difficulty) : Q :=
  match d with easy => 1.4 | normal => 1.0 | hard => 0.6 end.

Definition HIDE_STEP : Z := 4.
Definition NEW_GIMMICK_DISPLAY_TIME : Q := 4.0.
Definition START_PREP_DELAY : Q := 1.6.
Definition GIMMICK_COMBO_THRESHOLD : Z := 20.

(** ** Notes *)

Record Note := mkNote {
  target_time : Q;
  spawn_time : Q;
  x : Z;
  start_y : Z;
  hit_y : Z;
  y : Q;
  hit : bool;
  dead : bool;
  dummy : bool
}.

(** [Note.__init__(self, target_time, x, dummy=False)] *)
Definition Note_init (tt : Q) (x0 : Z) (dm : bool) : Note :=
  {| target_time := tt;
     spawn_time := tt - NOTE_TRAVEL_SEC;
     x := x0;
     start_y := (-60)%Z;
     hit_y := HITLINE_Y;
     y := inject_Z (-60);
     hit := false;
     dead := false;
     dummy := dm |}.

(** The grace period after which a note disappears:
    [OK_WINDOW * DIFF_WINDOW[DIFFICULTY] + 0.01]. *)
Definition grace (d : Difficulty) : Q := OK_WINDOW * DIFF_WINDOW d + 0.01.

(** [Note.update(self, t_now)]; [DIFFICULTY] is the global it reads. *)
Definition Note_update (d : Difficulty) (t_now : Q) (n : Note) : Note :=
  let total := py_max 0.001 NOTE_TRAVEL_SEC in
  let p := (t_now - spawn_time n) / total in
  let p := clamp p 0.0 1.0 in
  let y' := inject_Z (start_y n) + (inject_Z (hit_y n) - inject_Z (start_y n)) * p in
  {| target_time := target_time n;
     spawn_time := spawn_time n;
     x := x n;
     start_y := start_y n;
     hit_y := hit_y n;
     y := y';
     hit := hit n;
     dead := if Qltb (grace d) (t_now - target_time n) then true else dead n;
     dummy := dummy n |}.

(** ** Game state: the module globals, grouped *)

(** The clock and the random generator, as oracles with a read cursor. *)
Record World := mkWorld {
  clock_ms : nat -> Z;       (* successive values of pygame.time.get_ticks() *)
  clock_pos : nat;
  rand_float : nat -> Q;     (* successive values of random.random() *)
  rand_pick : nat -> nat;    (* successive indices drawn by random.choice *)
  rand_pos : nat
}.

Record Settings := mkSettings {
  DIFFICULTY : Difficulty;
  DIFFICULTY_JUDGEPOS : JudgePos;
  offset_seconds : Q;
  yakubi_mode : bool
}.

Record Timing := mkTiming {
  start_time_s : option Q;
  prep_end_time : option Q;
  next_beat_time : option Q;
  spawn_index : Z;
  spawned_target_times : list Q;
  note_spawn_counter : Z
}.

Record Play := mkPlay {
  notes : list Note;
  combo : Z;
  misses : Z;
  hannya_visible : bool;
  hannya_hidden_behind : bool;
  judge_text : option Judgement;   (* None is the empty string *)
  judge_time_end : Q
}.

Record Fx := mkFx {
  effects : EffectKind -> Q;
  slowmo_current : Q;
  slowmo_target : Q;
  triggered_gimmicks : list EffectKind;
  new_gimmick_timer : Q
}.

Record Game := mkGame {
  has_bgm : bool;              (* BGM is not None *)
  bgm_length : option Q;       (* BGM_LENGTH *)
  world : World;
  scene : Scene;
  settings : Settings;
  timing : Timing;
  play : Play;
  fx : Fx;
  running : bool;
  show_gimmicks_panel : bool
}.

(** ** Field updates (assignments to one global) *)

Definition set_clock_pos (v : nat) (w : World) : World :=
  {| clock_ms := clock_ms w; clock_pos := v; rand_float := rand_float w;
     rand_pick := rand_pick w; rand_pos := rand_pos w |}.
Definition set_rand_pos (v : nat) (w : World) : World :=
  {| clock_ms := clock_ms w; clock_pos := clock_pos w; rand_float := rand_float w;
     rand_pick := rand_pick w; rand_pos := v |}.

Definition set_DIFFICULTY (v : Difficulty) (s : Settings) : Settings :=
  {| DIFFICULTY := v; DIFFICULTY_JUDGEPOS := DIFFICULTY_JUDGEPOS s;
     offset_seconds := offset_seconds s; yakubi_mode := yakubi_mode s |}.
Definition set_DIFFICULTY_JUDGEPOS (v : JudgePos) (s : Settings) : Settings :=
  {| DIFFICULTY := DIFFICULTY s; DIFFICULTY_JUDGEPOS := v;
     offset_seconds := offset_seconds s; yakubi_mode := yakubi_mode s |}.
Definition set_offset_seconds (v : Q) (s : Settings) : Settings :=
  {| DIFFICULTY := DIFFICULTY s; DIFFICULTY_JUDGEPOS := DIFFICULTY_JUDGEPOS s;
     offset_seconds := v; yakubi_mode := yakubi_mode s |}.
Definition set_yakubi_mode (v : bool) (s : Settings) : Settings :=
  {| DIFFICULTY := DIFFICULTY s; DIFFICULTY_JUDGEPOS := DIFFICULTY_JUDGEPOS s;
     offset_seconds := offset_seconds s; yakubi_mode := v |}.

Definition set_start_time_s (v : option Q) (t : Timing) : Timing :=
  {| start_time_s := v; prep_end_time := prep_end_time t;
     next_beat_time := next_beat_time t; spawn_index := spawn_index t;
     spawned_target_times := spawned_target_times t;
     note_spawn_counter := note_spawn_counter t |}.
Definition set_prep_end_time (v : option Q) (t : Timing) : Timing :=
  {| start_time_s := start_time_s t; prep_end_time := v;
     next_beat_time := next_beat_time t; spawn_index := spawn_index t;
     spawned_target_times := spawned_target_times t;
     note_spawn_counter := note_spawn_counter t |}.
Definition set_next_beat_time (v : option Q) (t : Timing) : Timing :=
  {| start_time_s := start_time_s t; prep_end_time := prep_end_time t;
     next_beat_time := v; spawn_index := spawn_index t;
     spawned_target_times := spawned_target_times t;
     note_spawn_counter := note_spawn_counter t |}.
Definition set_spawn_index (v : Z) (t : Timing) : Timing :=
  {| start_time_s := start_time_s t; prep_end_time := prep_end_time t;
     next_beat_time := next_beat_time t; spawn_index := v;
     spawned_target_times := spawned_target_times t;
     note_spawn_counter := note_spawn_counter t |}.
Definition set_spawned_target_times (v : list Q) (t : Timing) : Timing :=
  {| start_time_s := start_time_s t; prep_end_time := prep_end_time t;
     next_beat_time := next_beat_time t; spawn_index := spawn_index t;
     spawned_target_times := v;
     note_spawn_counter := note_spawn_counter t |}.
Definition set_note_spawn_counter (v : Z) (t : Timing) : Timing :=
  {| start_time_s := start_time_s t; prep_end_time := prep_end_time t;
     next_beat_time := next_beat_time t; spawn_index := spawn_index t;
     spawned_target_times := spawned_target_times t;
     note_spawn_counter := v |}.

Definition set_notes (v : list Note) (p : Play) : Play :=
  {| notes := v; combo := combo p; misses := misses p;
     hannya_visible := hannya_visible p;
     hannya_hidden_behind := hannya_hidden_behind p;
     judge_text := judge_text p; judge_time_end := judge_time_end p |}.
Definition set_combo (v : Z) (p : Play) : Play :=
  {| notes := notes p; combo := v; misses := misses p;
     hannya_visible := hannya_visible p;
     hannya_hidden_behind := hannya_hidden_behind p;
     judge_text := judge_text p; judge_time_end := judge_time_end p |}.
Definition set_misses (v : Z) (p : Play) : Play :=
  {| notes := notes p; combo := combo p; misses := v;
     hannya_visible := hannya_visible p;
     hannya_hidden_behind := hannya_hidden_behind p;
     judge_text := judge_text p; judge_time_end := judge_time_end p |}.
Definition set_hannya_visible (v : bool) (p : Play) : Play :=
  {| notes := notes p; combo := combo p; misses := misses p;
     hannya_visible := v;
     hannya_hidden_behind := hannya_hidden_behind p;
     judge_text := judge_text p; judge_time_end := judge_time_end p |}.
Definition set_hannya_hidden_behind (v : bool) (p : Play) : Play :=
  {| notes := notes p; combo := combo p; misses := misses p;
     hannya_visible := hannya_visible p;
     hannya_hidden_behind := v;
     judge_text := judge_text p; judge_time_end := judge_time_end p |}.
Definition set_judge_text (v : option Judgement) (p : Play) : Play :=
  {| notes := notes p; combo := combo p; misses := misses p;
     hannya_visible := hannya_visible p;
     hannya_hidden_behind := hannya_hidden_behind p;
     judge_text := v; judge_time_end := judge_time_end p |}.
Definition set_judge_time_end (v : Q) (p : Play) : Play :=
  {| notes := notes p; combo := combo p; misses := misses p;
     hannya_visible := hannya_visible p;
     hannya_hidden_behind := hannya_hidden_behind p;
     judge_text := judge_text p; judge_time_end := v |}.

Definition set_effects (v : EffectKind -> Q) (f : Fx) : Fx :=
  {| effects := v; slowmo_current := slowmo_current f;
     slowmo_target := slowmo_target f;
     triggered_gimmicks := triggered_gimmicks f;
     new_gimmick_timer := new_gimmick_timer f |}.
Definition set_slowmo_current (v : Q) (f : Fx) : Fx :=
  {| effects := effects f; slowmo_current := v;
     slowmo_target := slowmo_target f;
     triggered_gimmicks := triggered_gimmicks f;
     new_gimmick_timer := new_gimmick_timer f |}.
Definition set_slowmo_target (v : Q) (f : Fx) : Fx :=
  {| effects := effects f; slowmo_current := slowmo_current f;
     slowmo_target := v;
     triggered_gimmicks := triggered_gimmicks f;
     new_gimmick_timer := new_gimmick_timer f |}.
Definition set_triggered_gimmicks (v : list EffectKind) (f : Fx) : Fx :=
  {| effects := effects f; slowmo_current := slowmo_current f;
     slowmo_target := slowmo_target f;
     triggered_gimmicks := v;
     new_gimmick_timer := new_gimmick_timer f |}.
Definition set_new_gimmick_timer (v : Q) (f : Fx) : Fx :=
  {| effects := effects f; slowmo_current := slowmo_current f;
     slowmo_target := slowmo_target f;
     triggered_gimmicks := triggered_gimmicks f;
     new_gimmick_timer := v |}.

Definition on_world (f : World -> World) (g : Game) : Game :=
  {| has_bgm := has_bgm g; bgm_length := bgm_length g; world := f (world g);
     scene := scene g; settings := settings g; timing := timing g;
     play := play g; fx := fx g; running := running g;
     show_gimmicks_panel := show_gimmicks_panel g |}.
Definition on_settings (f : Settings -> Settings) (g : Game) : Game :=
  {| has_bgm := has_bgm g; bgm_length := bgm_length g; world := world g;
     scene := scene g; settings := f (settings g); timing := timing g;
     play := play g; fx := fx g; running := running g;
     show_gimmicks_panel := show_gimmicks_panel g |}.
Definition on_timing (f : Timing -> Timing) (g : Game) : Game :=
  {| has_bgm := has_bgm g; bgm_length := bgm_length g; world := world g;
     scene := scene g; settings := settings g; timing := f (timing g);
     play := play g; fx := fx g; running := running g;
     show_gimmicks_panel := show_gimmicks_panel g |}.
Definition on_play (f : Play -> Play) (g : Game) : Game :=
  {| has_bgm := has_bgm g; bgm_length := bgm_length g; world := world g;
     scene := scene g; settings := settings g; timing := timing g;
     play := f (play g); fx := fx g; running := running g;
     show_gimmicks_panel := show_gimmicks_panel g |}.
Definition on_fx (f : Fx -> Fx) (g : Game) : Game :=
  {| has_bgm := has_bgm g; bgm_length := bgm_length g; world := world g;
     scene := scene g; settings := settings g; timing := timing g;
     play := play g; fx := f (fx g); running := running g;
     show_gimmicks_panel := show_gimmicks_panel g |}.
Definition set_scene (v : Scene) (g : Game) : Game :=
  {| has_bgm := has_bgm g; bgm_length := bgm_length g; world := world g;
     scene := v; settings := settings g; timing := timing g;
     play := play g; fx := fx g; running := running g;
     show_gimmicks_panel := show_gimmicks_panel g |}.
Definition set_running (v : bool) (g : Game) : Game :=
  {| has_bgm := has_bgm g; bgm_length := bgm_length g; world := world g;
     scene := scene g; settings := settings g; timing := timing g;
     play := play g; fx := fx g; running := v;
     show_gimmicks_panel := show_gimmicks_panel g |}.
Definition set_show_gimmicks_panel (v : bool) (g : Game) : Game :=
  {| has_bgm := has_bgm g; bgm_length := bgm_length g; world := world g;
     scene := scene g; settings := settings g; timing := timing g;
     play := play g; fx := fx g; running := running g;
     show_gimmicks_panel := v |}.

(** Shorthands for the globals the properties talk about. *)
Definition g_notes (g : Game) : list Note := notes (play g).
Definition g_combo (g : Game) : Z := combo (play g).
Definition g_misses (g : Game) : Z := misses (play g).
Definition g_difficulty (g : Game) : Difficulty := DIFFICULTY (settings g).
Definition g_effects (g : Game) : EffectKind -> Q := effects (fx g).
Definition g_triggered_gimmicks (g : Game) : list EffectKind :=
  triggered_gimmicks (fx g).

(** ** The environment *)

(** [def now_s(): return pygame.time.get_ticks() / 1000.0] *)
Definition now_s (g : Game) : Q * Game :=
  (inject_Z (clock_ms (world g) (clock_pos (world g))) / 1000.0,
   on_world (set_clock_pos (S (clock_pos (world g)))) g).

(** [random.random()] *)
Definition random_random (g : Game) : Q * Game :=
  (rand_float (world g) (rand_pos (world g)),
   on_world (set_rand_pos (S (rand_pos (world g)))) g).

(** [random.choice(opts)]: the oracle gives the index, taken modulo the
    length of the sequence. *)
Definition random_choice {A : Type} (opts : list A) (dflt : A) (g : Game) : A * Game :=
  (nth (Nat.modulo (rand_pick (world g) (rand_pos (world g))) (length opts)) opts dflt,
   on_world (set_rand_pos (S (rand_pos (world g)))) g).

(** ** Gimmicks *)

(** [record_gimmick(name)] *)
Definition record_gimmick (name : EffectKind) (g : Game) : Game :=
  if existsb (EffectKind_eqb name) (g_triggered_gimmicks g) then g
  else
    let g := on_fx (set_triggered_gimmicks (g_triggered_gimmicks g ++ [name])) g in
    on_fx (set_new_gimmick_timer NEW_GIMMICK_DISPLAY_TIME) g.

Definition gimmick_base (k : EffectKind) : Q :=
  match k with
  | shake_small => 1.6 | shake_big => 2.8 | rotate60 => 3.6 | flash => 0.6
  | slowmo => 5.0 | lane_wobble => 4.0 | ghost => 4.0 | spawn_rush => 6.0
  | blackout => 3.0 | invert => 4.0
  end.

Definition gimmick_opts : list (option EffectKind) :=
  [Some shake_small; Some shake_big; Some rotate60; Some flash; Some slowmo;
   Some lane_wobble; Some ghost; Some spawn_rush; Some blackout; Some invert;
   None].

(** [effects[k] = v] *)
Definition effects_set (k : EffectKind) (v : Q) (e : EffectKind -> Q) : EffectKind -> Q :=
  fun k' => if EffectKind_eqb k k' then v else e k'.

(** [trigger_random_gimmick_by_name(context_val)]; the argument is unused
    by the body. *)
Definition trigger_random_gimmick_by_name (context_val : Z) (g : Game) : Game :=
  let '(choice, g) := random_choice gimmick_opts None g in
  match choice with
  | None => g
  | Some k =>
      let g := record_gimmick k g in
      let intensity :=
        1.0 + (inject_Z (g_misses g)
               / inject_Z (Z.max 1 (MISS_LIMIT_MAP (g_difficulty g)))) * 1.5 in
      on_fx (set_effects (effects_set k (gimmick_base k * intensity) (g_effects g))) g
  end.

(** ** Clock anchoring *)

(** [play_bgm_once()]: besides starting the track it re-anchors the beat
    clock and clears the spawn bookkeeping. *)
Definition play_bgm_once (g : Game) : Game :=
  let '(t, g) := now_s g in
  let g := on_timing (set_start_time_s (Some t)) g in
  let g := on_timing (set_prep_end_time (Some (t + START_PREP_DELAY))) g in
  let g := on_timing (set_next_beat_time
                        (Some (t + START_PREP_DELAY + offset_seconds (settings g)))) g in
  let g := on_timing (set_spawn_index 0%Z) g in
  let g := on_timing (set_spawned_target_times []) g in
  on_timing (set_note_spawn_counter 0%Z) g.

(** ** Scheduling notes on the beat grid *)

(** One pass through the body of the [while True] loop of
    [schedule_notes_up_to], for the beat at [spawn_index]; [None] when the
    loop leaves through [break]. *)
Definition schedule_step (t_now anchor : Q) (g : Game) : option Game :=
  let beat_time := anchor + inject_Z (spawn_index (timing g)) * SPB in
  let spawn_time := beat_time - NOTE_TRAVEL_SEC in
  if Qle_bool spawn_time t_now then
    let g :=
      if negb (existsb (Qeq_bool beat_time) (spawned_target_times (timing g))) then
        let g := on_play (set_notes (g_notes g ++ [Note_init beat_time LANE_X false])) g in
        let g := on_timing (set_spawned_target_times
                              (beat_time :: spawned_target_times (timing g))) g in
        let g := on_timing (set_note_spawn_counter
                              (note_spawn_counter (timing g) + 1)%Z) g in
        if yakubi_mode (settings g)
           && (note_spawn_counter (timing g) mod 10 =? 0)%Z
        then trigger_random_gimmick_by_name (note_spawn_counter (timing g)) g
        else g
      else g in
    Some (on_timing (set_spawn_index (spawn_index (timing g) + 1)%Z) g)
  else None.

(** The loop, with a bound on the number of passes; [None] when the bound
    is reached before the [break]. *)
Fixpoint schedule_loop (fuel : nat) (t_now anchor : Q) (g : Game) : option Game :=
  match fuel with
  | O => None
  | S fuel' =>
      match schedule_step t_now anchor g with
      | None => Some g
      | Some g' => schedule_loop fuel' t_now anchor g'
      end
  end.

(** A number of passes that always reaches the [break]: the beats from
    [idx] on whose spawn time is at most [t_now], and one more. *)
Definition schedule_fuel (t_now anchor : Q) (idx : Z) : nat :=
  S (Z.to_nat (Qfloor ((t_now + NOTE_TRAVEL_SEC - anchor) / SPB) - idx + 1)).

(** [schedule_notes_up_to(t_now)] *)
Definition schedule_notes_up_to (t_now : Q) (g : Game) : Game :=
  match next_beat_time (timing g) with
  | None => g
  | Some anchor =>
      match schedule_loop (schedule_fuel t_now anchor (spawn_index (timing g)))
                          t_now anchor g with
      | Some g' => g'
      | None => g
      end
  end.

(** ** Judgement *)

(** [compute_judgement(dt)] *)
Definition compute_judgement (d : Difficulty) (dt : Q) : Judgement :=
  let w := DIFF_WINDOW d in
  if Qle_bool dt (PERFECT_WINDOW * w) then PERFECT
  else if Qle_bool dt (GOOD_WINDOW * w) then GOOD
  else if Qle_bool dt (OK_WINDOW * w) then OK
  else MISS.

(** The candidate search of [hit_check]: the position in [notes] of the
    best note so far and its distance, scanning from position [i]. *)
Fixpoint nearest_scan (ns : list Note) (i : nat) (tnow : Q)
         (best : option nat) (best_dt : Q) : option nat * Q :=
  match ns with
  | [] => (best, best_dt)
  | n :: rest =>
      if dead n || hit n || dummy n then nearest_scan rest (S i) tnow best best_dt
      else
        let dt := py_abs (target_time n - tnow) in
        if Qltb dt best_dt then nearest_scan rest (S i) tnow (Some i) dt
        else nearest_scan rest (S i) tnow best best_dt
  end.

(** [notes.remove(best)] for the object found at position [i]: notes have
    no [__eq__], so the object itself is the one removed. *)
Definition remove_at {A : Type} (i : nat) (l : list A) : list A :=
  firstn i l ++ skipn (S i) l.

(** The specter bookkeeping that follows every miss. *)
Definition hannya_on_miss (g : Game) : Game :=
  let g := if negb (hannya_visible (play g))
           then on_play (set_hannya_visible true) g else g in
  if (HIDE_STEP <=? g_misses g)%Z && (g_misses g <? MISS_LIMIT_MAP (g_difficulty g))%Z
  then on_play (set_hannya_hidden_behind true) g
  else g.

(** [hit_check()] *)
Definition hit_check (g : Game) : Game :=
  let '(tnow, g) := now_s g in
  let '(best, best_dt) := nearest_scan (g_notes g) 0 tnow None 1e9 in
  match best with
  | Some i =>
      let judg := compute_judgement (g_difficulty g) best_dt in
      let g :=
        if negb (Judgement_eqb judg MISS) then
          let g := on_play (set_notes (remove_at i (g_notes g))) g in
          let g := on_play (set_combo (g_combo g + 1)%Z) g in
          if negb (yakubi_mode (settings g))
             && (g_combo g mod GIMMICK_COMBO_THRESHOLD =? 0)%Z
          then trigger_random_gimmick_by_name (g_combo g) g
          else g
        else
          let g := on_play (set_combo 0%Z) g in
          let g := on_play (set_misses (g_misses g + 1)%Z) g in
          hannya_on_miss g in
      let g := on_play (set_judge_text (Some judg)) g in
      on_play (set_judge_time_end (tnow + 0.7)) g
  | None =>
      let g := on_play (set_combo 0%Z) g in
      let g := on_play (set_misses (g_misses g + 1)%Z) g in
      let g := on_play (set_judge_text (Some MISS)) g in
      let '(t2, g) := now_s g in
      let g := on_play (set_judge_time_end (t2 + 0.7)) g in
      hannya_on_miss g
  end.

(** ** Expiry *)

(** [register_auto_miss()] *)
Definition register_auto_miss (g : Game) : Game :=
  let g := on_play (set_combo 0%Z) g in
  let g := on_play (set_misses (g_misses g + 1)%Z) g in
  let g := on_play (set_judge_text (Some MISS)) g in
  let '(t, g) := now_s g in
  let g := on_play (set_judge_time_end (t + 0.7)) g in
  hannya_on_miss g.

(** The loop [for n in list(notes): n.update(t); if n.dead: remove, miss].
    [fixed] is [Some tnow] where the caller passes one reading to every
    note ([render_game]) and [None] where [now_s()] is called per note (the
    main loop).  [kept] collects, in reverse, the notes that stay. *)
Fixpoint update_notes_loop (fixed : option Q) (pending kept : list Note)
         (g : Game) : Game :=
  match pending with
  | [] => on_play (set_notes (rev kept)) g
  | n :: rest =>
      let '(t, g) := match fixed with
                     | Some t => (t, g)
                     | None => now_s g
                     end in
      let n' := Note_update (g_difficulty g) t n in
      if dead n' then update_notes_loop fixed rest kept (register_auto_miss g)
      else update_notes_loop fixed rest (n' :: kept) g
  end.

Definition update_notes (fixed : option Q) (g : Game) : Game :=
  update_notes_loop fixed (g_notes g) [] g.

(** [if effects["spawn_rush"] > 0 and random.random() < 0.03: notes.append(...)];
    [fixed] is as above. *)
Definition spawn_dummy (fixed : option Q) (g : Game) : Game :=
  if Qltb 0 (g_effects g spawn_rush) then
    let '(r, g) := random_random g in
    if Qltb r 0.03 then
      let '(t, g) := match fixed with
                     | Some t => (t, g)
                     | None => now_s g
                     end in
      on_play (set_notes (g_notes g ++ [Note_init (t + NOTE_TRAVEL_SEC * 0.5) LANE_X true])) g
    else g
  else g.

(** ** Rendering: the part of [render_game] that changes the game state *)

(** [render_game()] schedules, updates and expires notes and spawns decoys
    before it draws.  Drawing itself, and the clock reads made only to
    decide what to draw, change no game state and are left out. *)
Definition render_game (g : Game) : Game :=
  let '(tnow, g) := now_s g in
  let g := match next_beat_time (timing g) with
           | Some _ => schedule_notes_up_to tnow g
           | None => g
           end in
  let g := if Qltb 0 (g_effects g slowmo)
           then on_fx (set_slowmo_target 0.55) g
           else on_fx (set_slowmo_target 1.0) g in
  let ramp_speed := 0.6 in
  let g := on_fx (set_slowmo_current
             (slowmo_current (fx g)
              + (slowmo_target (fx g) - slowmo_current (fx g))
                * py_min 1.0 (ramp_speed * (1.0 / inject_Z FPS)))) g in
  let g := update_notes (Some tnow) g in
  spawn_dummy (Some tnow) g.

(** Amounts [render_game] computes for drawing. *)

(** [hannya_scale_base] *)
Definition hannya_scale_base : Q := 0.45.

(** The scale the specter is drawn at; [None] when it is not drawn. *)
Definition hannya_scale (g : Game) : option Q :=
  if hannya_visible (play g) && negb (hannya_hidden_behind (play g)) then
    let maxp := Z.max 1 (MISS_LIMIT_MAP (g_difficulty g) - 1) in
    let prog := if (0 <? maxp)%Z
                then py_min (inject_Z (g_misses g) / inject_Z maxp) 1.0
                else 1.0 in
    Some (hannya_scale_base + prog * 0.9)
  else None.

(** The alpha of an overlay (flash 200, blackout 220, invert 90) for an
    effect with [v] seconds left: [int(peak * min(1.0, v))], computed only
    while the effect is active. *)
Definition overlay_alpha (peak : Z) (v : Q) : option Z :=
  if Qltb 0 v then Some (py_int (inject_Z peak * py_min 1.0 v)) else None.

(** ** The main loop *)

Inductive Key :=
  | K_RETURN | K_KP_ENTER | K_s | K_g | K_ESCAPE | K_LEFT | K_RIGHT | K_UP
  | K_DOWN | K_LEFTBRACKET | K_RIGHTBRACKET | K_y | K_SPACE | K_other.

Inductive Event :=
  | QUIT
  | MOUSEBUTTONDOWN (button : Z) (mx my : Z)
  | KEYDOWN (key : Key)
  | OTHER_EVENT.

(** The statements every "start" and "restart" handler opens with:
    [notes.clear(); combo=0; misses=0; hannya_visible=False; ...],
    then the clock anchoring and the reset of the spawn bookkeeping. *)
Definition reset_run (g : Game) : Game :=
  let g := on_play (set_notes []) g in
  let g := on_play (set_combo 0%Z) g in
  let g := on_play (set_misses 0%Z) g in
  let g := on_play (set_hannya_visible false) g in
  let g := on_play (set_hannya_hidden_behind false) g in
  let '(t, g) := now_s g in
  let g := on_timing (set_start_time_s (Some t)) g in
  let g := on_timing (set_prep_end_time (Some (t + START_PREP_DELAY))) g in
  let g := on_timing (set_next_beat_time
                        (Some (t + START_PREP_DELAY + offset_seconds (settings g)))) g in
  let g := on_timing (set_spawn_index 0%Z) g in
  let g := on_timing (set_spawned_target_times []) g in
  on_timing (set_note_spawn_counter 0%Z) g.

(** A whole handler that enters the game scene.  [clear_judge] is set for
    the two handlers of the start scene (they also reset the judgement
    text), [close_panel] for its mouse handler. *)
Definition start_session (clear_judge close_panel : bool) (g : Game) : Game :=
  let g := reset_run g in
  let g := if clear_judge
           then on_play (set_judge_time_end 0) (on_play (set_judge_text None) g)
           else g in
  let g := if close_panel then set_show_gimmicks_panel false g else g in
  let g := if has_bgm g then play_bgm_once g else g in
  set_scene SCENE_GAME g.

Definition restart_rects : Rect * Rect * Rect :=
  let bx := (WIDTH / 2 - 300)%Z in
  let by_ := (HEIGHT / 2 + 40)%Z in
  let w := 160%Z in let h := 56%Z in let gap := 40%Z in
  (mkRect bx by_ w h,
   mkRect (bx + (w + gap)) by_ w h,
   mkRect (bx + 2 * (w + gap)) by_ w h).

(** The handler of a left mouse click at [(mx, my)]. *)
Definition on_mouse (mx my : Z) (g : Game) : Game :=
  match scene g with
  | SCENE_START =>
      let srect := mkRect (WIDTH / 2 - 160) (HEIGHT / 2 - 40) 140 64 in
      let crect := mkRect (WIDTH / 2 - 70) (HEIGHT / 2 - 40) 140 64 in
      let gimm_rect := mkRect (WIDTH / 2 + 20 + 80) (HEIGHT / 2 - 40) 140 64 in
      if collidepoint srect mx my then start_session true true g
      else if collidepoint crect mx my then set_scene SCENE_SETTINGS g
      else if collidepoint gimm_rect mx my
           then set_show_gimmicks_panel (negb (show_gimmicks_panel g)) g
      else g
  | SCENE_SETTINGS =>
      let done_rect := mkRect (WIDTH / 2 - 70) (HEIGHT / 2 + 140) 140 48 in
      let checkbox_rect := mkRect (WIDTH / 2 - 140) 320 20 20 in
      if collidepoint done_rect mx my then set_scene SCENE_START g
      else if collidepoint checkbox_rect mx my
           then on_settings (set_yakubi_mode (negb (yakubi_mode (settings g)))) g
      else g
  | SCENE_GAME =>
      let mok_rect := rect_centered 100 100 (LANE_X - 30) (snd MOKUGYO_CENTER) in
      if collidepoint mok_rect mx my then hit_check g else g
  | SCENE_GAMEOVER | SCENE_CLEAR =>
      let '(r1, r2, r3) := restart_rects in
      if collidepoint r1 mx my then start_session false false g
      else if collidepoint r2 mx my then set_scene SCENE_SETTINGS g
      else if collidepoint r3 mx my then set_scene SCENE_START g
      else g
  end.

(** The handler of a key press. *)
Definition on_key (k : Key) (g : Game) : Game :=
  match scene g with
  | SCENE_START =>
      match k with
      | K_RETURN | K_KP_ENTER => start_session true false g
      | K_s => set_scene SCENE_SETTINGS g
      | K_g => set_show_gimmicks_panel (negb (show_gimmicks_panel g)) g
      | _ => g
      end
  | SCENE_SETTINGS =>
      match k with
      | K_ESCAPE => set_scene SCENE_START g
      | K_LEFT =>
          match g_difficulty g with
          | normal => on_settings (set_DIFFICULTY easy) g
          | hard => on_settings (set_DIFFICULTY normal) g
          | easy => g
          end
      | K_RIGHT =>
          match g_difficulty g with
          | easy => on_settings (set_DIFFICULTY normal) g
          | normal => on_settings (set_DIFFICULTY hard) g
          | hard => g
          end
      | K_UP | K_DOWN =>
          on_settings (set_DIFFICULTY_JUDGEPOS
                         (match DIFFICULTY_JUDGEPOS (settings g) with
                          | bottom => top
                          | top => bottom
                          end)) g
      | K_LEFTBRACKET =>
          on_settings (set_offset_seconds (offset_seconds (settings g) - 0.02)) g
      | K_RIGHTBRACKET =>
          on_settings (set_offset_seconds (offset_seconds (settings g) + 0.02)) g
      | K_RETURN | K_KP_ENTER => set_scene SCENE_START g
      | K_y => on_settings (set_yakubi_mode (negb (yakubi_mode (settings g)))) g
      | _ => g
      end
  | SCENE_GAME =>
      match k with
      | K_SPACE => hit_check g
      | _ => g
      end
  | SCENE_GAMEOVER | SCENE_CLEAR =>
      match k with
      | K_RETURN | K_KP_ENTER => start_session false false g
      | K_s => set_scene SCENE_SETTINGS g
      | _ => g
      end
  end.

(** The body of [for ev in pygame.event.get()]. *)
Definition handle_event (g : Game) (ev : Event) : Game :=
  match ev with
  | QUIT => set_running false g
  | MOUSEBUTTONDOWN button mx my =>
      if (button =? 1)%Z then on_mouse mx my g else g
  | KEYDOWN k => on_key k g
  | OTHER_EVENT => g
  end.

(** Tick down effect timers and the new-gimmick timer. *)
Definition tick_timers (dt : Q) (g : Game) : Game :=
  let g := on_fx (set_effects
                    (fun k => if Qltb 0 (g_effects g k)
                              then py_max 0.0 (g_effects g k - dt)
                              else g_effects g k)) g in
  if Qltb 0 (new_gimmick_timer (fx g))
  then on_fx (set_new_gimmick_timer (py_max 0.0 (new_gimmick_timer (fx g) - dt))) g
  else g.

(** The test [prep_end_time and now_s() < prep_end_time]; the clock is read
    only when [prep_end_time] is set and non-zero. *)
Definition in_prep (g : Game) : bool * Game :=
  match prep_end_time (timing g) with
  | Some pe =>
      if truthy (Some pe) then
        let '(t, g) := now_s g in (Qltb t pe, g)
      else (false, g)
  | None => (false, g)
  end.

(** The [SCENE_GAME] branch of the loop body once prep is over, up to the
    miss-limit test: scheduling, expiry, decoy spawning, end of the track. *)
Definition active_update (g : Game) : Game :=
  let g := match next_beat_time (timing g) with
           | Some _ => let '(t, g) := now_s g in schedule_notes_up_to t g
           | None => g
           end in
  let g := update_notes None g in
  let g := spawn_dummy None g in
  match bgm_length g, start_time_s (timing g) with
  | Some len, Some st =>
      if truthy (Some len) && truthy (Some st) then
        let '(t, g) := now_s g in
        if Qltb (len + START_PREP_DELAY) (t - st)
        then set_scene SCENE_CLEAR g else g
      else g
  | _, _ => g
  end.

(** [if misses >= MISS_LIMIT_MAP[DIFFICULTY]: ... scene = SCENE_GAMEOVER;
    continue], and the [render_game()] that follows otherwise. *)
Definition miss_limit_check (g : Game) : Game :=
  if (MISS_LIMIT_MAP (g_difficulty g) <=? g_misses g)%Z then
    let g := on_play (set_hannya_hidden_behind true) g in
    set_scene SCENE_GAMEOVER g
  else render_game g.

(** The [SCENE_GAME] branch of the loop body. *)
Definition game_scene_step (g : Game) : Game :=
  let '(prep, g) := in_prep g in
  if prep then render_game g
  else miss_limit_check (active_update g).

(** One pass through the body of [while running]; [tick_ms] is the value
    of [clock.tick(FPS)] and [events] that of [pygame.event.get()]. *)
Definition main_loop_body (tick_ms : Z) (events : list Event) (g : Game) : Game :=
  let dt := inject_Z tick_ms / 1000.0 in
  let '(_, g) := now_s g in
  let g := fold_left handle_event events g in
  let g := tick_timers dt g in
  match scene g with
  | SCENE_GAME => game_scene_step g
  | _ => g
  end.

(** The state of the program when the loop is entered. *)
Definition initial_game (bgm : bool) (len : option Q) (w : World) : Game :=
  {| has_bgm := bgm; bgm_length := len; world := w;
     scene := SCENE_START;
     settings := {| DIFFICULTY := normal; DIFFICULTY_JUDGEPOS := bottom;
                    offset_seconds := 0.0; yakubi_mode := false |};
     timing := {| start_time_s := None; prep_end_time := None;
                  next_beat_time := None; spawn_index := 0;
                  spawned_target_times := []; note_spawn_counter := 0 |};
     play := {| notes := []; combo := 0; misses := 0;
                hannya_visible := false; hannya_hidden_behind := false;
                judge_text := None; judge_time_end := 0.0 |};
     fx := {| effects := fun _ => 0.0; slowmo_current := 1.0;
              slowmo_target := 1.0; triggered_gimmicks := [];
              new_gimmick_timer := 0.0 |};
     running := true;
     show_gimmicks_panel := false |}.

(** * Vocabulary of the properties

    Notions the statements below are written with, and the sample states
    they are evaluated at. *)

(** ** Note motion and the update pass *)

(** The interpolation the specification names. *)
Definition lerp (a b p : Q) : Q := a + (b - a) * p.

(** What [Note.__init__] establishes and [Note.update] keeps. *)
Definition note_shape (n : Note) : Prop :=
  start_y n = (-60)%Z /\ hit_y n = HITLINE_Y /\
  spawn_time n == target_time n - NOTE_TRAVEL_SEC.

(** The notes the pass leaves, as a function of what it reads: the
    difficulty, the clock and the notes themselves. *)
Fixpoint notes_after (fixed : option Q) (d : Difficulty) (clk : nat -> Z)
         (pos : nat) (pending kept : list Note) : list Note :=
  match pending with
  | [] => rev kept
  | n :: rest =>
      let t := match fixed with
               | Some t => t
               | None => inject_Z (clk pos) / 1000.0
               end in
      let pos1 := match fixed with Some _ => pos | None => S pos end in
      let n' := Note_update d t n in
      if dead n' then notes_after fixed d clk (S pos1) rest kept
      else notes_after fixed d clk pos1 rest (n' :: kept)
  end.

(** The reading a pass gives a note is past the note's grace period:
    the one reading of [render_game], or every reading still to come. *)
Definition pass_late (fixed : option Q) (d : Difficulty) (clk : nat -> Z)
           (pos : nat) (n : Note) : Prop :=
  match fixed with
  | Some t => grace d < t - target_time n
  | None => forall i, (pos <= i)%nat ->
                      grace d < inject_Z (clk i) / 1000.0 - target_time n
  end.

(** ** The beat grid and the scheduling loop *)

(** The target time of beat [n]: the [beat_time] the loop computes. *)
Definition beat_time (anchor : Q) (n : Z) : Q := anchor + inject_Z n * SPB.

(** [q in spawned_target_times], as a proposition. *)
Definition in_times (q : Q) (l : list Q) : Prop := exists q', In q' l /\ q == q'.

(** The notes a call appends, for the beats [ks]. *)
Definition beat_notes (a : Q) (ks : list Z) : list Note :=
  map (fun k => Note_init (beat_time a k) LANE_X false) ks.

(** What one pass of the loop body does. *)
Record step_facts (t a : Q) (g g' : Game) : Prop := {
  sf_due : beat_time a (spawn_index (timing g)) - NOTE_TRAVEL_SEC <= t;
  sf_index : spawn_index (timing g') = (spawn_index (timing g) + 1)%Z;
  sf_anchor : next_beat_time (timing g') = next_beat_time (timing g);
  sf_start : start_time_s (timing g') = start_time_s (timing g);
  sf_prep : prep_end_time (timing g') = prep_end_time (timing g);
  sf_settings : settings g' = settings g;
  sf_scene : scene g' = scene g;
  sf_combo : g_combo g' = g_combo g;
  sf_misses : g_misses g' = g_misses g;
  sf_spawn :
    let bt := beat_time a (spawn_index (timing g)) in
    (in_times bt (spawned_target_times (timing g))
     /\ g_notes g' = g_notes g
     /\ spawned_target_times (timing g') = spawned_target_times (timing g)
     /\ note_spawn_counter (timing g') = note_spawn_counter (timing g))
    \/ (~ in_times bt (spawned_target_times (timing g))
        /\ g_notes g' = g_notes g ++ [Note_init bt LANE_X false]
        /\ spawned_target_times (timing g') = bt :: spawned_target_times (timing g)
        /\ note_spawn_counter (timing g') = (note_spawn_counter (timing g) + 1)%Z)
}.

(** What a whole run of the loop does: [ks] are the beat indices it
    materialises, in order. *)
Record sched_facts (t a : Q) (g g' : Game) (ks : list Z) : Prop := {
  sc_notes :
    g_notes g' = g_notes g ++ map (fun k => Note_init (beat_time a k) LANE_X false) ks;
  sc_set :
    spawned_target_times (timing g')
    = rev (map (beat_time a) ks) ++ spawned_target_times (timing g);
  sc_counter :
    note_spawn_counter (timing g')
    = (note_spawn_counter (timing g) + Z.of_nat (length ks))%Z;
  sc_index : (spawn_index (timing g) <= spawn_index (timing g'))%Z;
  sc_range :
    Forall (fun k => (spawn_index (timing g) <= k < spawn_index (timing g'))%Z) ks;
  sc_fresh :
    Forall (fun k => ~ in_times (beat_time a k) (spawned_target_times (timing g))) ks;
  sc_distinct :
    ForallOrdPairs (fun k1 k2 => ~ beat_time a k1 == beat_time a k2) ks;
  sc_sorted : StronglySorted Z.lt ks;
  sc_complete :
    forall k, (spawn_index (timing g) <= k < spawn_index (timing g'))%Z ->
      beat_time a k - NOTE_TRAVEL_SEC <= t
      /\ in_times (beat_time a k) (spawned_target_times (timing g'))
      /\ (In k ks \/ in_times (beat_time a k) (spawned_target_times (timing g)));
  sc_break : schedule_step t a g' = None;
  sc_anchor : next_beat_time (timing g') = next_beat_time (timing g);
  sc_start : start_time_s (timing g') = start_time_s (timing g);
  sc_prep : prep_end_time (timing g') = prep_end_time (timing g);
  sc_settings : settings g' = settings g;
  sc_scene : scene g' = scene g;
  sc_combo : g_combo g' = g_combo g;
  sc_misses : g_misses g' = g_misses g
}.

(** Two successive calls, the first at [t1] and the second at [t2], from a
    state anchored at [a]: [ks1] and [ks2] are the beats they materialise. *)
Definition no_double_spawn (t1 t2 : Q) (g : Game) (a : Q) : Prop :=
  let g1 := schedule_notes_up_to t1 g in
  let g2 := schedule_notes_up_to t2 g1 in
  exists ks1 ks2,
    g_notes g1 = g_notes g ++ beat_notes a ks1
    /\ g_notes g2 = g_notes g ++ beat_notes a (ks1 ++ ks2)
    /\ ForallOrdPairs (fun k1 k2 => ~ beat_time a k1 == beat_time a k2)
                      (ks1 ++ ks2)
    /\ Forall (fun k => ~ in_times (beat_time a k)
                                   (spawned_target_times (timing g)))
              (ks1 ++ ks2)
    /\ Forall (fun k => (spawn_index (timing g1) <= k)%Z) ks2
    /\ Forall (fun k => in_times (beat_time a k)
                                 (spawned_target_times (timing g2)))
              (ks1 ++ ks2).


(** ** Sessions *)

(** The clock reading number [i] of the world of [g]. *)
Definition clock_reading (g : Game) (i : nat) : Q :=
  inject_Z (clock_ms (world g) i) / 1000.0.

(** What a handler that enters the game scene leaves behind; [t] is the
    clock reading it anchors the session at. *)
Record session_reset (g g' : Game) (t : Q) : Prop := {
  sr_notes : g_notes g' = [];
  sr_combo : g_combo g' = 0%Z;
  sr_misses : g_misses g' = 0%Z;
  sr_index : spawn_index (timing g') = 0%Z;
  sr_counter : note_spawn_counter (timing g') = 0%Z;
  sr_set : spawned_target_times (timing g') = [];
  sr_start : start_time_s (timing g') = Some t;
  sr_prep : prep_end_time (timing g') = Some (t + START_PREP_DELAY);
  sr_anchor :
    next_beat_time (timing g')
    = Some (t + START_PREP_DELAY + offset_seconds (settings g));
  sr_scene : scene g' = SCENE_GAME;
  sr_settings : settings g' = settings g;
  sr_fx : fx g' = fx g
}.


(** ** Judgement *)

(** A note the candidate search of [hit_check] considers. *)
Definition live (n : Note) : bool := negb (dead n || hit n || dummy n).

(** Its distance to the hit instant. *)
Definition distance (tnow : Q) (n : Note) : Q := py_abs (target_time n - tnow).

(** ** Passes of the main loop *)

(** The gimmick log only grows. *)
Definition log_ext (g g' : Game) : Prop :=
  exists l, g_triggered_gimmicks g' = g_triggered_gimmicks g ++ l.

(** The scene, the settings and the log's past are kept and the miss
    counter does not go down: what scheduling, expiry, judgement and
    rendering have in common. *)
Record steady (g g' : Game) : Prop := {
  st_scene : scene g' = scene g;
  st_settings : settings g' = settings g;
  st_misses : (g_misses g <= g_misses g')%Z;
  st_log : log_ext g g'
}.

(** An event handler that neither judges nor starts a session: it leaves
    the run state, the timing and the effects alone, and the only scene
    changes it makes lead to the title or the settings screen, never out
    of the game scene. *)
Record quiet (g h : Game) : Prop := {
  q_play : play h = play g;
  q_timing : timing h = timing g;
  q_fx : fx h = fx g;
  q_scene : scene h = scene g
            \/ (scene g <> SCENE_GAME
                /\ (scene h = SCENE_START \/ scene h = SCENE_SETTINGS))
}.

(** The state of a pass when its scene dispatch begins: the events have
    been handled and the timers ticked. *)
Definition after_events (tick_ms : Z) (events : list Event) (g : Game) : Game :=
  tick_timers (inject_Z tick_ms / 1000.0)
              (fold_left handle_event events (snd (now_s g))).

(** The click area of the mokugyo. *)
Definition mok_rect : Rect :=
  rect_centered 100 100 (LANE_X - 30) (snd MOKUGYO_CENTER).

(** ** Sample states *)

(** A world whose clock stands at [ms] and whose random draws are never
    below the decoy threshold and always pick the no-op gimmick. *)
Definition still_world (ms : Z) : World :=
  {| clock_ms := fun _ => ms; clock_pos := 0;
     rand_float := fun _ => 0.5; rand_pick := fun _ => 10%nat; rand_pos := 0 |}.

(** The clock of a world replaced by the one standing at [ms]. *)
Definition at_time (ms : Z) (g : Game) : Game :=
  on_world (fun w => {| clock_ms := fun _ => ms; clock_pos := 0;
                        rand_float := rand_float w; rand_pick := rand_pick w;
                        rand_pos := rand_pos w |}) g.

(** A session started from the title screen when the clock reads 1.000 s,
    without a music track. *)
Definition sample_started : Game :=
  start_session true true (initial_game false None (still_world 1000)).

(** The beat anchor of that session: start, prep delay and offset. *)
Definition sample_anchor : Q := inject_Z 1000 / 1000.0 + START_PREP_DELAY + 0.0.

(** The sample session with its first note scheduled (target time 2.6 s),
    the clock standing at [ms]. *)
Definition sample_one_note (ms : Z) : Game :=
  at_time ms (schedule_notes_up_to 1 sample_started).

(** Active play, 2.6 s on the clock, combo 3, no miss so far; the only
    note in flight is a decoy whose target time was 2.4 s. *)
Definition decoy_input : Game :=
  on_play (set_combo 3%Z)
    (on_play (set_notes [Note_init 2.4 LANE_X true]) (at_time 2600 sample_started)).

(** The sample session half a second after its start: prep lasts until
    2.6 s. *)
Definition prep_input : Game := at_time 1500 sample_started.

(** Active play on NORMAL with five misses on the counter and no note in
    flight yet. *)
Definition five_misses_input : Game :=
  on_play (set_misses 5%Z) (at_time 2600 sample_started).

(** A session that has just failed, nine seconds in: the decoy rush was
    triggered during it, has six seconds left and is in the log. *)
Definition gameover_input : Game :=
  set_scene SCENE_GAMEOVER
    (on_fx (set_triggered_gimmicks [spawn_rush])
       (on_fx (set_effects (effects_set spawn_rush 6.0 (fun _ => 0.0)))
          (at_time 9000 sample_started))).

(** ** Further notions *)

(** The tiers of a judgement, best first. *)
Definition judgement_rank (j : Judgement) : Z :=
  match j with PERFECT => 0 | GOOD => 1 | OK => 2 | MISS => 3 end.

(** Active play with five misses on NORMAL, the generator about to draw
    the decoy rush (entry 7 of the gimmick list). *)
Definition rush_pick_input : Game :=
  on_world (fun w => {| clock_ms := clock_ms w; clock_pos := clock_pos w;
                        rand_float := rand_float w; rand_pick := fun _ => 7%nat;
                        rand_pos := rand_pos w |}) five_misses_input.

(** ** Invariants of the running program *)

(** The target times of the real (non-decoy) notes of a list, in order. *)
Definition real_targets (l : list Note) : list Q :=
  map target_time (filter (fun n => negb (dummy n)) l).

(** Counters, timers and the log are in range. *)
Record sane (g : Game) : Prop := {
  sn_combo : (0 <= g_combo g)%Z;
  sn_misses : (0 <= g_misses g)%Z;
  sn_index : (0 <= spawn_index (timing g))%Z;
  sn_counter : (0 <= note_spawn_counter (timing g))%Z;
  sn_effects : forall k, 0 <= g_effects g k;
  sn_timer : 0 <= new_gimmick_timer (fx g);
  sn_log : NoDup (g_triggered_gimmicks g)
}.

(** The note list between two statements of the loop: no note in it is
    dead or flagged hit, every note is as the constructor shapes it, and
    the real notes have pairwise different target times, all of them
    recorded in [spawned_target_times]. *)
Record notes_ok (g : Game) : Prop := {
  no_alive :
    Forall (fun n => dead n = false /\ hit n = false /\ note_shape n) (g_notes g);
  no_distinct :
    ForallOrdPairs (fun q1 q2 => ~ q1 == q2) (real_targets (g_notes g));
  no_recorded :
    Forall (fun q => in_times q (spawned_target_times (timing g)))
           (real_targets (g_notes g))
}.

(** What every piece of the program does to the state: the assets and the
    oracles are those of before and are only read forward, and the two
    invariants above are kept. *)
Record evolves (g g' : Game) : Prop := {
  ev_bgm : has_bgm g' = has_bgm g;
  ev_len : bgm_length g' = bgm_length g;
  ev_clock : clock_ms (world g') = clock_ms (world g);
  ev_randf : rand_float (world g') = rand_float (world g);
  ev_randp : rand_pick (world g') = rand_pick (world g);
  ev_cpos : (clock_pos (world g) <= clock_pos (world g'))%nat;
  ev_rpos : (rand_pos (world g) <= rand_pos (world g'))%nat;
  ev_sane : sane g -> sane g';
  ev_notes : notes_ok g -> notes_ok g'
}.

(** The program after a sequence of passes of its main loop, each given by
    the value of [clock.tick] and the events of that pass. *)
Definition run_passes (passes : list (Z * list Event)) (g : Game) : Game :=
  fold_left (fun g p => main_loop_body (fst p) (snd p) g) passes g.

(** The difficulties in the order of the settings screen. *)
Definition difficulty_rank (d : Difficulty) : Z :=
  match d with easy => 0 | normal => 1 | hard => 2 end.

(** A settings screen, as reached from the title screen. *)
Definition settings_input : Game :=
  set_scene SCENE_SETTINGS (initial_game false None (still_world 1000)).

(** The sample session on the beat of its first note, with a combo of 19. *)
Definition combo19_input : Game :=
  on_play (set_combo 19%Z) (sample_one_note 2600).

(** The sample session in hazard mode with nine notes spawned so far. *)
Definition hazard_input : Game :=
  on_timing (set_note_spawn_counter 9%Z)
    (on_settings (set_yakubi_mode true) sample_started).


(** * Properties *)

(** ** Comparisons and clamping *)

Lemma Qltb_true (a b : Q) : Qltb a b = true <-> a < b.
Proof.
  unfold Qltb. rewrite negb_true_iff. split; intro H.
  - apply Qnot_le_lt. intro L. apply Qle_bool_iff in L. congruence.
  - destruct (Qle_bool b a) eqn:E; [|reflexivity].
    apply Qle_bool_iff in E. exfalso. apply (Qlt_not_le _ _ H E).
Qed.

Lemma Qltb_false (a b : Q) : Qltb a b = false <-> b <= a.
Proof.
  unfold Qltb. rewrite negb_false_iff. apply Qle_bool_iff.
Qed.

Lemma Qle_bool_false (a b : Q) : Qle_bool a b = false <-> b < a.
Proof.
  split; intro H.
  - apply Qnot_le_lt. intro L. apply Qle_bool_iff in L. congruence.
  - destruct (Qle_bool a b) eqn:E; [|reflexivity].
    apply Qle_bool_iff in E. exfalso. apply (Qlt_not_le _ _ H E).
Qed.

Ltac qcases :=
  repeat match goal with
  | |- context [Qltb ?a ?b] =>
      let E := fresh "E" in
      destruct (Qltb a b) eqn:E;
      [apply Qltb_true in E | apply Qltb_false in E]
  | |- context [Qle_bool ?a ?b] =>
      let E := fresh "E" in
      destruct (Qle_bool a b) eqn:E;
      [apply Qle_bool_iff in E | apply Qle_bool_false in E]
  end.

Lemma py_abs_spec (v : Q) :
  0 <= py_abs v /\ (py_abs v == v \/ py_abs v == - v).
Proof.
  unfold py_abs. qcases; (split; [lra|]).
  - right. reflexivity.
  - left. reflexivity.
Qed.


Lemma clamp_mid (v a b : Q) : a <= v -> v <= b -> clamp v a b == v.
Proof. intros. unfold clamp, py_min. qcases; unfold py_max; qcases; lra. Qed.


Lemma clamp_bounds (v a b : Q) : a <= b -> a <= clamp v a b <= b.
Proof. intros. unfold clamp, py_min. qcases; unfold py_max; qcases; lra. Qed.


Lemma clamp_unit (v : Q) : clamp v 0.0 1.0 == clamp v 0 1.
Proof. unfold clamp, py_min. qcases; unfold py_max; qcases; lra. Qed.

(** ** Note motion *)

Lemma Note_init_shape (tt : Q) (x0 : Z) (dm : bool) : note_shape (Note_init tt x0 dm).
Proof. repeat split; simpl; reflexivity. Qed.

Lemma Note_update_shape (d : Difficulty) (t : Q) (n : Note) :
  note_shape n -> note_shape (Note_update d t n).
Proof. intros (A & B & C). repeat split; simpl; assumption. Qed.

Lemma travel_total : py_max 0.001 NOTE_TRAVEL_SEC = NOTE_TRAVEL_SEC.
Proof. reflexivity. Qed.

Lemma Note_update_y (d : Difficulty) (t : Q) (n : Note) :
  y (Note_update d t n)
  == lerp (inject_Z (start_y n)) (inject_Z (hit_y n))
          (clamp ((t - spawn_time n) / NOTE_TRAVEL_SEC) 0 1).
Proof.
  unfold Note_update, lerp; simpl y. rewrite travel_total.
  rewrite clamp_unit. reflexivity.
Qed.

Lemma travel_div (v : Q) : v / NOTE_TRAVEL_SEC == v * (5 # 8).
Proof. unfold NOTE_TRAVEL_SEC. field. Qed.

(** ** What the helpers leave alone *)

Ltac break_ifs :=
  repeat match goal with
  | |- context [if ?c then _ else _] => destruct c
  | |- context [match ?c with Some _ => _ | None => _ end] => destruct c
  end.

Lemma record_gimmick_frame (k : EffectKind) (g : Game) :
  play (record_gimmick k g) = play g /\ timing (record_gimmick k g) = timing g /\
  settings (record_gimmick k g) = settings g /\ scene (record_gimmick k g) = scene g /\
  world (record_gimmick k g) = world g /\
  effects (fx (record_gimmick k g)) = effects (fx g).
Proof. unfold record_gimmick. break_ifs; simpl; auto 10. Qed.

Lemma trigger_frame (c : Z) (g : Game) :
  play (trigger_random_gimmick_by_name c g) = play g /\
  timing (trigger_random_gimmick_by_name c g) = timing g /\
  settings (trigger_random_gimmick_by_name c g) = settings g /\
  scene (trigger_random_gimmick_by_name c g) = scene g.
Proof.
  unfold trigger_random_gimmick_by_name, random_choice.
  destruct (nth _ gimmick_opts None) as [k|]; simpl; [|auto].
  match goal with |- context [record_gimmick k ?h] =>
    destruct (record_gimmick_frame k h) as (A & B & C & D & _) end.
  rewrite A, B, C, D. simpl. auto.
Qed.

Lemma hannya_on_miss_frame (g : Game) :
  g_notes (hannya_on_miss g) = g_notes g /\
  g_combo (hannya_on_miss g) = g_combo g /\
  g_misses (hannya_on_miss g) = g_misses g /\
  timing (hannya_on_miss g) = timing g /\
  settings (hannya_on_miss g) = settings g /\
  scene (hannya_on_miss g) = scene g /\
  fx (hannya_on_miss g) = fx g /\
  world (hannya_on_miss g) = world g.
Proof.
  unfold hannya_on_miss, g_notes, g_combo, g_misses.
  destruct (negb (hannya_visible (play g))); simpl;
    match goal with |- context [if ?c then _ else _] => destruct c end;
    simpl; auto 10.
Qed.

Lemma register_auto_miss_frame (g : Game) :
  g_notes (register_auto_miss g) = g_notes g /\
  g_combo (register_auto_miss g) = 0%Z /\
  g_misses (register_auto_miss g) = (g_misses g + 1)%Z /\
  timing (register_auto_miss g) = timing g /\
  settings (register_auto_miss g) = settings g /\
  scene (register_auto_miss g) = scene g /\
  fx (register_auto_miss g) = fx g /\
  world (register_auto_miss g) = set_clock_pos (S (clock_pos (world g))) (world g).
Proof.
  unfold register_auto_miss, now_s.
  match goal with |- context [hannya_on_miss ?h] =>
    destruct (hannya_on_miss_frame h) as (A & B & C & D & E & F & G & H) end.
  rewrite A, B, C, D, E, F, G, H. simpl. auto 10.
Qed.

(** ** The update-and-expire pass *)

Lemma update_notes_loop_notes (fixed : option Q) (pending : list Note) :
  forall kept g,
    g_notes (update_notes_loop fixed pending kept g)
    = notes_after fixed (g_difficulty g) (clock_ms (world g))
                  (clock_pos (world g)) pending kept.
Proof.
  induction pending as [|n rest IH]; intros kept g; [reflexivity|].
  destruct fixed as [t|]; cbn [update_notes_loop notes_after].
  - destruct (dead (Note_update (g_difficulty g) t n)).
    + rewrite IH.
      destruct (register_auto_miss_frame g) as (_ & _ & _ & _ & S & _ & _ & W).
      unfold g_difficulty. rewrite S, W. reflexivity.
    + rewrite IH. reflexivity.
  - unfold now_s. cbv beta iota.
    change (g_difficulty (on_world _ g)) with (g_difficulty g).
    destruct (dead (Note_update (g_difficulty g) _ n)).
    + rewrite IH.
      match goal with |- context [register_auto_miss ?h] =>
        destruct (register_auto_miss_frame h) as (_ & _ & _ & _ & S & _ & _ & W) end.
      unfold g_difficulty. rewrite S, W. reflexivity.
    + rewrite IH. reflexivity.
Qed.

(** Every note the pass removes costs one miss, whatever the note is. *)
Lemma update_notes_loop_misses (fixed : option Q) (pending : list Note) :
  forall kept g,
    (g_misses (update_notes_loop fixed pending kept g)
     = g_misses g + Z.of_nat (length pending + length kept)
       - Z.of_nat (length (g_notes (update_notes_loop fixed pending kept g))))%Z.
Proof.
  induction pending as [|n rest IH]; intros kept g.
  - cbn [update_notes_loop]. unfold g_misses, g_notes; simpl.
    rewrite length_rev. lia.
  - destruct fixed as [t|]; cbn [update_notes_loop].
    + destruct (dead (Note_update (g_difficulty g) t n)).
      * rewrite IH.
        destruct (register_auto_miss_frame g) as (_ & _ & M & _).
        rewrite M. cbn [length]. lia.
      * rewrite IH. cbn [length]. lia.
    + unfold now_s. cbv beta iota.
      destruct (dead (Note_update _ _ n)).
      * rewrite IH.
        match goal with |- context [register_auto_miss ?h] =>
          destruct (register_auto_miss_frame h) as (_ & _ & M & _) end.
        rewrite M. change (g_misses (on_world _ g)) with (g_misses g).
        cbn [length]. lia.
      * rewrite IH. change (g_misses (on_world _ g)) with (g_misses g).
        cbn [length]. lia.
Qed.

Lemma notes_after_length (fixed : option Q) (d : Difficulty) (clk : nat -> Z)
      (pending : list Note) :
  forall pos kept,
    (length (notes_after fixed d clk pos pending kept)
     <= length pending + length kept)%nat.
Proof.
  induction pending as [|n rest IH]; intros pos kept; cbn [notes_after length].
  - rewrite length_rev. lia.
  - destruct (dead (Note_update d _ n)).
    + etransitivity; [apply IH|]. lia.
    + etransitivity; [apply IH|]. cbn [length]. lia.
Qed.



(** ** Scheduling *)

Lemma existsb_in_times (q : Q) (l : list Q) :
  existsb (Qeq_bool q) l = true <-> in_times q l.
Proof.
  rewrite existsb_exists. unfold in_times.
  split; intros (q' & I & E); exists q'; split; auto; apply Qeq_bool_iff; exact E.
Qed.

Lemma in_times_cons (q q0 : Q) (l : list Q) :
  in_times q (q0 :: l) <-> q == q0 \/ in_times q l.
Proof.
  unfold in_times. split.
  - intros (q' & [E|I] & H); [left; subst; exact H | right; eauto].
  - intros [H | (q' & I & H)]; [exists q0 | exists q']; simpl; auto.
Qed.

Lemma in_times_app (q : Q) (l1 l2 : list Q) :
  in_times q (l1 ++ l2) <-> in_times q l1 \/ in_times q l2.
Proof.
  unfold in_times. split.
  - intros (q' & I & E). apply in_app_or in I. destruct I; eauto.
  - intros [(q' & I & E) | (q' & I & E)]; exists q'; split; auto;
      apply in_or_app; auto.
Qed.

Lemma SPB_pos : 0 < SPB.
Proof. reflexivity. Qed.


(** The loop of one call, at time [t] from the anchor [a]. *)
Section ScheduleLoop.

Variables t a : Q.

Lemma schedule_step_some (g g' : Game) :
  schedule_step t a g = Some g' -> step_facts t a g g'.
Proof.
  unfold schedule_step. fold (beat_time a (spawn_index (timing g))).
  set (bt := beat_time a (spawn_index (timing g))).
  destruct (Qle_bool (bt - NOTE_TRAVEL_SEC) t) eqn:Due; [|discriminate].
  apply Qle_bool_iff in Due.
  destruct (existsb (Qeq_bool bt) (spawned_target_times (timing g))) eqn:Mem;
    cbn [negb]; intro H; injection H as <-.
  - apply existsb_in_times in Mem.
    constructor; try reflexivity; try assumption. left. auto.
  - assert (NI : ~ in_times bt (spawned_target_times (timing g))).
    { intro I. apply existsb_in_times in I. congruence. }
    match goal with |- context [if ?c then trigger_random_gimmick_by_name ?v ?h else _] =>
      destruct c;
      [destruct (trigger_frame v h) as (A & B & C & D);
       generalize dependent (trigger_random_gimmick_by_name v h);
       intros g2 A B C D|]
    end.
    + constructor; unfold g_combo, g_misses, g_notes; cbn;
        rewrite ?A, ?B, ?C, ?D; cbn; try reflexivity; try assumption.
      right. auto.
    + constructor; try reflexivity; try assumption. right. cbn. auto.
Qed.

Lemma schedule_step_none (g : Game) :
  schedule_step t a g = None <->
  t < beat_time a (spawn_index (timing g)) - NOTE_TRAVEL_SEC.
Proof.
  unfold schedule_step. fold (beat_time a (spawn_index (timing g))).
  destruct (Qle_bool _ t) eqn:Due.
  - apply Qle_bool_iff in Due. split; [discriminate|intro; lra].
  - apply Qle_bool_false in Due. split; auto.
Qed.

(** Induction along the passes of the loop. *)
Lemma schedule_loop_ind (P : Game -> Game -> Prop) :
  (forall g, schedule_step t a g = None -> P g g) ->
  (forall g g1 g', schedule_step t a g = Some g1 -> P g1 g' -> P g g') ->
  forall fuel g g', schedule_loop fuel t a g = Some g' -> P g g'.
Proof.
  intros Hbreak Hstep.
  induction fuel as [|fuel IH]; intros g g' H; [discriminate|].
  cbn [schedule_loop] in H.
  destruct (schedule_step t a g) as [g1|] eqn:E.
  - eapply Hstep; eauto.
  - injection H as <-. auto.
Qed.

Lemma beat_due_index (k : Z) :
  beat_time a k - NOTE_TRAVEL_SEC <= t ->
  (k <= Qfloor ((t + NOTE_TRAVEL_SEC - a) / SPB))%Z.
Proof.
  intro H. rewrite <- (Qfloor_Z k) at 1. apply Qfloor_resp_le.
  assert (E : (t + NOTE_TRAVEL_SEC - a) / SPB == (t + NOTE_TRAVEL_SEC - a) * (158 # 60)).
  { unfold SPB, BPM. field. }
  rewrite E. unfold beat_time, SPB, BPM in H.
  assert (E2 : 60.0 / 158 == 60 # 158) by reflexivity.
  rewrite E2 in H. lra.
Qed.

(** The loop always leaves through its [break] when given the passes
    [schedule_fuel] counts. *)
Lemma schedule_loop_total :
  forall fuel g,
    (Z.to_nat (Qfloor ((t + NOTE_TRAVEL_SEC - a) / SPB)
               - spawn_index (timing g) + 1) < fuel)%nat ->
    exists g', schedule_loop fuel t a g = Some g'.
Proof.
  induction fuel as [|fuel IH]; intros g Hf; [lia|].
  cbn [schedule_loop].
  destruct (schedule_step t a g) as [g1|] eqn:E; [|eauto].
  apply schedule_step_some in E. destruct E as [Due Idx _ _ _ _ _ _ _ _].
  apply beat_due_index in Due.
  apply IH. rewrite Idx. lia.
Qed.

Lemma schedule_loop_facts :
  forall fuel g g', schedule_loop fuel t a g = Some g' ->
    exists ks, sched_facts t a g g' ks.
Proof.
  apply (schedule_loop_ind (fun g g' => exists ks, sched_facts t a g g' ks)).
  - intros g Hb. exists [].
    constructor; simpl; rewrite ?app_nil_r; auto; try lia;
      try constructor; intros; lia.
  - intros g g1 g' Hs (ks & F). apply schedule_step_some in Hs.
    destruct Hs as [Due Idx Anc St Pr Set_ Sce Com Mis Spawn].
    destruct F as [Fn Fs Fc Fi Fr Ff Fd Fso Fcm Fb Fa Fst Fpr Fse Fsc Fco Fmi].
    cbv zeta in Spawn.
    destruct Spawn as [(In0 & N & S & C) | (NIn0 & N & S & C)].
    + exists ks. constructor; try congruence; try lia.
      * eapply Forall_impl; [|exact Fr]. simpl. intros; lia.
      * rewrite <- S. exact Ff.
      * intros k Hk.
        destruct (Z.eq_dec k (spawn_index (timing g))) as [->|Ne].
        -- split; [exact Due|]. split; [|right; exact In0].
           rewrite Fs. apply in_times_app. right. rewrite S. exact In0.
        -- destruct (Fcm k) as (A & B & D); [lia|].
           split; [exact A|]. split; [exact B|]. rewrite <- S. exact D.
    + exists (spawn_index (timing g) :: ks). constructor; try congruence; try lia.
      * rewrite Fn, N, <- app_assoc. reflexivity.
      * rewrite Fs, S. simpl. rewrite <- app_assoc. reflexivity.
      * rewrite Fc, C. simpl length. lia.
      * constructor; [lia|].
        eapply Forall_impl; [|exact Fr]. simpl. intros; lia.
      * constructor; [exact NIn0|].
        eapply Forall_impl; [|exact Ff]. simpl. intros k Hk I. apply Hk.
        rewrite S. apply in_times_cons. right. exact I.
      * constructor; [|exact Fd].
        eapply Forall_impl; [|exact Ff]. simpl. intros k Hk E. apply Hk.
        rewrite S. apply in_times_cons. left. symmetry. exact E.
      * constructor; [exact Fso|].
        eapply Forall_impl; [|exact Fr]. simpl. intros; lia.
      * intros k Hk.
        destruct (Z.eq_dec k (spawn_index (timing g))) as [->|Ne].
        -- split; [exact Due|]. split; [|left; left; reflexivity].
           rewrite Fs. apply in_times_app. right. rewrite S.
           apply in_times_cons. left. reflexivity.
        -- destruct (Fcm k) as (A & B & D); [lia|].
           split; [exact A|]. split; [exact B|].
           destruct D as [D|D]; [left; right; exact D|].
           rewrite S in D. apply in_times_cons in D. destruct D as [D|D].
           ++ left. left. unfold beat_time in D.
              assert (X : inject_Z k == inject_Z (spawn_index (timing g))).
              { pose proof SPB_pos as P. unfold SPB, BPM in *.
                assert (E2 : 60.0 / 158 == 60 # 158) by reflexivity.
                rewrite E2 in D. lra. }
              symmetry. apply eq_sym. unfold Qeq in X. simpl in X. lia.
           ++ right. exact D.
Qed.

End ScheduleLoop.

(** The call itself: it always returns, with the facts of its loop. *)
Lemma schedule_notes_up_to_facts (t : Q) (g : Game) (a : Q) :
  next_beat_time (timing g) = Some a ->
  exists ks, sched_facts t a g (schedule_notes_up_to t g) ks.
Proof.
  intro Ha. unfold schedule_notes_up_to. rewrite Ha.
  destruct (schedule_loop_total t a
              (schedule_fuel t a (spawn_index (timing g))) g) as (g' & E).
  { unfold schedule_fuel. lia. }
  rewrite E. eapply schedule_loop_facts; eauto.
Qed.

Lemma schedule_notes_up_to_unanchored (t : Q) (g : Game) :
  next_beat_time (timing g) = None -> schedule_notes_up_to t g = g.
Proof. intro H. unfold schedule_notes_up_to. rewrite H. reflexivity. Qed.

Lemma ForallOrdPairs_app {A : Type} (R : A -> A -> Prop) (l1 l2 : list A) :
  ForallOrdPairs R l1 -> ForallOrdPairs R l2 ->
  (forall u v, In u l1 -> In v l2 -> R u v) ->
  ForallOrdPairs R (l1 ++ l2).
Proof.
  induction 1 as [|u l1 Hu H1 IH]; intros H2 Hx; simpl; [exact H2|].
  constructor.
  - apply Forall_app. split; [exact Hu|].
    apply Forall_forall. intros v Hv. apply Hx; simpl; auto.
  - apply IH; [exact H2|]. intros; apply Hx; simpl; auto.
Qed.

Lemma schedule_notes_up_to_again (t : Q) (g : Game) :
  schedule_notes_up_to t (schedule_notes_up_to t g) = schedule_notes_up_to t g.
Proof.
  destruct (next_beat_time (timing g)) as [a|] eqn:Ha.
  - destruct (schedule_notes_up_to_facts t g a Ha) as (ks & F).
    set (g' := schedule_notes_up_to t g) in *.
    unfold schedule_notes_up_to at 1.
    rewrite (sc_anchor _ _ _ _ _ F), Ha.
    unfold schedule_fuel. cbn [schedule_loop].
    rewrite (sc_break _ _ _ _ _ F). reflexivity.
  - rewrite !(schedule_notes_up_to_unanchored t g Ha). reflexivity.
Qed.

(** C5. Scheduling is idempotent: a second call with the same [now]
    changes nothing; and over two successive calls, with any two values of
    [now] (non-decreasing ones in particular), the notes appended are those
    of distinct beats: no two of them share a target time, none has a
    target time that was already recorded as spawned, the second call only
    reaches beats beyond those the first one passed, and every beat
    materialised is recorded.  A call may append many notes at once
    (catch-up): [ks1] and [ks2] are of any length. *)
Theorem schedule_never_double_spawns :
  (forall t g,
     schedule_notes_up_to t (schedule_notes_up_to t g) = schedule_notes_up_to t g)
  /\ (forall t1 t2 g a,
        next_beat_time (timing g) = Some a -> no_double_spawn t1 t2 g a).
Proof.
  split; [exact schedule_notes_up_to_again|].
  intros t1 t2 g a Ha. unfold no_double_spawn.
  set (g1 := schedule_notes_up_to t1 g).
  set (g2 := schedule_notes_up_to t2 g1).
  destruct (schedule_notes_up_to_facts t1 g a Ha) as (ks1 & F1).
  fold g1 in F1.
  assert (Ha1 : next_beat_time (timing g1) = Some a).
  { rewrite (sc_anchor _ _ _ _ _ F1). exact Ha. }
  destruct (schedule_notes_up_to_facts t2 g1 a Ha1) as (ks2 & F2).
  fold g2 in F2.
  exists ks1, ks2. unfold beat_notes.
  assert (Fresh2 : forall k, In k ks2 ->
            ~ in_times (beat_time a k)
                (rev (map (beat_time a) ks1) ++ spawned_target_times (timing g))).
  { intros k Hk. rewrite <- (sc_set _ _ _ _ _ F1).
    exact (proj1 (Forall_forall _ _) (sc_fresh _ _ _ _ _ F2) k Hk). }
  repeat split.
  - exact (sc_notes _ _ _ _ _ F1).
  - rewrite (sc_notes _ _ _ _ _ F2), (sc_notes _ _ _ _ _ F1), map_app, app_assoc.
    reflexivity.
  - apply ForallOrdPairs_app.
    + exact (sc_distinct _ _ _ _ _ F1).
    + exact (sc_distinct _ _ _ _ _ F2).
    + intros u v Hu Hv E. apply (Fresh2 v Hv).
      apply in_times_app. left. exists (beat_time a u). split.
      * apply -> in_rev. apply in_map. exact Hu.
      * symmetry. exact E.
  - apply Forall_app. split; [exact (sc_fresh _ _ _ _ _ F1)|].
    apply Forall_forall. intros k Hk I. apply (Fresh2 k Hk).
    apply in_times_app. right. exact I.
  - eapply Forall_impl; [|exact (sc_range _ _ _ _ _ F2)]. simpl. intros; lia.
  - apply Forall_forall. intros k Hk.
    rewrite (sc_set _ _ _ _ _ F2), (sc_set _ _ _ _ _ F1).
    exists (beat_time a k). split; [|reflexivity].
    apply in_app_or in Hk.
    destruct Hk as [Hk|Hk].
    + apply in_or_app. right. apply in_or_app. left.
      apply -> in_rev. apply in_map. exact Hk.
    + apply in_or_app. left. apply -> in_rev. apply in_map. exact Hk.
Qed.

Lemma schedule_never_double_spawns_witness :
  next_beat_time (timing sample_started) = Some sample_anchor
  /\ no_double_spawn 1 3 sample_started sample_anchor.
Proof.
  split; [reflexivity|].
  apply (proj2 schedule_never_double_spawns). reflexivity.
Defined.

(** A catch-up burst: one call three seconds after the start appends the
    eight beats that are due, and calling again appends nothing. *)
Example schedule_catch_up :
  map (fun n => Qred (target_time n))
      (g_notes (schedule_notes_up_to 4 sample_started))
  = [13 # 5; 1177 # 395; 1327 # 395; 1477 # 395; 1627 # 395; 1777 # 395;
     1927 # 395; 2077 # 395]
  /\ length (g_notes (schedule_notes_up_to 4 (schedule_notes_up_to 4 sample_started)))
     = 8%nat.
Proof. vm_compute. split; reflexivity. Qed.

(** ** Entering the game scene *)

Lemma start_session_facts (clear_judge close_panel : bool) (g : Game) :
  exists t,
    (t = clock_reading g (clock_pos (world g))
     \/ t = clock_reading g (S (clock_pos (world g))))
    /\ session_reset g (start_session clear_judge close_panel g) t.
Proof.
  unfold start_session, reset_run, play_bgm_once, now_s, clock_reading.
  destruct clear_judge, close_panel, (has_bgm g) eqn:B; cbn; rewrite ?B; cbn;
    eexists; (split; [|constructor; reflexivity]); auto.
Qed.







(** ** Judgement *)

Lemma nearest_scan_spec (tnow : Q) (ns : list Note) :
  forall i best bdt b' dt',
    nearest_scan ns i tnow best bdt = (b', dt') ->
    dt' <= bdt
    /\ (forall m, In m ns -> live m = true -> dt' <= distance tnow m)
    /\ ((b' = best /\ dt' = bdt)
        \/ (exists j n, b' = Some (i + j)%nat /\ nth_error ns j = Some n
                        /\ live n = true /\ dt' = distance tnow n /\ dt' < bdt)).
Proof.
  induction ns as [|n rest IH]; intros i best bdt b' dt' H; cbn [nearest_scan] in H.
  - injection H as <- <-. split; [lra|]. split; [intros m []|left; auto].
  - destruct (dead n || hit n || dummy n) eqn:L.
    + destruct (IH _ _ _ _ _ H) as (A & B & C).
      split; [exact A|]. split.
      * intros m [<-|I] Lm; [unfold live in Lm; rewrite L in Lm; discriminate|auto].
      * destruct C as [C|(j & n' & Eb & En & Ln & Ed & Lt)]; [left; exact C|].
        right. exists (S j), n'. rewrite Eb. repeat split; auto; f_equal; lia.
    + fold (distance tnow n) in H.
      destruct (Qltb (distance tnow n) bdt) eqn:Lt0.
      * apply Qltb_true in Lt0.
        destruct (IH _ _ _ _ _ H) as (A & B & C).
        split; [lra|]. split.
        -- intros m [<-|I] Lm; auto.
        -- right. destruct C as [(-> & ->)|(j & n' & Eb & En & Ln & Ed & Lt)].
           ++ exists 0%nat, n. repeat split; auto.
              unfold live. rewrite L. reflexivity.
           ++ exists (S j), n'. rewrite Eb.
              repeat split; auto; try (f_equal; lia). lra.
      * apply Qltb_false in Lt0.
        destruct (IH _ _ _ _ _ H) as (A & B & C).
        split; [exact A|]. split.
        -- intros m [<-|I] Lm; [lra|auto].
        -- destruct C as [C|(j & n' & Eb & En & Ln & Ed & Lt)]; [left; exact C|].
           right. exists (S j), n'. rewrite Eb. repeat split; auto; f_equal; lia.
Qed.



(** The outcome of [hit_check], by the result of its candidate search. *)
Lemma hit_check_cases (g : Game) :
  let tnow := fst (now_s g) in
  let g' := hit_check g in
  timing g' = timing g /\ settings g' = settings g /\ scene g' = scene g /\
  match nearest_scan (g_notes g) 0 tnow None 1e9 with
  | (Some i, dt) =>
      if Judgement_eqb (compute_judgement (g_difficulty g) dt) MISS
      then g_notes g' = g_notes g /\ g_combo g' = 0%Z
           /\ g_misses g' = (g_misses g + 1)%Z
      else g_notes g' = remove_at i (g_notes g)
           /\ g_combo g' = (g_combo g + 1)%Z /\ g_misses g' = g_misses g
  | (None, _) =>
      g_notes g' = g_notes g /\ g_combo g' = 0%Z
      /\ g_misses g' = (g_misses g + 1)%Z
  end.
Proof.
  unfold hit_check, now_s. cbv beta iota zeta. cbn [fst].
  change (g_notes (on_world _ g)) with (g_notes g).
  change (g_difficulty (on_world _ g)) with (g_difficulty g).
  destruct (nearest_scan (g_notes g) 0 _ None 1e9) as [[i|] dt].
  - destruct (Judgement_eqb (compute_judgement (g_difficulty g) dt) MISS);
      cbn [negb].
    + match goal with |- context [hannya_on_miss ?h] =>
        destruct (hannya_on_miss_frame h) as (A & B & C & D & E & F & _);
        generalize dependent (hannya_on_miss h); intros g2 A B C D E F
      end.
      unfold g_notes, g_combo, g_misses in *. cbn in *.
      rewrite A, B, C, D, E, F. auto 10.
    + match goal with
      |- context [if ?c then trigger_random_gimmick_by_name ?v ?h else _] =>
        destruct c;
        [destruct (trigger_frame v h) as (A & B & C & D);
         generalize dependent (trigger_random_gimmick_by_name v h);
         intros g2 A B C D|]
      end.
      * unfold g_notes, g_combo, g_misses in *. cbn in *.
        rewrite A, B, C, D. cbn. auto 10.
      * cbn. auto 10.
  - match goal with |- context [hannya_on_miss ?h] =>
      destruct (hannya_on_miss_frame h) as (A & B & C & D & E & F & _);
      generalize dependent (hannya_on_miss h); intros g2 A B C D E F
    end.
    unfold g_notes, g_combo, g_misses in *. cbn in *.
    rewrite A, B, C, D, E, F. auto 10.
Qed.

Lemma judgement_MISS_dec (j : Judgement) :
  (Judgement_eqb j MISS = true <-> j = MISS).
Proof. destruct j; simpl; split; intro; congruence. Qed.



(** On the beat the hit is a PERFECT and the note is consumed. *)
Example hit_on_the_beat :
  g_notes (hit_check (sample_one_note 2600)) = []
  /\ g_combo (hit_check (sample_one_note 2600)) = 1%Z
  /\ judge_text (play (hit_check (sample_one_note 2600))) = Some PERFECT.
Proof. vm_compute. repeat split; reflexivity. Qed.

(** ** A badly timed hit *)

Lemma compute_judgement_Qeq (d : Difficulty) (dt dt' : Q) :
  dt == dt' -> compute_judgement d dt = compute_judgement d dt'.
Proof.
  intro E. unfold compute_judgement.
  destruct (Qle_bool dt (PERFECT_WINDOW * DIFF_WINDOW d)) eqn:A1;
  destruct (Qle_bool dt' (PERFECT_WINDOW * DIFF_WINDOW d)) eqn:B1;
  destruct (Qle_bool dt (GOOD_WINDOW * DIFF_WINDOW d)) eqn:A2;
  destruct (Qle_bool dt' (GOOD_WINDOW * DIFF_WINDOW d)) eqn:B2;
  destruct (Qle_bool dt (OK_WINDOW * DIFF_WINDOW d)) eqn:A3;
  destruct (Qle_bool dt' (OK_WINDOW * DIFF_WINDOW d)) eqn:B3;
  try reflexivity; exfalso;
  repeat match goal with
  | H : Qle_bool _ _ = true |- _ => apply Qle_bool_iff in H
  | H : Qle_bool _ _ = false |- _ => apply Qle_bool_false in H
  end; lra.
Qed.

Lemma Note_update_late (d : Difficulty) (t : Q) (n : Note) :
  grace d < t - target_time n -> dead (Note_update d t n) = true.
Proof.
  intro H. unfold Note_update; cbn [dead].
  apply Qltb_true in H. rewrite H. reflexivity.
Qed.

Lemma notes_after_drops (fixed : option Q) (d : Difficulty) (clk : nat -> Z)
      (n : Note) (pending : list Note) :
  forall pos kept,
    In n pending -> pass_late fixed d clk pos n ->
    (length (notes_after fixed d clk pos pending kept)
     < length pending + length kept)%nat.
Proof.
  induction pending as [|n0 rest IH]; intros pos kept I L; [destruct I|].
  cbn [notes_after length].
  assert (Lnext : forall k, pass_late fixed d clk
                    (k + match fixed with Some _ => pos | None => S pos end) n).
  { intro k. unfold pass_late in *. destruct fixed; [exact L|].
    intros i Hi. apply L. lia. }
  destruct I as [->|I].
  - rewrite Note_update_late.
    + pose proof (notes_after_length fixed d clk rest
                    (S match fixed with Some _ => pos | None => S pos end) kept).
      lia.
    + unfold pass_late in L. destruct fixed; [exact L|]. apply L. lia.
  - destruct (dead (Note_update d _ n0)).
    + specialize (IH _ kept I (Lnext 1%nat)). cbn [Nat.add] in IH. lia.
    + specialize (IH _ (Note_update d
                          match fixed with
                          | Some t => t
                          | None => inject_Z (clk pos) / 1000.0
                          end n0 :: kept) I (Lnext 0%nat)).
      cbn [Nat.add length] in IH. lia.
Qed.

(** C10. When a hit is classified MISS against the nearest live non-decoy
    note, that note is not removed: the active list is unchanged and the
    miss counter grows by one.  When an update pass later reaches the note
    after its grace period, the note is removed then and counts a second
    miss: the counter is at least two above its value before the hit. *)
Theorem bad_hit_counts_twice (g : Game) (n : Note) (fixed : option Q) :
  let tnow := fst (now_s g) in
  let d := g_difficulty g in
  let g1 := hit_check g in
  let g2 := update_notes fixed g1 in
  In n (g_notes g) -> live n = true ->
  (forall m, In m (g_notes g) -> live m = true ->
             distance tnow n <= distance tnow m) ->
  compute_judgement d (distance tnow n) = MISS ->
  (g_notes g1 = g_notes g /\ g_misses g1 = (g_misses g + 1)%Z)
  /\ (pass_late fixed d (clock_ms (world g1)) (clock_pos (world g1)) n ->
      (length (g_notes g2) < length (g_notes g))%nat
      /\ (g_misses g + 2 <= g_misses g2)%Z).
Proof.
  intros tnow d g1 g2 In_n Ln Hmin Hj.
  assert (Stay : g_notes g1 = g_notes g /\ g_misses g1 = (g_misses g + 1)%Z
                 /\ settings g1 = settings g).
  { destruct (hit_check_cases g) as (_ & Se & _ & H). fold tnow g1 d in H.
    fold g1 in Se.
    destruct (nearest_scan (g_notes g) 0 tnow None 1e9) as [b dt] eqn:Sc.
    destruct (nearest_scan_spec _ _ _ _ _ _ _ Sc) as (_ & Hmin' & Hsel).
    destruct Hsel as [(-> & ->) | (j & n' & -> & En & Ln' & -> & _)].
    - tauto.
    - assert (E : distance tnow n' == distance tnow n).
      { apply Qle_antisym; [apply Hmin'; assumption|].
        apply Hmin; [eapply nth_error_In; eauto | exact Ln']. }
      rewrite (compute_judgement_Qeq d _ _ E), Hj in H. simpl in H. tauto. }
  destruct Stay as (Sn & Sm & Ss).
  split; [split; assumption|].
  intro Late. unfold g2, update_notes.
  rewrite update_notes_loop_misses, update_notes_loop_notes.
  assert (Ed : g_difficulty g1 = d) by (unfold g_difficulty, d; rewrite Ss; reflexivity).
  rewrite Ed.
  pose proof (notes_after_drops fixed d (clock_ms (world g1)) n (g_notes g1)
                (clock_pos (world g1)) []) as Drop.
  rewrite Sn in *. specialize (Drop In_n Late). cbn [length] in *.
  split; lia.
Qed.

Lemma bad_hit_counts_twice_witness :
  (g_notes (hit_check (sample_one_note 1500)) = g_notes (sample_one_note 1500)
   /\ g_misses (hit_check (sample_one_note 1500))
      = (g_misses (sample_one_note 1500) + 1)%Z)
  /\ (length (g_notes (update_notes (Some 3%Q) (hit_check (sample_one_note 1500))))
      < length (g_notes (sample_one_note 1500)))%nat
  /\ (g_misses (sample_one_note 1500) + 2
      <= g_misses (update_notes (Some 3%Q) (hit_check (sample_one_note 1500))))%Z.
Proof.
  destruct (bad_hit_counts_twice (sample_one_note 1500)
              (Note_init (beat_time sample_anchor 0) LANE_X false) (Some 3%Q))
    as (A & B).
  - left. reflexivity.
  - reflexivity.
  - intros m [<-|[]] _. apply Qle_refl.
  - reflexivity.
  - split; [exact A|]. apply B. reflexivity.
Defined.

(** One note, hit half a second early and then left to expire: two misses. *)
Example one_note_two_misses :
  g_misses (sample_one_note 1500) = 0%Z
  /\ length (g_notes (hit_check (sample_one_note 1500))) = 1%nat
  /\ g_misses (hit_check (sample_one_note 1500)) = 1%Z
  /\ g_notes (update_notes (Some 3%Q) (hit_check (sample_one_note 1500))) = []
  /\ g_misses (update_notes (Some 3%Q) (hit_check (sample_one_note 1500))) = 2%Z.
Proof. vm_compute. repeat split; reflexivity. Qed.

(** ** What a pass of the loop keeps *)

Lemma log_ext_same (g g' : Game) :
  g_triggered_gimmicks g' = g_triggered_gimmicks g -> log_ext g g'.
Proof. intro H. exists []. rewrite app_nil_r. exact H. Qed.

Lemma log_ext_refl (g : Game) : log_ext g g.
Proof. apply log_ext_same. reflexivity. Qed.

Lemma log_ext_trans (g1 g2 g3 : Game) :
  log_ext g1 g2 -> log_ext g2 g3 -> log_ext g1 g3.
Proof.
  intros (l1 & H1) (l2 & H2). exists (l1 ++ l2).
  rewrite H2, H1, app_assoc. reflexivity.
Qed.

Lemma steady_refl (g : Game) : steady g g.
Proof. constructor; try reflexivity; try lia. apply log_ext_refl. Qed.

Lemma steady_trans (g1 g2 g3 : Game) : steady g1 g2 -> steady g2 g3 -> steady g1 g3.
Proof.
  intros [A1 B1 C1 D1] [A2 B2 C2 D2]. constructor.
  - congruence.
  - congruence.
  - lia.
  - eapply log_ext_trans; eauto.
Qed.

Lemma steady_fields (g g' : Game) :
  scene g' = scene g -> settings g' = settings g ->
  g_misses g' = g_misses g -> fx g' = fx g -> steady g g'.
Proof.
  intros A B C D. constructor; auto; [lia|].
  apply log_ext_same. unfold g_triggered_gimmicks. rewrite D. reflexivity.
Qed.

Lemma steady_log_fields (g g' : Game) :
  scene g' = scene g -> settings g' = settings g ->
  g_misses g' = g_misses g ->
  g_triggered_gimmicks g' = g_triggered_gimmicks g -> steady g g'.
Proof.
  intros A B C D. constructor; auto; [lia|]. apply log_ext_same. exact D.
Qed.

Lemma now_s_steady (g : Game) : steady g (snd (now_s g)).
Proof. apply steady_fields; reflexivity. Qed.

Lemma record_gimmick_log (k : EffectKind) (g : Game) : log_ext g (record_gimmick k g).
Proof.
  unfold record_gimmick.
  destruct (existsb _ _); [apply log_ext_refl|]. exists [k]. reflexivity.
Qed.

Lemma trigger_steady (c : Z) (g : Game) : steady g (trigger_random_gimmick_by_name c g).
Proof.
  destruct (trigger_frame c g) as (A & B & C & D).
  constructor; auto.
  - unfold g_misses. rewrite A. lia.
  - unfold trigger_random_gimmick_by_name, random_choice.
    destruct (nth _ gimmick_opts None) as [k|].
    + match goal with |- context [record_gimmick k ?h] =>
        pose proof (record_gimmick_log k h) as (l & E);
        generalize dependent (record_gimmick k h); intros g2 E
      end.
      exists l. unfold g_triggered_gimmicks in *. cbn in *. exact E.
    + apply log_ext_same. reflexivity.
Qed.

Lemma schedule_step_steady (t a : Q) (g g' : Game) :
  schedule_step t a g = Some g' -> steady g g'.
Proof.
  unfold schedule_step.
  destruct (Qle_bool _ t); [|discriminate].
  destruct (negb (existsb _ _)); intro H; injection H as <-.
  - match goal with
    |- context [if ?c then trigger_random_gimmick_by_name ?v ?h else _] =>
      destruct c; [pose proof (trigger_steady v h) as T;
                   generalize dependent (trigger_random_gimmick_by_name v h);
                   intros g2 T|]
    end.
    + destruct T as [A B C D]. constructor; cbn in *; auto.
    + apply steady_fields; reflexivity.
  - apply steady_fields; reflexivity.
Qed.

Lemma schedule_notes_up_to_steady (t : Q) (g : Game) :
  steady g (schedule_notes_up_to t g).
Proof.
  unfold schedule_notes_up_to.
  destruct (next_beat_time (timing g)) as [a|]; [|apply steady_refl].
  destruct (schedule_loop _ t a g) as [g'|] eqn:E; [|apply steady_refl].
  revert E. apply (schedule_loop_ind t a steady).
  - intros; apply steady_refl.
  - intros g0 g1 g2 Hs H. eapply steady_trans; [|exact H].
    eapply schedule_step_steady; eauto.
Qed.

Lemma hannya_on_miss_steady (g : Game) : steady g (hannya_on_miss g).
Proof.
  destruct (hannya_on_miss_frame g) as (_ & _ & M & _ & S & Sc & F & _).
  apply steady_fields; auto.
Qed.

Lemma register_auto_miss_steady (g : Game) : steady g (register_auto_miss g).
Proof.
  destruct (register_auto_miss_frame g) as (_ & _ & M & _ & S & Sc & F & _).
  constructor; auto; [lia|].
  apply log_ext_same. unfold g_triggered_gimmicks. rewrite F. reflexivity.
Qed.

Lemma update_notes_loop_steady (fixed : option Q) (pending : list Note) :
  forall kept g, steady g (update_notes_loop fixed pending kept g).
Proof.
  induction pending as [|n rest IH]; intros kept g; cbn [update_notes_loop].
  - apply steady_fields; reflexivity.
  - destruct fixed as [t|].
    + destruct (dead _); [|apply IH].
      eapply steady_trans; [apply register_auto_miss_steady | apply IH].
    + unfold now_s. cbv beta iota.
      destruct (dead _).
      * eapply steady_trans; [|apply IH].
        eapply steady_trans; [|apply register_auto_miss_steady].
        apply steady_fields; reflexivity.
      * eapply steady_trans; [|apply IH]. apply steady_fields; reflexivity.
Qed.

Lemma spawn_dummy_steady (fixed : option Q) (g : Game) : steady g (spawn_dummy fixed g).
Proof.
  unfold spawn_dummy, random_random, now_s.
  destruct (Qltb 0 _); [|apply steady_refl]. cbv beta iota.
  destruct (Qltb _ 0.03); [|apply steady_fields; reflexivity].
  destruct fixed; apply steady_fields; reflexivity.
Qed.

Lemma render_game_steady (g : Game) : steady g (render_game g).
Proof.
  unfold render_game, now_s. cbv beta iota zeta.
  eapply steady_trans; [|apply spawn_dummy_steady].
  eapply steady_trans; [|apply update_notes_loop_steady].
  match goal with |- steady g (on_fx _ ?h) =>
    apply (steady_trans g h); [|apply steady_log_fields; reflexivity] end.
  match goal with |- steady g (if _ then on_fx _ ?h else _) =>
    apply (steady_trans g h);
      [|destruct (Qltb 0 _); apply steady_log_fields; reflexivity] end.
  destruct (next_beat_time _).
  - eapply steady_trans; [|apply schedule_notes_up_to_steady].
    apply steady_fields; reflexivity.
  - apply steady_fields; reflexivity.
Qed.

Lemma hit_check_steady (g : Game) : steady g (hit_check g).
Proof.
  unfold hit_check, now_s. cbv beta iota zeta.
  destruct (nearest_scan _ 0 _ None 1e9) as [[i|] dt].
  - match goal with |- steady g (on_play _ (on_play _ ?h)) =>
      apply (steady_trans g h); [|apply steady_fields; reflexivity] end.
    destruct (negb (Judgement_eqb _ MISS)).
    + match goal with
      |- context [if ?c then trigger_random_gimmick_by_name ?v ?h else _] =>
        destruct c; [eapply steady_trans; [|apply trigger_steady]|]
      end; apply steady_fields; reflexivity.
    + eapply steady_trans; [|apply hannya_on_miss_steady].
      constructor; try reflexivity; [|apply log_ext_same; reflexivity].
      unfold g_misses; cbn. lia.
  - eapply steady_trans; [|apply hannya_on_miss_steady].
    constructor; try reflexivity; [|apply log_ext_same; reflexivity].
    unfold g_misses; cbn. lia.
Qed.

(** The part of a pass before the miss-limit test keeps the settings and
    never lowers the miss counter; only the end of the track changes the
    scene there. *)
Lemma active_update_keeps (g : Game) :
  settings (active_update g) = settings g
  /\ (g_misses g <= g_misses (active_update g))%Z
  /\ log_ext g (active_update g).
Proof.
  unfold active_update.
  set (g1 := match next_beat_time (timing g) with
             | Some _ => let '(t, g0) := now_s g in schedule_notes_up_to t g0
             | None => g
             end).
  assert (S1 : steady g g1).
  { unfold g1. destruct (next_beat_time (timing g)); [|apply steady_refl].
    unfold now_s. eapply steady_trans; [|apply schedule_notes_up_to_steady].
    apply steady_fields; reflexivity. }
  assert (S3 : steady g (spawn_dummy None (update_notes None g1))).
  { eapply steady_trans; [exact S1|].
    eapply steady_trans; [apply update_notes_loop_steady|].
    apply spawn_dummy_steady. }
  generalize dependent (spawn_dummy None (update_notes None g1)).
  intros g3 [A B C D].
  assert (K : forall h, settings h = settings g3 -> g_misses h = g_misses g3 ->
                g_triggered_gimmicks h = g_triggered_gimmicks g3 ->
                settings h = settings g /\ (g_misses g <= g_misses h)%Z
                /\ log_ext g h).
  { intros h H1 H2 H3. split; [congruence|]. split; [lia|].
    destruct D as (l & E). exists l. congruence. }
  destruct (bgm_length g3) as [len|]; [|apply K; reflexivity].
  destruct (start_time_s (timing g3)) as [st|]; [|apply K; reflexivity].
  destruct (truthy (Some len) && truthy (Some st)); [|apply K; reflexivity].
  unfold now_s. cbv beta iota.
  destruct (Qltb _ _); apply K; reflexivity.
Qed.

(** ** Events *)

Lemma quiet_refl (g : Game) : quiet g g.
Proof. constructor; auto. Qed.

(** Every event is a hit in the game scene, the start of a session from
    another scene, or quiet. *)
Lemma handle_event_cases (g : Game) (ev : Event) :
  (scene g = SCENE_GAME /\ handle_event g ev = hit_check g)
  \/ (scene g <> SCENE_GAME
      /\ exists clear_judge close_panel,
           handle_event g ev = start_session clear_judge close_panel g)
  \/ quiet g (handle_event g ev).
Proof.
  assert (Q : forall h, play h = play g -> timing h = timing g -> fx h = fx g ->
                scene h = scene g
                \/ (scene g <> SCENE_GAME
                    /\ (scene h = SCENE_START \/ scene h = SCENE_SETTINGS)) ->
                quiet g h) by (intros; constructor; assumption).
  assert (St : forall cj cp, scene g <> SCENE_GAME ->
                 scene g <> SCENE_GAME
                 /\ exists clear_judge close_panel,
                      start_session cj cp g = start_session clear_judge close_panel g)
    by (intros; split; eauto).
  destruct ev as [|button mx my|k|]; cbn [handle_event].
  - right; right. apply Q; auto.
  - destruct (button =? 1)%Z; [|right; right; apply quiet_refl].
    unfold on_mouse.
    destruct (scene g) eqn:Sc; cbv zeta.
    + destruct (collidepoint _ mx my);
        [right; left; apply St; congruence|].
      destruct (collidepoint _ mx my);
        [right; right; apply Q; cbn; auto; right; (split; [congruence|auto])|].
      destruct (collidepoint _ mx my); right; right; apply Q; cbn; auto.
    + destruct (collidepoint _ mx my);
        [right; right; apply Q; cbn; auto; right; (split; [congruence|auto])|].
      destruct (collidepoint _ mx my); right; right; apply Q; cbn; auto.
    + destruct (collidepoint _ mx my); [left; auto|right; right; apply Q; auto].
    + destruct restart_rects as [[r1 r2] r3].
      destruct (collidepoint r1 mx my);
        [right; left; apply St; congruence|].
      destruct (collidepoint r2 mx my);
        [right; right; apply Q; cbn; auto; right; (split; [congruence|auto])|].
      destruct (collidepoint r3 mx my);
        right; right; apply Q; cbn; auto; right; (split; [congruence|auto]).
    + destruct restart_rects as [[r1 r2] r3].
      destruct (collidepoint r1 mx my);
        [right; left; apply St; congruence|].
      destruct (collidepoint r2 mx my);
        [right; right; apply Q; cbn; auto; right; (split; [congruence|auto])|].
      destruct (collidepoint r3 mx my);
        right; right; apply Q; cbn; auto; right; (split; [congruence|auto]).
  - unfold on_key. destruct (scene g) eqn:Sc.
    + destruct k;
        try (right; left; apply St; congruence);
        right; right; apply Q; cbn; auto; right; (split; [congruence|auto]).
    + destruct k; try destruct (g_difficulty g);
        right; right; apply Q; cbn; auto; right; (split; [congruence|auto]).
    + destruct k; try (left; auto; fail); right; right; apply Q; auto.
    + destruct k;
        try (right; left; apply St; congruence);
        right; right; apply Q; cbn; auto; right; (split; [congruence|auto]).
    + destruct k;
        try (right; left; apply St; congruence);
        right; right; apply Q; cbn; auto; right; (split; [congruence|auto]).
  - right; right. apply quiet_refl.
Qed.

Lemma main_loop_body_dispatch (tick_ms : Z) (events : list Event) (g : Game) :
  main_loop_body tick_ms events g
  = match scene (after_events tick_ms events g) with
    | SCENE_GAME => game_scene_step (after_events tick_ms events g)
    | _ => after_events tick_ms events g
    end.
Proof. reflexivity. Qed.

Lemma tick_timers_frame (dt : Q) (g : Game) :
  play (tick_timers dt g) = play g /\ timing (tick_timers dt g) = timing g
  /\ scene (tick_timers dt g) = scene g
  /\ settings (tick_timers dt g) = settings g
  /\ g_triggered_gimmicks (tick_timers dt g) = g_triggered_gimmicks g.
Proof. unfold tick_timers. destruct (Qltb 0 _); cbn; auto. Qed.

Lemma in_prep_frame (g : Game) :
  play (snd (in_prep g)) = play g /\ timing (snd (in_prep g)) = timing g
  /\ scene (snd (in_prep g)) = scene g /\ settings (snd (in_prep g)) = settings g
  /\ fx (snd (in_prep g)) = fx g.
Proof.
  unfold in_prep. destruct (prep_end_time (timing g)); [|auto].
  destruct (truthy _); cbn; auto.
Qed.

Lemma game_scene_step_prep (g : Game) :
  fst (in_prep g) = true -> game_scene_step g = render_game (snd (in_prep g)).
Proof.
  intro H. unfold game_scene_step.
  destruct (in_prep g) as [p g1]. cbn in H. subst p. reflexivity.
Qed.

Lemma game_scene_step_active (g : Game) :
  fst (in_prep g) = false ->
  game_scene_step g = miss_limit_check (active_update (snd (in_prep g))).
Proof.
  intro H. unfold game_scene_step.
  destruct (in_prep g) as [p g1]. cbn in H. subst p. reflexivity.
Qed.

(** ** Decoy expiry (C1) *)

(** C1, at the failing input: the pass removes the expired decoy, and its
    expiry is not silent: combo is reset and the miss counter grows, though
    no real note was missed (the five real notes the pass schedules are all
    still due). *)
Theorem decoy_expiry_counts_a_miss :
  scene decoy_input = SCENE_GAME
  /\ fst (in_prep decoy_input) = false
  /\ map dummy (g_notes decoy_input) = [true]
  /\ g_combo decoy_input = 3%Z /\ g_misses decoy_input = 0%Z
  /\ map dummy (g_notes (main_loop_body 16 [] decoy_input))
     = [false; false; false; false; false]
  /\ g_combo (main_loop_body 16 [] decoy_input) = 0%Z
  /\ g_misses (main_loop_body 16 [] decoy_input) = 1%Z.
Proof. vm_compute. repeat split; reflexivity. Qed.

(** ** The prep countdown (C2) *)

(** C2 fails: in the prep countdown a pass without any input spawns notes,
    and a hit input is judged (here a miss is counted). *)
Lemma prep_does_not_block :
  scene prep_input = SCENE_GAME
  /\ fst (in_prep prep_input) = true
  /\ g_notes prep_input = [] /\ g_misses prep_input = 0%Z
  /\ length (g_notes (main_loop_body 16 [] prep_input)) = 2%nat
  /\ fst (in_prep (main_loop_body 16 [] prep_input)) = true
  /\ g_misses (main_loop_body 16 [KEYDOWN K_SPACE] prep_input) = 1%Z.
Proof. vm_compute. repeat split; reflexivity. Qed.

Lemma hit_check_changes (g : Game) :
  (g_combo (hit_check g) = (g_combo g + 1)%Z /\ g_misses (hit_check g) = g_misses g)
  \/ (g_combo (hit_check g) = 0%Z /\ g_misses (hit_check g) = (g_misses g + 1)%Z).
Proof.
  destruct (hit_check_cases g) as (_ & _ & _ & H).
  destruct (nearest_scan _ _ _ _ _) as [[i|] dt].
  - destruct (Judgement_eqb _ MISS); tauto.
  - tauto.
Qed.

(** C2, amended.  While the session is in its prep countdown the pass
    skips its own scheduling, expiry and miss-limit steps and only renders,
    so the scene stays the game scene; hit input is not gated by the
    countdown: the space key and a click on the mokugyo run [hit_check],
    which either raises combo by one or resets it and counts a miss. *)
Theorem prep_keeps_judging (g : Game) :
  scene g = SCENE_GAME -> fst (in_prep g) = true ->
  game_scene_step g = render_game (snd (in_prep g))
  /\ scene (game_scene_step g) = SCENE_GAME
  /\ handle_event g (KEYDOWN K_SPACE) = hit_check g
  /\ (forall mx my, collidepoint mok_rect mx my = true ->
        handle_event g (MOUSEBUTTONDOWN 1 mx my) = hit_check g)
  /\ ((g_combo (hit_check g) = (g_combo g + 1)%Z
       /\ g_misses (hit_check g) = g_misses g)
      \/ (g_combo (hit_check g) = 0%Z
          /\ g_misses (hit_check g) = (g_misses g + 1)%Z)).
Proof.
  intros Sc Prep.
  split; [apply game_scene_step_prep; exact Prep|].
  split.
  - rewrite (game_scene_step_prep g Prep).
    rewrite (st_scene _ _ (render_game_steady _)).
    destruct (in_prep_frame g) as (_ & _ & S & _). congruence.
  - split; [unfold handle_event, on_key; rewrite Sc; reflexivity|].
    split; [|apply hit_check_changes].
    intros mx my H. unfold handle_event, on_mouse. rewrite Sc.
    cbv zeta. fold mok_rect. rewrite H. reflexivity.
Qed.

Lemma prep_keeps_judging_witness :
  game_scene_step prep_input = render_game (snd (in_prep prep_input))
  /\ scene (game_scene_step prep_input) = SCENE_GAME
  /\ handle_event prep_input (KEYDOWN K_SPACE) = hit_check prep_input
  /\ handle_event prep_input (MOUSEBUTTONDOWN 1 150 600) = hit_check prep_input
  /\ ((g_combo (hit_check prep_input) = (g_combo prep_input + 1)%Z
       /\ g_misses (hit_check prep_input) = g_misses prep_input)
      \/ (g_combo (hit_check prep_input) = 0%Z
          /\ g_misses (hit_check prep_input) = (g_misses prep_input + 1)%Z)).
Proof.
  destruct (prep_keeps_judging prep_input) as (A & B & C & D & E);
    [reflexivity | reflexivity |].
  split; [exact A|]. split; [exact B|]. split; [exact C|].
  split; [apply D; reflexivity | exact E].
Defined.

(** ** The miss limit (C7) *)

(** C7 fails: two hit inputs arrive in one pass.  The first one brings the
    counter to the limit of 6 and the scene stays the game scene; the
    second one is still judged and counted (7), and the pass goes on to
    schedule five notes before it ends the session. *)
Lemma miss_limit_not_on_the_event :
  scene five_misses_input = SCENE_GAME
  /\ fst (in_prep five_misses_input) = false
  /\ MISS_LIMIT_MAP (g_difficulty five_misses_input) = 6%Z
  /\ g_misses (handle_event five_misses_input (KEYDOWN K_SPACE)) = 6%Z
  /\ scene (handle_event five_misses_input (KEYDOWN K_SPACE)) = SCENE_GAME
  /\ g_misses (main_loop_body 16 [KEYDOWN K_SPACE; KEYDOWN K_SPACE]
                 five_misses_input) = 7%Z
  /\ length (g_notes five_misses_input) = 0%nat
  /\ length (g_notes (main_loop_body 16 [KEYDOWN K_SPACE; KEYDOWN K_SPACE]
                        five_misses_input)) = 5%nat
  /\ scene (main_loop_body 16 [KEYDOWN K_SPACE; KEYDOWN K_SPACE]
              five_misses_input) = SCENE_GAMEOVER.
Proof. vm_compute. repeat split; reflexivity. Qed.

Lemma quiet_not_gameover (g h : Game) :
  quiet g h -> scene h = SCENE_GAMEOVER -> scene g = SCENE_GAMEOVER.
Proof.
  intros [_ _ _ [E | (_ & [E | E])]] H; congruence.
Qed.

(** No event handler enters the game-over scene; one that stays in it
    changes neither the run state nor the timing. *)
Lemma handle_event_gameover (g : Game) (ev : Event) :
  scene (handle_event g ev) = SCENE_GAMEOVER ->
  scene g = SCENE_GAMEOVER
  /\ play (handle_event g ev) = play g
  /\ timing (handle_event g ev) = timing g.
Proof.
  intro H.
  destruct (handle_event_cases g ev) as [(Sc & E) | [(Sc & cj & cp & E) | Q]].
  - rewrite E in H. rewrite (st_scene _ _ (hit_check_steady g)) in H. congruence.
  - rewrite E in H.
    destruct (start_session_facts cj cp g) as (t & _ & R).
    rewrite (sr_scene _ _ _ R) in H. discriminate.
  - split; [eapply quiet_not_gameover; eauto|].
    split; [exact (q_play _ _ Q) | exact (q_timing _ _ Q)].
Qed.

Lemma fold_events_gameover (evs : list Event) :
  forall g,
    scene (fold_left handle_event evs g) = SCENE_GAMEOVER ->
    scene g = SCENE_GAMEOVER
    /\ play (fold_left handle_event evs g) = play g
    /\ timing (fold_left handle_event evs g) = timing g.
Proof.
  induction evs as [|ev evs IH]; intros g H; cbn [fold_left] in *; [auto|].
  destruct (IH _ H) as (Sc & P & T).
  destruct (handle_event_gameover g ev Sc) as (Sc0 & P0 & T0).
  split; [exact Sc0|]. split; congruence.
Qed.

(** C7, amended.  The miss limit is tested once per pass, after the
    pass's input, scheduling and expiry: outside the prep countdown, a pass
    whose miss counter is at or above the limit when the game scene is
    dispatched ends in the game-over scene in that same pass.  Once the
    game-over scene is on and as long as the events leave it on, a pass
    changes neither the notes, combo and miss counter nor the spawn
    bookkeeping. *)
Theorem miss_limit_ends_the_pass :
  (forall tick_ms events g,
     let g1 := after_events tick_ms events g in
     scene g1 = SCENE_GAME -> fst (in_prep g1) = false ->
     (MISS_LIMIT_MAP (g_difficulty g1) <= g_misses g1)%Z ->
     scene (main_loop_body tick_ms events g) = SCENE_GAMEOVER)
  /\ (forall tick_ms events g,
        scene (fold_left handle_event events (snd (now_s g))) = SCENE_GAMEOVER ->
        scene g = SCENE_GAMEOVER
        /\ scene (main_loop_body tick_ms events g) = SCENE_GAMEOVER
        /\ play (main_loop_body tick_ms events g) = play g
        /\ timing (main_loop_body tick_ms events g) = timing g).
Proof.
  split.
  - intros tick_ms events g g1 Sc Prep Lim.
    rewrite main_loop_body_dispatch. fold g1. rewrite Sc.
    rewrite (game_scene_step_active g1 Prep).
    destruct (in_prep_frame g1) as (P & _ & _ & Se & _).
    destruct (active_update_keeps (snd (in_prep g1))) as (Se2 & M & _).
    unfold miss_limit_check.
    assert (D : g_difficulty (active_update (snd (in_prep g1))) = g_difficulty g1).
    { unfold g_difficulty. rewrite Se2, Se. reflexivity. }
    assert (M1 : g_misses (snd (in_prep g1)) = g_misses g1).
    { unfold g_misses. rewrite P. reflexivity. }
    rewrite D.
    destruct (Z.leb_spec (MISS_LIMIT_MAP (g_difficulty g1))
                (g_misses (active_update (snd (in_prep g1))))) as [L|L];
      [reflexivity | lia].
  - intros tick_ms events g H.
    destruct (fold_events_gameover _ _ H) as (Sc & P & T).
    destruct (tick_timers_frame (inject_Z tick_ms / 1000.0)
                (fold_left handle_event events (snd (now_s g))))
      as (P2 & T2 & Sc2 & _).
    change (play (snd (now_s g))) with (play g) in P.
    change (timing (snd (now_s g))) with (timing g) in T.
    rewrite main_loop_body_dispatch. unfold after_events.
    rewrite Sc2, H. cbv iota. split; [exact Sc|]. split; [congruence|].
    split; congruence.
Qed.

Lemma miss_limit_ends_the_pass_witness :
  scene (main_loop_body 16 [KEYDOWN K_SPACE] five_misses_input) = SCENE_GAMEOVER
  /\ (scene (set_scene SCENE_GAMEOVER five_misses_input) = SCENE_GAMEOVER
      /\ scene (main_loop_body 16 [KEYDOWN K_SPACE]
                  (set_scene SCENE_GAMEOVER five_misses_input)) = SCENE_GAMEOVER
      /\ play (main_loop_body 16 [KEYDOWN K_SPACE]
                 (set_scene SCENE_GAMEOVER five_misses_input))
         = play (set_scene SCENE_GAMEOVER five_misses_input)
      /\ timing (main_loop_body 16 [KEYDOWN K_SPACE]
                   (set_scene SCENE_GAMEOVER five_misses_input))
         = timing (set_scene SCENE_GAMEOVER five_misses_input)).
Proof.
  split.
  - apply (proj1 miss_limit_ends_the_pass 16%Z [KEYDOWN K_SPACE] five_misses_input).
    + reflexivity.
    + reflexivity.
    + vm_compute. discriminate.
  - apply (proj2 miss_limit_ends_the_pass). reflexivity.
Defined.

(** ** Entering the game scene (C8) and the gimmick log (C9) *)

(** C8 fails: restarting from the game-over scene enters the game scene
    with the decoy rush still running. *)
Lemma restart_keeps_effects :
  scene (handle_event gameover_input (KEYDOWN K_RETURN)) = SCENE_GAME
  /\ ~ g_effects (handle_event gameover_input (KEYDOWN K_RETURN)) spawn_rush == 0.
Proof.
  split; [reflexivity|].
  vm_compute. discriminate.
Qed.

(** C8, amended.  Every handler that takes the program from another scene
    into the game scene empties the note list, zeroes combo, miss counter,
    beat index and spawn counter, empties the set of spawned target times
    and re-anchors the clock at a fresh reading [t] ([start_time = t],
    [prep_end_time = t + prep delay], beat anchor = [prep_end_time +
    offset]); it leaves the effect durations as they are. *)
Theorem entering_game_resets_run (g : Game) (ev : Event) :
  scene g <> SCENE_GAME ->
  scene (handle_event g ev) = SCENE_GAME ->
  exists t,
    (t = clock_reading g (clock_pos (world g))
     \/ t = clock_reading g (S (clock_pos (world g))))
    /\ session_reset g (handle_event g ev) t
    /\ g_effects (handle_event g ev) = g_effects g.
Proof.
  intros NotGame Enter.
  destruct (handle_event_cases g ev) as [(Sc & _) | [(_ & cj & cp & E) | Q]].
  - contradiction.
  - rewrite E. destruct (start_session_facts cj cp g) as (t & Ht & R).
    exists t. split; [exact Ht|]. split; [exact R|].
    unfold g_effects. rewrite (sr_fx _ _ _ R). reflexivity.
  - destruct Q as [_ _ _ [S | (_ & [S | S])]]; congruence.
Qed.

Lemma entering_game_resets_run_witness :
  exists t,
    (t = clock_reading gameover_input (clock_pos (world gameover_input))
     \/ t = clock_reading gameover_input (S (clock_pos (world gameover_input))))
    /\ session_reset gameover_input
         (handle_event gameover_input (KEYDOWN K_RETURN)) t
    /\ g_effects (handle_event gameover_input (KEYDOWN K_RETURN))
       = g_effects gameover_input.
Proof.
  apply (entering_game_resets_run gameover_input (KEYDOWN K_RETURN)).
  - discriminate.
  - reflexivity.
Defined.

(** C9 fails: the Title button of the game-over screen leads to the title
    screen with the log as it was. *)
Lemma title_keeps_gimmick_log :
  scene (handle_event gameover_input (MOUSEBUTTONDOWN 1 750 410)) = SCENE_START
  /\ g_triggered_gimmicks (handle_event gameover_input (MOUSEBUTTONDOWN 1 750 410))
     = [spawn_rush]
  /\ g_triggered_gimmicks (main_loop_body 16 [MOUSEBUTTONDOWN 1 750 410]
                             gameover_input)
     <> [].
Proof. vm_compute. repeat split; try reflexivity. discriminate. Qed.

Lemma handle_event_log (g : Game) (ev : Event) : log_ext g (handle_event g ev).
Proof.
  destruct (handle_event_cases g ev) as [(_ & E) | [(_ & cj & cp & E) | Q]].
  - rewrite E. exact (st_log _ _ (hit_check_steady g)).
  - rewrite E. destruct (start_session_facts cj cp g) as (t & _ & R).
    apply log_ext_same. unfold g_triggered_gimmicks.
    rewrite (sr_fx _ _ _ R). reflexivity.
  - apply log_ext_same. unfold g_triggered_gimmicks.
    rewrite (q_fx _ _ Q). reflexivity.
Qed.

Lemma fold_events_log (evs : list Event) :
  forall g, log_ext g (fold_left handle_event evs g).
Proof.
  induction evs as [|ev evs IH]; intro g; cbn [fold_left]; [apply log_ext_refl|].
  eapply log_ext_trans; [apply handle_event_log | apply IH].
Qed.

Lemma game_scene_step_log (g : Game) : log_ext g (game_scene_step g).
Proof.
  assert (P : log_ext g (snd (in_prep g))).
  { apply log_ext_same. unfold g_triggered_gimmicks.
    destruct (in_prep_frame g) as (_ & _ & _ & _ & F). rewrite F. reflexivity. }
  destruct (fst (in_prep g)) eqn:E.
  - rewrite (game_scene_step_prep g E).
    eapply log_ext_trans; [exact P|]. exact (st_log _ _ (render_game_steady _)).
  - rewrite (game_scene_step_active g E).
    eapply log_ext_trans; [exact P|].
    destruct (active_update_keeps (snd (in_prep g))) as (_ & _ & L).
    eapply log_ext_trans; [exact L|].
    unfold miss_limit_check. destruct (_ <=? _)%Z.
    + apply log_ext_same. reflexivity.
    + exact (st_log _ _ (render_game_steady _)).
Qed.

Lemma main_loop_body_log (tick_ms : Z) (events : list Event) (g : Game) :
  log_ext g (main_loop_body tick_ms events g).
Proof.
  assert (A : log_ext g (after_events tick_ms events g)).
  { unfold after_events.
    eapply log_ext_trans; [apply (fold_events_log events (snd (now_s g)))|].
    apply log_ext_same. apply tick_timers_frame. }
  rewrite main_loop_body_dispatch.
  destruct (scene (after_events tick_ms events g)); try exact A.
  eapply log_ext_trans; [exact A | apply game_scene_step_log].
Qed.

(** C9, amended.  The gimmick log is append-only: whatever a pass of the
    main loop does (play, restart, return to the title screen), the log
    after it is the log before it with entries added at the end, so it is
    never cleared, persists across restarts, and is kept on return to
    the title screen: an event that leads to the title screen leaves it as
    it was. *)
Theorem gimmick_log_append_only :
  (forall tick_ms events g,
     exists added,
       g_triggered_gimmicks (main_loop_body tick_ms events g)
       = g_triggered_gimmicks g ++ added)
  /\ (forall g ev,
        scene (handle_event g ev) = SCENE_START ->
        g_triggered_gimmicks (handle_event g ev) = g_triggered_gimmicks g).
Proof.
  split; [exact main_loop_body_log|].
  intros g ev H.
  destruct (handle_event_cases g ev) as [(Sc & E) | [(_ & cj & cp & E) | Q]].
  - rewrite E in H. rewrite (st_scene _ _ (hit_check_steady g)) in H. congruence.
  - rewrite E in H. destruct (start_session_facts cj cp g) as (t & _ & R).
    rewrite (sr_scene _ _ _ R) in H. discriminate.
  - unfold g_triggered_gimmicks. rewrite (q_fx _ _ Q). reflexivity.
Qed.

Lemma gimmick_log_append_only_witness :
  g_triggered_gimmicks (handle_event gameover_input (MOUSEBUTTONDOWN 1 750 410))
  = g_triggered_gimmicks gameover_input.
Proof.
  apply (proj2 gimmick_log_append_only gameover_input (MOUSEBUTTONDOWN 1 750 410)).
  reflexivity.
Defined.

(** * Further properties of the code *)

(** ** Judgement windows and the life of a note *)

Lemma window_positive (d : Difficulty) : 0 < DIFF_WINDOW d.
Proof. destruct d; reflexivity. Qed.

(** How [compute_judgement] orders time errors. *)
Lemma judgement_tiers_nested_facts (d : Difficulty) (dt1 dt2 : Q) :
  dt1 <= dt2 ->
  (judgement_rank (compute_judgement d dt1)
   <= judgement_rank (compute_judgement d dt2))%Z
  /\ (compute_judgement d dt1 = MISS <-> OK_WINDOW * DIFF_WINDOW d < dt1).
Proof.
  intro H. pose proof (window_positive d) as W.
  unfold compute_judgement, PERFECT_WINDOW, GOOD_WINDOW, OK_WINDOW in *.
  split.
  - destruct (Qle_bool dt1 (0.05 * DIFF_WINDOW d)) eqn:A1;
    destruct (Qle_bool dt1 (0.09 * DIFF_WINDOW d)) eqn:A2;
    destruct (Qle_bool dt1 (0.14 * DIFF_WINDOW d)) eqn:A3;
    destruct (Qle_bool dt2 (0.05 * DIFF_WINDOW d)) eqn:B1;
    destruct (Qle_bool dt2 (0.09 * DIFF_WINDOW d)) eqn:B2;
    destruct (Qle_bool dt2 (0.14 * DIFF_WINDOW d)) eqn:B3;
    cbn; try lia; exfalso;
    repeat match goal with
    | E : Qle_bool _ _ = true |- _ => apply Qle_bool_iff in E
    | E : Qle_bool _ _ = false |- _ => apply Qle_bool_false in E
    end; lra.
  - destruct (Qle_bool dt1 (0.05 * DIFF_WINDOW d)) eqn:A1;
    destruct (Qle_bool dt1 (0.09 * DIFF_WINDOW d)) eqn:A2;
    destruct (Qle_bool dt1 (0.14 * DIFF_WINDOW d)) eqn:A3;
    repeat match goal with
    | E : Qle_bool _ _ = true |- _ => apply Qle_bool_iff in E
    | E : Qle_bool _ _ = false |- _ => apply Qle_bool_false in E
    end;
    (split; [intro J; try discriminate; try lra | intro J; try reflexivity; exfalso; lra]).
Qed.

(** X1. The judgement tiers are nested: a smaller time error never gets a
    worse judgement, and a hit is a MISS exactly when its error exceeds
    [OK_WINDOW] scaled by the difficulty (the bound itself still counts). *)
Theorem judgement_tiers_nested (d : Difficulty) (dt1 dt2 : Q) :
  dt1 <= dt2 ->
  (judgement_rank (compute_judgement d dt1)
   <= judgement_rank (compute_judgement d dt2))%Z
  /\ (compute_judgement d dt1 = MISS <-> OK_WINDOW * DIFF_WINDOW d < dt1).
Proof. exact (judgement_tiers_nested_facts d dt1 dt2). Qed.

Lemma judgement_tiers_nested_witness :
  (judgement_rank (compute_judgement normal 0.06)
   <= judgement_rank (compute_judgement normal 0.1))%Z
  /\ (compute_judgement normal 0.06 = MISS <-> OK_WINDOW * DIFF_WINDOW normal < 0.06).
Proof.
  apply (judgement_tiers_nested normal 0.06 0.1).
  unfold Qle; simpl; lia.
Defined.

(** X2. A wider difficulty window never judges worse: for the same time
    error EASY is at least as good as NORMAL, and NORMAL as HARD. *)
Theorem easier_difficulty_judges_better (dt : Q) :
  (judgement_rank (compute_judgement easy dt)
   <= judgement_rank (compute_judgement normal dt))%Z
  /\ (judgement_rank (compute_judgement normal dt)
      <= judgement_rank (compute_judgement hard dt))%Z.
Proof.
  unfold compute_judgement, PERFECT_WINDOW, GOOD_WINDOW, OK_WINDOW, DIFF_WINDOW.
  split.
  - destruct (Qle_bool dt (0.05 * 1.4)) eqn:A1;
    destruct (Qle_bool dt (0.09 * 1.4)) eqn:A2;
    destruct (Qle_bool dt (0.14 * 1.4)) eqn:A3;
    destruct (Qle_bool dt (0.05 * 1.0)) eqn:B1;
    destruct (Qle_bool dt (0.09 * 1.0)) eqn:B2;
    destruct (Qle_bool dt (0.14 * 1.0)) eqn:B3;
    cbn; try lia; exfalso;
    repeat match goal with
    | E : Qle_bool _ _ = true |- _ => apply Qle_bool_iff in E
    | E : Qle_bool _ _ = false |- _ => apply Qle_bool_false in E
    end; lra.
  - destruct (Qle_bool dt (0.05 * 0.6)) eqn:A1;
    destruct (Qle_bool dt (0.09 * 0.6)) eqn:A2;
    destruct (Qle_bool dt (0.14 * 0.6)) eqn:A3;
    destruct (Qle_bool dt (0.05 * 1.0)) eqn:B1;
    destruct (Qle_bool dt (0.09 * 1.0)) eqn:B2;
    destruct (Qle_bool dt (0.14 * 1.0)) eqn:B3;
    cbn; try lia; exfalso;
    repeat match goal with
    | E : Qle_bool _ _ = true |- _ => apply Qle_bool_iff in E
    | E : Qle_bool _ _ = false |- _ => apply Qle_bool_false in E
    end; lra.
Qed.

(** X3. The grace period outlasts the judgement window: a note whose hit
    at time [t] would not be a MISS is not marked dead by an update at [t],
    and a note an update at [t] marks dead on time grounds can only be
    judged MISS at [t]. *)
Theorem hittable_note_is_not_expired (d : Difficulty) (t : Q) (n : Note) :
  (compute_judgement d (distance t n) <> MISS ->
   dead n = false -> dead (Note_update d t n) = false)
  /\ (grace d < t - target_time n ->
      compute_judgement d (distance t n) = MISS).
Proof.
  assert (K : grace d < t - target_time n ->
              compute_judgement d (distance t n) = MISS).
  { intro L.
    apply (proj2 (judgement_tiers_nested_facts d _ _ (Qle_refl _))).
    unfold grace in L. unfold distance, py_abs.
    pose proof (window_positive d) as W.
    unfold OK_WINDOW in *. qcases; lra. }
  split; [|exact K].
  intros NM D. unfold Note_update; cbn [dead]. rewrite D.
  destruct (Qltb (grace d) (t - target_time n)) eqn:E; [|reflexivity].
  apply Qltb_true in E. exfalso. apply NM. apply K. exact E.
Qed.

Lemma hittable_note_is_not_expired_witness :
  dead (Note_update normal 2.7 (Note_init 2.6 LANE_X false)) = false
  /\ compute_judgement normal (distance 3 (Note_init 2.6 LANE_X false)) = MISS.
Proof.
  split.
  - apply (proj1 (hittable_note_is_not_expired normal 2.7 (Note_init 2.6 LANE_X false))).
    + vm_compute. discriminate.
    + reflexivity.
  - apply (proj2 (hittable_note_is_not_expired normal 3 (Note_init 2.6 LANE_X false))).
    reflexivity.
Defined.

(** X4. [Note.update] only moves a note and may mark it dead: target and
    spawn time, lane and decoy flag are untouched, a dead note stays dead
    whatever the time of a later update, and updating twice at the same
    time is the same as updating once. *)
Theorem Note_update_stable (d : Difficulty) (t : Q) (n : Note) :
  target_time (Note_update d t n) = target_time n
  /\ spawn_time (Note_update d t n) = spawn_time n
  /\ dummy (Note_update d t n) = dummy n
  /\ hit (Note_update d t n) = hit n
  /\ (dead n = true -> dead (Note_update d t n) = true)
  /\ Note_update d t (Note_update d t n) = Note_update d t n.
Proof.
  repeat split.
  - intro D. unfold Note_update; cbn [dead]. rewrite D.
    destruct (Qltb _ _); reflexivity.
  - unfold Note_update; cbn.
    destruct (Qltb (grace d) (t - target_time n)); reflexivity.
Qed.

Lemma Note_update_stable_witness :
  dead (Note_update normal 1 (Note_update normal 3 (Note_init 2.6 LANE_X false)))
  = true.
Proof.
  destruct (Note_update_stable normal 1
              (Note_update normal 3 (Note_init 2.6 LANE_X false)))
    as (_ & _ & _ & _ & H & _).
  apply H. reflexivity.
Defined.

(** ** The expiry pass *)

Lemma notes_after_alive (fixed : option Q) (d : Difficulty) (clk : nat -> Z)
      (pending : list Note) :
  forall pos kept,
    Forall (fun n => dead n = false) kept ->
    Forall (fun n => dead n = false) (notes_after fixed d clk pos pending kept).
Proof.
  induction pending as [|n rest IH]; intros pos kept K; cbn [notes_after].
  - apply Forall_rev. exact K.
  - destruct (dead (Note_update d _ n)) eqn:E.
    + apply IH. exact K.
    + apply IH. constructor; assumption.
Qed.

Lemma update_notes_loop_combo (fixed : option Q) (pending : list Note) :
  forall kept g,
    let g' := update_notes_loop fixed pending kept g in
    (length (g_notes g') = (length pending + length kept)%nat ->
     g_combo g' = g_combo g)
    /\ ((length (g_notes g') < length pending + length kept)%nat ->
        g_combo g' = 0%Z).
Proof.
  induction pending as [|n rest IH]; intros kept g; cbn zeta.
  - cbn [update_notes_loop]. unfold g_notes, g_combo; cbn.
    rewrite length_rev. split; [reflexivity | lia].
  - assert (Len : forall h k,
              (length (g_notes (update_notes_loop fixed rest k h))
               <= length rest + length k)%nat).
    { intros h k. rewrite update_notes_loop_notes. apply notes_after_length. }
    cbn [update_notes_loop length].
    destruct fixed as [t|].
    + destruct (dead (Note_update (g_difficulty g) t n)).
      * destruct (IH kept (register_auto_miss g)) as (A & B).
        destruct (register_auto_miss_frame g) as (_ & C & _).
        specialize (Len (register_auto_miss g) kept).
        split; [lia|]. intros _.
        destruct (Nat.eq_dec
                    (length (g_notes (update_notes_loop (Some t) rest kept
                                        (register_auto_miss g))))
                    (length rest + length kept)) as [E|E].
        -- rewrite (A E). exact C.
        -- apply B. lia.
      * destruct (IH (Note_update (g_difficulty g) t n :: kept) g) as (A & B).
        cbn [length] in *. split; intro H; [apply A | apply B]; lia.
    + unfold now_s. cbv beta iota.
      match goal with |- context [on_world ?f g] => set (g0 := on_world f g) end.
      destruct (dead (Note_update (g_difficulty g0) _ n)).
      * destruct (IH kept (register_auto_miss g0)) as (A & B).
        destruct (register_auto_miss_frame g0) as (_ & C & _).
        specialize (Len (register_auto_miss g0) kept).
        split; [lia|]. intros _.
        destruct (Nat.eq_dec
                    (length (g_notes (update_notes_loop None rest kept
                                        (register_auto_miss g0))))
                    (length rest + length kept)) as [E|E].
        -- rewrite (A E). exact C.
        -- apply B. lia.
      * match goal with |- context [update_notes_loop None rest (?n' :: kept) g0] =>
          destruct (IH (n' :: kept) g0) as (A & B) end.
        cbn [length] in *. change (g_combo g0) with (g_combo g) in A.
        split; intro H; [apply A | apply B]; lia.
Qed.

(** X5. The accounting of an update-and-expire pass: it never adds a note,
    the notes it leaves are all alive, the miss counter grows by exactly the
    number of notes it removed, and combo is reset exactly when it removed
    one; scene and settings are untouched. *)
Theorem expiry_pass_accounting (fixed : option Q) (g : Game) :
  let g' := update_notes fixed g in
  (length (g_notes g') <= length (g_notes g))%nat
  /\ Forall (fun n => dead n = false) (g_notes g')
  /\ g_misses g'
     = (g_misses g + (Z.of_nat (length (g_notes g))
                      - Z.of_nat (length (g_notes g'))))%Z
  /\ (length (g_notes g') = length (g_notes g) -> g_combo g' = g_combo g)
  /\ ((length (g_notes g') < length (g_notes g))%nat -> g_combo g' = 0%Z)
  /\ scene g' = scene g /\ settings g' = settings g.
Proof.
  cbn zeta. unfold update_notes.
  pose proof (update_notes_loop_misses fixed (g_notes g) [] g) as M.
  pose proof (update_notes_loop_combo fixed (g_notes g) [] g) as C.
  pose proof (update_notes_loop_steady fixed (g_notes g) [] g) as S.
  cbn zeta in C. cbn [length] in *. rewrite Nat.add_0_r in *.
  split.
  - rewrite update_notes_loop_notes.
    pose proof (notes_after_length fixed (g_difficulty g) (clock_ms (world g))
                  (g_notes g) (clock_pos (world g)) []) as L.
    cbn [length] in L. lia.
  - split.
    + rewrite update_notes_loop_notes. apply notes_after_alive. constructor.
    + split; [rewrite M; lia|].
      split; [exact (proj1 C)|]. split; [exact (proj2 C)|].
      split; [exact (st_scene _ _ S) | exact (st_settings _ _ S)].
Qed.

Lemma expiry_pass_accounting_witness :
  g_combo (update_notes (Some 3%Q) (hit_check (sample_one_note 1500))) = 0%Z.
Proof.
  destruct (expiry_pass_accounting (Some 3%Q) (hit_check (sample_one_note 1500)))
    as (_ & _ & _ & _ & H & _).
  apply H. vm_compute. reflexivity.
Defined.

(** ** More on [hit_check] *)

Lemma filter_remove_at {A : Type} (f : A -> bool) (l : list A) :
  forall i a, nth_error l i = Some a -> f a = false ->
              filter f (remove_at i l) = filter f l.
Proof.
  unfold remove_at.
  induction l as [|b l IH]; intros [|i] a H F; cbn in *; try discriminate.
  - injection H as ->. rewrite F. reflexivity.
  - rewrite (IH i a H F). reflexivity.
Qed.

Lemma remove_at_length {A : Type} (l : list A) :
  forall i a, nth_error l i = Some a -> length l = S (length (remove_at i l)).
Proof.
  unfold remove_at.
  induction l as [|b l IH]; intros [|i] a H; cbn in *; try discriminate.
  - reflexivity.
  - rewrite (IH i a H). reflexivity.
Qed.

(** X6. [hit_check] never consumes a decoy: the decoys in the note list
    are the same, in the same order, before and after any hit input; what
    it removes, if anything, is one single note. *)
Theorem hit_check_spares_decoys (g : Game) :
  filter dummy (g_notes (hit_check g)) = filter dummy (g_notes g)
  /\ (g_notes (hit_check g) = g_notes g
      \/ length (g_notes g) = S (length (g_notes (hit_check g)))).
Proof.
  destruct (hit_check_cases g) as (_ & _ & _ & H).
  destruct (nearest_scan (g_notes g) 0 (fst (now_s g)) None 1e9) as [b dt] eqn:Sc.
  destruct (nearest_scan_spec _ _ _ _ _ _ _ Sc) as (_ & _ & Hsel).
  destruct Hsel as [(-> & ->) | (j & n & -> & En & Ln & -> & _)].
  - destruct H as (N & _). rewrite N. auto.
  - cbn [Nat.add] in H.
    destruct (Judgement_eqb _ MISS).
    + destruct H as (N & _). rewrite N. auto.
    + destruct H as (N & _). rewrite N. split.
      * apply (filter_remove_at dummy _ j n En).
        unfold live in Ln. destruct (dummy n); [|reflexivity].
        rewrite !orb_true_r in Ln. discriminate.
      * right. apply (remove_at_length _ j n En).
Qed.

(** X7. A hit that misses does the same bookkeeping as an automatic miss:
    after either, combo is 0, the miss counter is one higher, the specter
    is visible, it is hidden behind exactly when it already was or the new
    count is at least [HIDE_STEP] and below the miss limit, and the
    judgement shown is MISS. *)
Theorem miss_bookkeeping_agrees (g : Game) :
  let hidden := hannya_hidden_behind (play g)
                || ((HIDE_STEP <=? g_misses g + 1)%Z
                    && (g_misses g + 1 <? MISS_LIMIT_MAP (g_difficulty g))%Z) in
  (g_combo (register_auto_miss g) = 0%Z
   /\ g_misses (register_auto_miss g) = (g_misses g + 1)%Z
   /\ hannya_visible (play (register_auto_miss g)) = true
   /\ hannya_hidden_behind (play (register_auto_miss g)) = hidden
   /\ judge_text (play (register_auto_miss g)) = Some MISS)
  /\ (g_misses (hit_check g) = (g_misses g + 1)%Z ->
      g_combo (hit_check g) = 0%Z
      /\ hannya_visible (play (hit_check g)) = true
      /\ hannya_hidden_behind (play (hit_check g)) = hidden
      /\ judge_text (play (hit_check g)) = Some MISS).
Proof.
  cbn zeta.
  assert (Hm : forall h,
            hannya_visible (play (hannya_on_miss h)) = true
            /\ hannya_hidden_behind (play (hannya_on_miss h))
               = hannya_hidden_behind (play h)
                 || ((HIDE_STEP <=? g_misses h)%Z
                     && (g_misses h <? MISS_LIMIT_MAP (g_difficulty h))%Z)
            /\ judge_text (play (hannya_on_miss h)) = judge_text (play h)
            /\ judge_time_end (play (hannya_on_miss h)) = judge_time_end (play h)).
  { intro h. unfold hannya_on_miss.
    destruct (hannya_visible (play h)) eqn:V; cbn [negb];
      unfold g_misses, g_difficulty; cbn;
      destruct ((HIDE_STEP <=? misses (play h))%Z
                && (misses (play h) <? MISS_LIMIT_MAP (DIFFICULTY (settings h)))%Z);
      cbn; rewrite ?V, ?orb_true_r, ?orb_false_r; auto. }
  split.
  - destruct (register_auto_miss_frame g) as (_ & C & M & _).
    split; [exact C|]. split; [exact M|].
    unfold register_auto_miss, now_s. cbv beta iota zeta.
    match goal with |- context [hannya_on_miss ?h] =>
      destruct (Hm h) as (V & Hd & J & _) end.
    rewrite V, Hd, J. cbn. auto.
  - intro Miss.
    assert (Hc : g_combo (hit_check g) = 0%Z).
    { destruct (hit_check_changes g) as [(_ & E) | (E & _)]; [lia | exact E]. }
    split; [exact Hc|].
    revert Miss. unfold hit_check, now_s. cbv beta iota zeta.
    destruct (nearest_scan _ 0 _ None 1e9) as [[i|] dt].
    + destruct (negb (Judgement_eqb (compute_judgement _ dt) MISS)) eqn:J.
      * match goal with
        |- context [if ?c then trigger_random_gimmick_by_name ?v ?h else _] =>
          destruct c;
          [destruct (trigger_frame v h) as (A & _);
           generalize dependent (trigger_random_gimmick_by_name v h);
           intros g2 A|]
        end; unfold g_misses; cbn; rewrite ?A; cbn; intro Miss; lia.
      * apply negb_false_iff, judgement_MISS_dec in J.
        match goal with |- context [hannya_on_miss ?h] =>
          destruct (Hm h) as (V & Hd & _);
          generalize dependent (hannya_on_miss h); intros g2 V Hd end.
        rewrite J. cbn. intros _. rewrite V, Hd. cbn. auto.
    + match goal with |- context [hannya_on_miss ?h] =>
        destruct (Hm h) as (V & Hd & J & _);
        generalize dependent (hannya_on_miss h); intros g2 V Hd J end.
      intros _. rewrite V, Hd, J. cbn. auto.
Qed.

Lemma miss_bookkeeping_agrees_witness :
  g_combo (hit_check (sample_one_note 1500)) = 0%Z
  /\ hannya_visible (play (hit_check (sample_one_note 1500))) = true
  /\ hannya_hidden_behind (play (hit_check (sample_one_note 1500)))
     = hannya_hidden_behind (play (sample_one_note 1500))
       || ((HIDE_STEP <=? g_misses (sample_one_note 1500) + 1)%Z
           && (g_misses (sample_one_note 1500) + 1
               <? MISS_LIMIT_MAP (g_difficulty (sample_one_note 1500)))%Z)
  /\ judge_text (play (hit_check (sample_one_note 1500))) = Some MISS.
Proof.
  apply (proj2 (miss_bookkeeping_agrees (sample_one_note 1500))).
  reflexivity.
Defined.

(** ** Gimmicks and effect timers *)

Lemma EffectKind_eqb_eq (a b : EffectKind) : EffectKind_eqb a b = true <-> a = b.
Proof. destruct a, b; cbn; split; intro H; congruence. Qed.

Lemma log_member (k : EffectKind) (l : list EffectKind) :
  existsb (EffectKind_eqb k) l = true <-> In k l.
Proof.
  rewrite existsb_exists. split.
  - intros (k' & I & E). apply EffectKind_eqb_eq in E. subst. exact I.
  - intro I. exists k. split; [exact I | apply EffectKind_eqb_eq; reflexivity].
Qed.

(** What [record_gimmick] does to the log and the notification. *)
Lemma record_gimmick_once_facts (k : EffectKind) (g : Game) :
  In k (g_triggered_gimmicks (record_gimmick k g))
  /\ (NoDup (g_triggered_gimmicks g) ->
      NoDup (g_triggered_gimmicks (record_gimmick k g)))
  /\ (In k (g_triggered_gimmicks g) -> record_gimmick k g = g)
  /\ (~ In k (g_triggered_gimmicks g) ->
      g_triggered_gimmicks (record_gimmick k g) = g_triggered_gimmicks g ++ [k]
      /\ new_gimmick_timer (fx (record_gimmick k g)) = NEW_GIMMICK_DISPLAY_TIME)
  /\ record_gimmick k (record_gimmick k g) = record_gimmick k g.
Proof.
  assert (A : In k (g_triggered_gimmicks g) -> record_gimmick k g = g).
  { intro I. unfold record_gimmick.
    rewrite (proj2 (log_member k _) I). reflexivity. }
  assert (B : ~ In k (g_triggered_gimmicks g) ->
              g_triggered_gimmicks (record_gimmick k g)
              = g_triggered_gimmicks g ++ [k]
              /\ new_gimmick_timer (fx (record_gimmick k g))
                 = NEW_GIMMICK_DISPLAY_TIME).
  { intro NI. unfold record_gimmick.
    destruct (existsb _ _) eqn:E; [apply log_member in E; contradiction|].
    split; reflexivity. }
  assert (C : In k (g_triggered_gimmicks (record_gimmick k g))).
  { destruct (existsb (EffectKind_eqb k) (g_triggered_gimmicks g)) eqn:E.
    - apply log_member in E. rewrite (A E). exact E.
    - assert (NI : ~ In k (g_triggered_gimmicks g)).
      { intro I. apply log_member in I. congruence. }
      rewrite (proj1 (B NI)). apply in_or_app. right. left. reflexivity. }
  split; [exact C|]. split; [|split; [exact A|split; [exact B|]]].
  - intro ND. unfold record_gimmick.
    destruct (existsb _ _) eqn:E; [exact ND|].
    unfold g_triggered_gimmicks; cbn.
    apply NoDup_app; [exact ND | repeat constructor; intros [] | ].
    intros a Ia [Ea|[]]. subst a.
    assert (X : existsb (EffectKind_eqb k) (g_triggered_gimmicks g) = true)
      by (apply log_member; exact Ia).
    congruence.
  - unfold record_gimmick at 1.
    rewrite (proj2 (log_member k _) C). reflexivity.
Qed.

(** X8. [record_gimmick] keeps the log a duplicate-free list: the kind is
    in the log afterwards, a log without duplicates stays so, recording a
    kind already logged changes nothing (the notification is not armed
    again), and recording a new kind appends it and arms the notification
    for [NEW_GIMMICK_DISPLAY_TIME]. *)
Theorem record_gimmick_once (k : EffectKind) (g : Game) :
  In k (g_triggered_gimmicks (record_gimmick k g))
  /\ (NoDup (g_triggered_gimmicks g) ->
      NoDup (g_triggered_gimmicks (record_gimmick k g)))
  /\ (In k (g_triggered_gimmicks g) -> record_gimmick k g = g)
  /\ (~ In k (g_triggered_gimmicks g) ->
      g_triggered_gimmicks (record_gimmick k g) = g_triggered_gimmicks g ++ [k]
      /\ new_gimmick_timer (fx (record_gimmick k g)) = NEW_GIMMICK_DISPLAY_TIME)
  /\ record_gimmick k (record_gimmick k g) = record_gimmick k g.
Proof. exact (record_gimmick_once_facts k g). Qed.

Lemma record_gimmick_once_witness :
  record_gimmick spawn_rush gameover_input = gameover_input
  /\ g_triggered_gimmicks (record_gimmick flash gameover_input)
     = g_triggered_gimmicks gameover_input ++ [flash]
  /\ NoDup (g_triggered_gimmicks (record_gimmick flash gameover_input)).
Proof.
  destruct (record_gimmick_once spawn_rush gameover_input) as (_ & _ & A & _).
  destruct (record_gimmick_once flash gameover_input) as (_ & N & _ & B & _).
  split; [apply A; left; reflexivity|].
  split.
  - apply B. intros [H|[]]. discriminate H.
  - apply N. repeat constructor. intros [].
Defined.

Lemma miss_ratio_bounds (d : Difficulty) (m : Z) :
  (0 <= m)%Z ->
  0 <= inject_Z m / inject_Z (Z.max 1 (MISS_LIMIT_MAP d))
  /\ ((m <= MISS_LIMIT_MAP d)%Z ->
      inject_Z m / inject_Z (Z.max 1 (MISS_LIMIT_MAP d)) <= 1).
Proof.
  intro H.
  assert (P : 0 <= inject_Z m) by (rewrite Zle_Qle in H; exact H).
  destruct d; cbn [MISS_LIMIT_MAP].
  - assert (E : inject_Z m / inject_Z (Z.max 1 12) == inject_Z m * (1 # 12))
      by (change (inject_Z (Z.max 1 12)) with (12 # 1); field).
    rewrite E. split; [lra|]. intro L. rewrite Zle_Qle in L.
    change (inject_Z 12) with (12 # 1) in L. lra.
  - assert (E : inject_Z m / inject_Z (Z.max 1 6) == inject_Z m * (1 # 6))
      by (change (inject_Z (Z.max 1 6)) with (6 # 1); field).
    rewrite E. split; [lra|]. intro L. rewrite Zle_Qle in L.
    change (inject_Z 6) with (6 # 1) in L. lra.
  - assert (E : inject_Z m / inject_Z (Z.max 1 1) == inject_Z m)
      by (change (inject_Z (Z.max 1 1)) with (1 # 1); field).
    rewrite E. split; [lra|]. intro L. rewrite Zle_Qle in L.
    change (inject_Z 1) with (1 # 1) in L. lra.
Qed.

Lemma gimmick_base_positive (k : EffectKind) : 0 < gimmick_base k.
Proof. destruct k; reflexivity. Qed.

(** What one call of [trigger_random_gimmick_by_name] changes. *)
Lemma trigger_sets_one_effect_facts (c : Z) (g : Game) :
  rand_pos (world (trigger_random_gimmick_by_name c g)) = S (rand_pos (world g))
  /\ (forall c', trigger_random_gimmick_by_name c' g
                 = trigger_random_gimmick_by_name c g)
  /\ match fst (random_choice gimmick_opts None g) with
     | None =>
         trigger_random_gimmick_by_name c g
         = snd (random_choice gimmick_opts None g)
     | Some k =>
         let intensity :=
           1.0 + (inject_Z (g_misses g)
                  / inject_Z (Z.max 1 (MISS_LIMIT_MAP (g_difficulty g)))) * 1.5 in
         g_effects (trigger_random_gimmick_by_name c g) k
         = gimmick_base k * intensity
         /\ (forall k', k' <> k ->
               g_effects (trigger_random_gimmick_by_name c g) k' = g_effects g k')
         /\ In k (g_triggered_gimmicks (trigger_random_gimmick_by_name c g))
         /\ ((0 <= g_misses g)%Z -> gimmick_base k <= gimmick_base k * intensity)
         /\ ((0 <= g_misses g <= MISS_LIMIT_MAP (g_difficulty g))%Z ->
             gimmick_base k * intensity <= 2.5 * gimmick_base k)
     end.
Proof.
  split.
  { unfold trigger_random_gimmick_by_name, random_choice.
    destruct (nth _ gimmick_opts None) as [k|]; [|reflexivity].
    match goal with |- context [record_gimmick k ?h] =>
      destruct (record_gimmick_frame k h) as (_ & _ & _ & _ & W & _);
      generalize dependent (record_gimmick k h); intros g2 W end.
    cbn. rewrite W. reflexivity. }
  split; [reflexivity|].
  unfold trigger_random_gimmick_by_name, random_choice. cbn [fst snd].
  destruct (nth _ gimmick_opts None) as [k|]; [|reflexivity].
  cbv zeta.
  match goal with |- context [record_gimmick k ?h] =>
    pose proof (record_gimmick_frame k h) as (P & _ & S & _ & _ & E);
    pose proof (proj1 (record_gimmick_once_facts k h)) as I;
    generalize dependent (record_gimmick k h); intros g2 P S E I end.
  unfold g_effects, g_misses, g_difficulty, g_triggered_gimmicks in *.
  cbn in *. rewrite P, S, E.
  pose proof (gimmick_base_positive k) as B.
  split; [|split; [|split; [exact I|]]].
  - unfold effects_set.
    rewrite (proj2 (EffectKind_eqb_eq k k) eq_refl). reflexivity.
  - intros k' Ne. unfold effects_set.
    destruct (EffectKind_eqb k k') eqn:Q; [|reflexivity].
    apply EffectKind_eqb_eq in Q. congruence.
  - split.
    + intro M.
      destruct (miss_ratio_bounds (DIFFICULTY (settings g)) _ M) as (R & _).
      set (r := inject_Z (misses (play g))
                / inject_Z (Z.max 1 (MISS_LIMIT_MAP (DIFFICULTY (settings g))))) in *.
      nra.
    + intros (M & L).
      destruct (miss_ratio_bounds (DIFFICULTY (settings g)) _ M) as (R & R1).
      specialize (R1 L).
      set (r := inject_Z (misses (play g))
                / inject_Z (Z.max 1 (MISS_LIMIT_MAP (DIFFICULTY (settings g))))) in *.
      nra.
Qed.

(** X9. One gimmick trigger draws once from the generator and changes at
    most one effect.  On the no-op outcome nothing else changes.  Otherwise
    the kind drawn is logged and its duration is set to its base value
    times [1 + misses / max(1, miss limit) * 1.5], every other duration
    being kept; with a miss counter between 0 and the limit that is
    between the base value and two and a half times it.  The argument of
    the call plays no part. *)
Theorem trigger_sets_one_effect (c : Z) (g : Game) :
  rand_pos (world (trigger_random_gimmick_by_name c g)) = S (rand_pos (world g))
  /\ (forall c', trigger_random_gimmick_by_name c' g
                 = trigger_random_gimmick_by_name c g)
  /\ match fst (random_choice gimmick_opts None g) with
     | None =>
         trigger_random_gimmick_by_name c g
         = snd (random_choice gimmick_opts None g)
     | Some k =>
         let intensity :=
           1.0 + (inject_Z (g_misses g)
                  / inject_Z (Z.max 1 (MISS_LIMIT_MAP (g_difficulty g)))) * 1.5 in
         g_effects (trigger_random_gimmick_by_name c g) k
         = gimmick_base k * intensity
         /\ (forall k', k' <> k ->
               g_effects (trigger_random_gimmick_by_name c g) k' = g_effects g k')
         /\ In k (g_triggered_gimmicks (trigger_random_gimmick_by_name c g))
         /\ ((0 <= g_misses g)%Z -> gimmick_base k <= gimmick_base k * intensity)
         /\ ((0 <= g_misses g <= MISS_LIMIT_MAP (g_difficulty g))%Z ->
             gimmick_base k * intensity <= 2.5 * gimmick_base k)
     end.
Proof. exact (trigger_sets_one_effect_facts c g). Qed.

Lemma trigger_sets_one_effect_witness :
  gimmick_base spawn_rush
  <= g_effects (trigger_random_gimmick_by_name 0 rush_pick_input) spawn_rush
  /\ g_effects (trigger_random_gimmick_by_name 0 rush_pick_input) spawn_rush
     <= 2.5 * gimmick_base spawn_rush.
Proof.
  pose proof (trigger_sets_one_effect 0 rush_pick_input) as (_ & _ & H).
  change (fst (random_choice gimmick_opts None rush_pick_input))
    with (Some spawn_rush) in H.
  cbv iota zeta in H. destruct H as (E & _ & _ & L & U).
  rewrite E. split.
  - apply L. vm_compute. discriminate.
  - apply U. split; vm_compute; discriminate.
Defined.

(** What [tick_timers] does to each timer and what it leaves alone. *)
Lemma effect_timers_decay_facts (dt : Q) (g : Game) (k : EffectKind) :
  let e := g_effects g k in
  let e' := g_effects (tick_timers dt g) k in
  let n := new_gimmick_timer (fx g) in
  let n' := new_gimmick_timer (fx (tick_timers dt g)) in
  (e <= 0 -> e' = e)
  /\ (0 < e -> e <= dt -> e' == 0)
  /\ (0 < e -> dt < e -> e' == e - dt)
  /\ (0 <= e -> 0 <= e')
  /\ (0 <= dt -> e' <= e)
  /\ (n <= 0 -> n' = n)
  /\ (0 < n -> n <= dt -> n' == 0)
  /\ (0 < n -> dt < n -> n' == n - dt)
  /\ play (tick_timers dt g) = play g
  /\ timing (tick_timers dt g) = timing g
  /\ scene (tick_timers dt g) = scene g
  /\ settings (tick_timers dt g) = settings g
  /\ world (tick_timers dt g) = world g
  /\ g_triggered_gimmicks (tick_timers dt g) = g_triggered_gimmicks g.
Proof.
  cbn zeta.
  assert (E : g_effects (tick_timers dt g) k
              = if Qltb 0 (g_effects g k)
                then py_max 0.0 (g_effects g k - dt) else g_effects g k).
  { unfold tick_timers. destruct (Qltb 0 (new_gimmick_timer _)); reflexivity. }
  assert (N : new_gimmick_timer (fx (tick_timers dt g))
              = if Qltb 0 (new_gimmick_timer (fx g))
                then py_max 0.0 (new_gimmick_timer (fx g) - dt)
                else new_gimmick_timer (fx g)).
  { unfold tick_timers. cbn.
    destruct (Qltb 0 (new_gimmick_timer (fx g))); reflexivity. }
  rewrite E, N. unfold py_max.
  repeat split;
    try (unfold tick_timers; destruct (Qltb 0 (new_gimmick_timer _)); reflexivity);
    intros; qcases; try reflexivity; lra.
Qed.

(** X10. The per-frame decay of the effect timers and of the new-gimmick
    notification: a timer that is not positive is left as it is; a positive
    one loses the frame time and stops at zero; so a timer that is not
    negative never becomes negative and, for a frame time that is not
    negative, never grows.  Nothing but the timers is changed. *)
Theorem effect_timers_decay (dt : Q) (g : Game) (k : EffectKind) :
  let e := g_effects g k in
  let e' := g_effects (tick_timers dt g) k in
  let n := new_gimmick_timer (fx g) in
  let n' := new_gimmick_timer (fx (tick_timers dt g)) in
  (e <= 0 -> e' = e)
  /\ (0 < e -> e <= dt -> e' == 0)
  /\ (0 < e -> dt < e -> e' == e - dt)
  /\ (0 <= e -> 0 <= e')
  /\ (0 <= dt -> e' <= e)
  /\ (n <= 0 -> n' = n)
  /\ (0 < n -> n <= dt -> n' == 0)
  /\ (0 < n -> dt < n -> n' == n - dt)
  /\ play (tick_timers dt g) = play g
  /\ timing (tick_timers dt g) = timing g
  /\ scene (tick_timers dt g) = scene g
  /\ settings (tick_timers dt g) = settings g
  /\ world (tick_timers dt g) = world g
  /\ g_triggered_gimmicks (tick_timers dt g) = g_triggered_gimmicks g.
Proof. exact (effect_timers_decay_facts dt g k). Qed.

Lemma effect_timers_decay_witness :
  g_effects (tick_timers 7 gameover_input) spawn_rush == 0
  /\ g_effects (tick_timers 0.016 gameover_input) spawn_rush
     == g_effects gameover_input spawn_rush - 0.016
  /\ g_effects (tick_timers 7 gameover_input) flash
     = g_effects gameover_input flash.
Proof.
  destruct (effect_timers_decay 7 gameover_input spawn_rush) as (_ & A & _).
  destruct (effect_timers_decay 0.016 gameover_input spawn_rush) as (_ & _ & B & _).
  destruct (effect_timers_decay 7 gameover_input flash) as (C & _).
  split; [apply A; vm_compute; first [reflexivity | discriminate]|].
  split; [apply B; vm_compute; first [reflexivity | discriminate]|].
  apply C. vm_compute. discriminate.
Defined.

(** ** Invariants of a pass *)

Lemma evolves_refl (g : Game) : evolves g g.
Proof. constructor; auto. Qed.

Lemma evolves_trans (g1 g2 g3 : Game) : evolves g1 g2 -> evolves g2 g3 -> evolves g1 g3.
Proof.
  intros [A1 B1 C1 D1 E1 F1 G1 H1 I1] [A2 B2 C2 D2 E2 F2 G2 H2 I2].
  constructor; try congruence; try lia; auto.
Qed.

(** A step that leaves the run state, the timing and the effects alone. *)
Lemma evolves_state_kept (g g' : Game) :
  has_bgm g' = has_bgm g -> bgm_length g' = bgm_length g ->
  clock_ms (world g') = clock_ms (world g) ->
  rand_float (world g') = rand_float (world g) ->
  rand_pick (world g') = rand_pick (world g) ->
  (clock_pos (world g) <= clock_pos (world g'))%nat ->
  (rand_pos (world g) <= rand_pos (world g'))%nat ->
  g_notes g' = g_notes g -> g_combo g' = g_combo g -> g_misses g' = g_misses g ->
  timing g' = timing g ->
  g_effects g' = g_effects g ->
  new_gimmick_timer (fx g') = new_gimmick_timer (fx g) ->
  g_triggered_gimmicks g' = g_triggered_gimmicks g ->
  evolves g g'.
Proof.
  intros A B C D E F G N Co Mi T Ef Ti L.
  constructor; auto.
  - intros [S1 S2 S3 S4 S5 S6 S7]. constructor.
    + rewrite Co. exact S1.
    + rewrite Mi. exact S2.
    + rewrite T. exact S3.
    + rewrite T. exact S4.
    + intro k. rewrite Ef. apply S5.
    + rewrite Ti. exact S6.
    + rewrite L. exact S7.
  - intros [N1 N2 N3]. constructor; rewrite ?N, ?T; assumption.
Qed.

Ltac kept := apply evolves_state_kept; try reflexivity; cbn; try lia.

Lemma now_s_evolves (g : Game) : evolves g (snd (now_s g)).
Proof. kept. Qed.

Lemma hannya_on_miss_evolves (g : Game) : evolves g (hannya_on_miss g).
Proof.
  destruct (hannya_on_miss_frame g) as (N & C & M & T & _ & _ & F & W).
  assert (B : has_bgm (hannya_on_miss g) = has_bgm g
              /\ bgm_length (hannya_on_miss g) = bgm_length g).
  { unfold hannya_on_miss.
    destruct (negb _);
      match goal with |- context [if ?c then _ else _] => destruct c end;
      split; reflexivity. }
  apply evolves_state_kept; try tauto; rewrite ?W; try reflexivity; try lia;
    unfold g_effects, g_triggered_gimmicks; rewrite F; reflexivity.
Qed.

Lemma miss_kept_sane (g g' : Game) :
  g_combo g' = 0%Z -> g_misses g' = (g_misses g + 1)%Z ->
  timing g' = timing g -> fx g' = fx g -> sane g -> sane g'.
Proof.
  intros C M T F [S1 S2 S3 S4 S5 S6 S7].
  constructor; unfold g_effects, g_triggered_gimmicks in *;
    rewrite ?C, ?M, ?T, ?F; auto; lia.
Qed.

Lemma register_auto_miss_evolves (g : Game) : evolves g (register_auto_miss g).
Proof.
  destruct (register_auto_miss_frame g) as (N & C & M & T & _ & _ & F & W).
  assert (B : has_bgm (register_auto_miss g) = has_bgm g
              /\ bgm_length (register_auto_miss g) = bgm_length g).
  { unfold register_auto_miss, now_s. cbv beta iota zeta.
    match goal with |- context [hannya_on_miss ?h] =>
      pose proof (hannya_on_miss_evolves h) as [A1 A2 _ _ _ _ _ _ _] end.
    rewrite A1, A2. split; reflexivity. }
  constructor; try tauto; rewrite ?W; try reflexivity; try (cbn; lia).
  - apply miss_kept_sane; assumption.
  - intros [N1 N2 N3]. constructor; rewrite ?N, ?T; assumption.
Qed.

Lemma record_gimmick_evolves (k : EffectKind) (g : Game) : evolves g (record_gimmick k g).
Proof.
  destruct (record_gimmick_frame k g) as (P & T & _ & _ & W & E).
  destruct (record_gimmick_once_facts k g) as (_ & ND & Old & New & _).
  assert (B : has_bgm (record_gimmick k g) = has_bgm g
              /\ bgm_length (record_gimmick k g) = bgm_length g).
  { unfold record_gimmick. destruct (existsb _ _); split; reflexivity. }
  constructor; try tauto; rewrite ?W; try reflexivity; try lia.
  - intros [S1 S2 S3 S4 S5 S6 S7].
    constructor; unfold g_combo, g_misses, g_effects in *; rewrite ?P, ?T, ?E; auto.
    destruct (existsb (EffectKind_eqb k) (g_triggered_gimmicks g)) eqn:X.
    + apply log_member in X. rewrite (Old X). exact S6.
    + assert (NI : ~ In k (g_triggered_gimmicks g)).
      { intro I. apply log_member in I. congruence. }
      rewrite (proj2 (New NI)). unfold NEW_GIMMICK_DISPLAY_TIME. lra.
  - intros [N1 N2 N3]. constructor; unfold g_notes in *; rewrite ?P, ?T; assumption.
Qed.

Lemma trigger_evolves (c : Z) (g : Game) :
  evolves g (trigger_random_gimmick_by_name c g).
Proof.
  unfold trigger_random_gimmick_by_name, random_choice.
  destruct (nth _ gimmick_opts None) as [k|]; [|kept].
  cbv zeta.
  match goal with |- context [record_gimmick k ?h] =>
    assert (E1 : evolves g h) by kept;
    pose proof (record_gimmick_evolves k h) as E2;
    pose proof (evolves_trans _ _ _ E1 E2) as E;
    clear E1 E2;
    generalize dependent (record_gimmick k h); intros g2 E
  end.
  destruct E as [A1 A2 A3 A4 A5 A6 A7 A8 A9].
  constructor; auto.
  - intro S. specialize (A8 S). destruct A8 as [S1 S2 S3 S4 S5 S6 S7].
    constructor; auto.
    intro k'. unfold g_effects; cbn. unfold effects_set.
    destruct (EffectKind_eqb k k'); [|apply S5].
    destruct (miss_ratio_bounds (g_difficulty g2) _ S2) as (R & _).
    pose proof (gimmick_base_positive k) as B.
    set (r := inject_Z (g_misses g2)
              / inject_Z (Z.max 1 (MISS_LIMIT_MAP (g_difficulty g2)))) in *.
    nra.
  - intro N. specialize (A9 N). destruct A9 as [N1 N2 N3].
    constructor; assumption.
Qed.

Lemma real_targets_app (l1 l2 : list Note) :
  real_targets (l1 ++ l2) = real_targets l1 ++ real_targets l2.
Proof. unfold real_targets. rewrite filter_app, map_app. reflexivity. Qed.

Lemma in_times_Qeq (q q' : Q) (l : list Q) : q == q' -> in_times q l -> in_times q' l.
Proof.
  intros E (x & I & H). exists x. split; [exact I|].
  rewrite <- E. exact H.
Qed.

(** Appending the real note of a beat whose time is not yet recorded. *)
Lemma spawn_keeps_notes_ok (g g' : Game) (bt : Q) :
  ~ in_times bt (spawned_target_times (timing g)) ->
  g_notes g' = g_notes g ++ [Note_init bt LANE_X false] ->
  spawned_target_times (timing g') = bt :: spawned_target_times (timing g) ->
  notes_ok g -> notes_ok g'.
Proof.
  intros NI N S [N1 N2 N3]. constructor; rewrite N.
  - apply Forall_app. split; [exact N1|]. constructor; [|constructor].
    split; [reflexivity|]. split; [reflexivity | apply Note_init_shape].
  - rewrite real_targets_app. apply ForallOrdPairs_app.
    + exact N2.
    + cbn. repeat constructor.
    + intros u v Iu [<-|[]] E. apply NI.
      apply (in_times_Qeq u); [exact E|].
      exact (proj1 (Forall_forall _ _) N3 u Iu).
  - rewrite real_targets_app, S. apply Forall_app. split.
    + eapply Forall_impl; [|exact N3]. intros q I. apply in_times_cons. auto.
    + cbn. constructor; [|constructor]. apply in_times_cons. left. reflexivity.
Qed.

Lemma schedule_step_evolves (t a : Q) (g g' : Game) :
  schedule_step t a g = Some g' -> evolves g g'.
Proof.
  unfold schedule_step.
  destruct (Qle_bool _ t); [|discriminate].
  set (bt := a + inject_Z (spawn_index (timing g)) * SPB).
  assert (Idx : forall h, evolves h (on_timing (set_spawn_index
                                        (spawn_index (timing h) + 1)%Z) h)).
  { intro h. constructor; try reflexivity; try lia.
    - intros [S1 S2 S3 S4 S5 S6 S7]. constructor; auto. cbn. lia.
    - intros [N1 N2 N3]. constructor; assumption. }
  destruct (existsb (Qeq_bool bt) (spawned_target_times (timing g))) eqn:Mem;
    cbn [negb]; intro H; injection H as <-; [apply Idx|].
  assert (NI : ~ in_times bt (spawned_target_times (timing g))).
  { intro I. apply existsb_in_times in I. congruence. }
  eapply evolves_trans; [|apply Idx].
  match goal with
  |- evolves g (if ?c then trigger_random_gimmick_by_name ?v ?h else _) =>
    assert (E1 : evolves g h)
  end.
  { constructor; try reflexivity; try lia.
    - intros [S1 S2 S3 S4 S5 S6 S7]. constructor; auto. cbn. lia.
    - apply (spawn_keeps_notes_ok g _ bt NI); reflexivity. }
  match goal with
  |- evolves g (if ?c then _ else _) => destruct c; [|exact E1]
  end.
  eapply evolves_trans; [exact E1 | apply trigger_evolves].
Qed.

Lemma schedule_notes_up_to_evolves (t : Q) (g : Game) :
  evolves g (schedule_notes_up_to t g).
Proof.
  unfold schedule_notes_up_to.
  destruct (next_beat_time (timing g)) as [a|]; [|apply evolves_refl].
  destruct (schedule_loop _ t a g) as [g'|] eqn:E; [|apply evolves_refl].
  revert E. apply (schedule_loop_ind t a evolves).
  - intros; apply evolves_refl.
  - intros g0 g1 g2 Hs H. eapply evolves_trans; [|exact H].
    eapply schedule_step_evolves; eauto.
Qed.

Lemma ForallOrdPairs_app_inv {A : Type} (R : A -> A -> Prop) (l1 l2 : list A) :
  ForallOrdPairs R (l1 ++ l2) ->
  ForallOrdPairs R l1 /\ ForallOrdPairs R l2
  /\ (forall u v, In u l1 -> In v l2 -> R u v).
Proof.
  induction l1 as [|x l1 IH]; cbn; intro H.
  - split; [constructor|]. split; [exact H|]. intros u v [].
  - inversion H as [|? ? Hx Hr]; subst.
    destruct (IH Hr) as (A1 & A2 & A3).
    apply Forall_app in Hx. destruct Hx as (Hx1 & Hx2).
    split; [constructor; assumption|]. split; [exact A2|].
    intros u v [<-|Iu] Iv.
    + exact (proj1 (Forall_forall _ _) Hx2 v Iv).
    + apply A3; assumption.
Qed.

(** Properties of a list of target times that survive the removal of an
    element: being pairwise different, being all recorded. *)
Lemma distinct_remove (l1 l2 : list Q) (q : Q) :
  ForallOrdPairs (fun q1 q2 => ~ q1 == q2) (l1 ++ q :: l2) ->
  ForallOrdPairs (fun q1 q2 => ~ q1 == q2) (l1 ++ l2).
Proof.
  intro H. apply ForallOrdPairs_app_inv in H. destruct H as (A & B & C).
  inversion B; subst.
  apply ForallOrdPairs_app; auto. intros u v Iu Iv. apply C; cbn; auto.
Qed.

Lemma recorded_remove (P : Q -> Prop) (l1 l2 : list Q) (q : Q) :
  Forall P (l1 ++ q :: l2) -> Forall P (l1 ++ l2).
Proof.
  intro H. apply Forall_app in H. destruct H as (A & B).
  inversion B; subst. apply Forall_app. auto.
Qed.

Lemma real_targets_update (d : Difficulty) (t : Q) (n : Note) :
  real_targets [Note_update d t n] = real_targets [n].
Proof. unfold real_targets. cbn. destruct (dummy n); reflexivity. Qed.

Lemma real_targets_cons_update (d : Difficulty) (t : Q) (n : Note)
      (l1 l2 : list Note) :
  real_targets ((l1 ++ [Note_update d t n]) ++ l2) = real_targets (l1 ++ n :: l2).
Proof.
  rewrite <- app_assoc. rewrite !real_targets_app.
  change (n :: l2) with ([n] ++ l2).
  rewrite (real_targets_app [n] l2), real_targets_update. reflexivity.
Qed.

Lemma real_targets_cons (n : Note) (l2 : list Note) :
  real_targets (n :: l2)
  = (if dummy n then [] else [target_time n]) ++ real_targets l2.
Proof. unfold real_targets. cbn. destruct (dummy n); reflexivity. Qed.

Lemma notes_after_targets (Phi : list Q -> Prop) :
  (forall l1 l2 q, Phi (l1 ++ q :: l2) -> Phi (l1 ++ l2)) ->
  forall fixed d clk pending pos kept,
    Phi (real_targets (rev kept ++ pending)) ->
    Phi (real_targets (notes_after fixed d clk pos pending kept)).
Proof.
  intros Her fixed d clk.
  induction pending as [|n rest IH]; intros pos kept H; cbn [notes_after].
  - rewrite app_nil_r in H. exact H.
  - destruct (dead (Note_update d _ n)).
    + apply IH. rewrite real_targets_app in *.
      rewrite real_targets_cons in H.
      destruct (dummy n); [exact H|].
      eapply Her. exact H.
    + apply IH. cbn [rev]. rewrite real_targets_cons_update. exact H.
Qed.

Lemma notes_after_shape (fixed : option Q) (d : Difficulty) (clk : nat -> Z)
      (pending : list Note) :
  forall pos kept,
    Forall (fun n => hit n = false /\ note_shape n) pending ->
    Forall (fun n => dead n = false /\ hit n = false /\ note_shape n) kept ->
    Forall (fun n => dead n = false /\ hit n = false /\ note_shape n)
           (notes_after fixed d clk pos pending kept).
Proof.
  induction pending as [|n rest IH]; intros pos kept P K; cbn [notes_after].
  - apply Forall_rev. exact K.
  - inversion P as [|? ? (Hh & Hs) Pr]; subst.
    destruct (dead (Note_update d _ n)) eqn:E.
    + apply IH; assumption.
    + apply IH; [assumption|]. constructor; [|exact K].
      split; [exact E|]. split; [exact Hh | apply Note_update_shape; exact Hs].
Qed.

Lemma update_notes_loop_env (fixed : option Q) (pending : list Note) :
  forall kept g,
    let g' := update_notes_loop fixed pending kept g in
    has_bgm g' = has_bgm g /\ bgm_length g' = bgm_length g
    /\ clock_ms (world g') = clock_ms (world g)
    /\ rand_float (world g') = rand_float (world g)
    /\ rand_pick (world g') = rand_pick (world g)
    /\ (clock_pos (world g) <= clock_pos (world g'))%nat
    /\ (rand_pos (world g) <= rand_pos (world g'))%nat
    /\ (sane g -> sane g')
    /\ timing g' = timing g.
Proof.
  induction pending as [|n rest IH]; intros kept g; cbn zeta;
    cbn [update_notes_loop].
  - repeat (split; [first [reflexivity | lia]|]).
    split; [|reflexivity].
    intros [S1 S2 S3 S4 S5 S6 S7]. constructor; assumption.
  - assert (Step : forall h k,
              evolves g h -> timing h = timing g ->
              let g' := update_notes_loop fixed rest k h in
              has_bgm g' = has_bgm g /\ bgm_length g' = bgm_length g
              /\ clock_ms (world g') = clock_ms (world g)
              /\ rand_float (world g') = rand_float (world g)
              /\ rand_pick (world g') = rand_pick (world g)
              /\ (clock_pos (world g) <= clock_pos (world g'))%nat
              /\ (rand_pos (world g) <= rand_pos (world g'))%nat
              /\ (sane g -> sane g')
              /\ timing g' = timing g).
    { intros h k [A1 A2 A3 A4 A5 A6 A7 A8 _] T. cbn zeta.
      destruct (IH k h) as (B1 & B2 & B3 & B4 & B5 & B6 & B7 & B8 & B9).
      repeat (split; [first [congruence | lia]|]).
      split; [auto | congruence]. }
    destruct fixed as [t|].
    + destruct (dead _).
      * apply Step; [apply register_auto_miss_evolves|].
        apply register_auto_miss_frame.
      * apply Step; [apply evolves_refl | reflexivity].
    + unfold now_s. cbv beta iota.
      match goal with |- context [on_world ?f g] => set (g0 := on_world f g) end.
      assert (E0 : evolves g g0) by (unfold g0; kept).
      destruct (dead _).
      * apply Step.
        -- eapply evolves_trans; [exact E0 | apply register_auto_miss_evolves].
        -- destruct (register_auto_miss_frame g0) as (_ & _ & _ & T & _).
           rewrite T. reflexivity.
      * apply Step; [exact E0 | reflexivity].
Qed.

Lemma update_notes_evolves (fixed : option Q) (g : Game) :
  evolves g (update_notes fixed g).
Proof.
  unfold update_notes.
  destruct (update_notes_loop_env fixed (g_notes g) [] g)
    as (B1 & B2 & B3 & B4 & B5 & B6 & B7 & B8 & B9).
  constructor; auto.
  intros [N1 N2 N3]. constructor; rewrite update_notes_loop_notes, ?B9.
  - apply notes_after_shape; [|constructor].
    eapply Forall_impl; [|exact N1]. cbn. tauto.
  - apply (notes_after_targets (ForallOrdPairs (fun q1 q2 => ~ q1 == q2)));
      [apply distinct_remove | exact N2].
  - apply (notes_after_targets
             (Forall (fun q => in_times q (spawned_target_times (timing g)))));
      [apply recorded_remove | exact N3].
Qed.

Lemma spawn_dummy_evolves (fixed : option Q) (g : Game) :
  evolves g (spawn_dummy fixed g).
Proof.
  unfold spawn_dummy, random_random, now_s.
  destruct (Qltb 0 _); [|apply evolves_refl]. cbv beta iota.
  destruct (Qltb _ 0.03); [|kept].
  assert (D : forall (h : Game) (t : Q),
            evolves h (on_play (set_notes
                         (g_notes h ++ [Note_init (t + NOTE_TRAVEL_SEC * 0.5)
                                                  LANE_X true])) h)).
  { intros h t. constructor; try reflexivity; try lia.
    - intros [S1 S2 S3 S4 S5 S6 S7]. constructor; assumption.
    - intros [N1 N2 N3].
      constructor; unfold g_notes in *; cbn [play on_play notes set_notes timing].
      + apply Forall_app. split; [exact N1|]. constructor; [|constructor].
        split; [reflexivity|]. split; [reflexivity | apply Note_init_shape].
      + rewrite real_targets_app. cbn. rewrite app_nil_r. exact N2.
      + rewrite real_targets_app. cbn. rewrite app_nil_r. exact N3. }
  destruct fixed as [t|]; cbv beta iota.
  - eapply evolves_trans; [|apply D]. kept.
  - eapply evolves_trans; [|apply D]. kept.
Qed.

Lemma remove_at_split {A : Type} (l : list A) :
  forall i a, nth_error l i = Some a ->
              exists l1 l2, l = l1 ++ a :: l2 /\ remove_at i l = l1 ++ l2.
Proof.
  unfold remove_at.
  induction l as [|b l IH]; intros [|i] a H; cbn in *; try discriminate.
  - injection H as ->. exists [], l. auto.
  - destruct (IH i a H) as (l1 & l2 & E1 & E2).
    exists (b :: l1), l2. cbn. rewrite E2. split; [f_equal; exact E1 | reflexivity].
Qed.

Lemma remove_keeps_notes_ok (g g' : Game) (i : nat) (n : Note) :
  nth_error (g_notes g) i = Some n ->
  g_notes g' = remove_at i (g_notes g) -> timing g' = timing g ->
  notes_ok g -> notes_ok g'.
Proof.
  intros En N T [N1 N2 N3].
  destruct (remove_at_split _ _ _ En) as (l1 & l2 & E1 & E2).
  rewrite E2 in N. rewrite E1 in *.
  constructor; rewrite N, ?T.
  - apply Forall_app in N1. destruct N1 as (A & B). inversion B; subst.
    apply Forall_app. auto.
  - rewrite real_targets_app in *. rewrite real_targets_cons in N2.
    destruct (dummy n); [exact N2|]. eapply distinct_remove. exact N2.
  - rewrite real_targets_app in *. rewrite real_targets_cons in N3.
    destruct (dummy n); [exact N3|]. eapply recorded_remove. exact N3.
Qed.

Lemma miss_step_evolves (h : Game) :
  evolves h (on_play (set_misses (g_misses (on_play (set_combo 0%Z) h) + 1)%Z)
               (on_play (set_combo 0%Z) h)).
Proof.
  constructor; try reflexivity; try lia.
  - apply miss_kept_sane; reflexivity.
  - intros [N1 N2 N3]. constructor; assumption.
Qed.

Lemma hit_check_evolves (g : Game) : evolves g (hit_check g).
Proof.
  unfold hit_check, now_s. cbv beta iota zeta.
  match goal with |- context [on_world ?f g] => set (g0 := on_world f g) end.
  assert (E0 : evolves g g0) by (unfold g0; kept).
  apply (evolves_trans g g0); [exact E0|]. clear E0.
  destruct (nearest_scan (g_notes g0) 0 _ None 1e9) as [b dt] eqn:Sc.
  destruct (nearest_scan_spec _ _ _ _ _ _ _ Sc) as (_ & _ & Hsel).
  destruct Hsel as [(-> & ->) | (j & n & -> & En & _ & -> & _)].
  - eapply evolves_trans; [|apply hannya_on_miss_evolves].
    unfold now_s. cbv beta iota.
    eapply evolves_trans; [apply miss_step_evolves|]. kept.
  - cbn [Nat.add].
    match goal with |- evolves g0 (on_play _ (on_play _ ?h)) =>
      apply (evolves_trans g0 h); [|kept] end.
    destruct (negb (Judgement_eqb _ MISS)).
    + assert (E1 : evolves g0 (on_play (set_notes (remove_at j (g_notes g0))) g0)).
      { constructor; try reflexivity; try lia.
        - intros [S1 S2 S3 S4 S5 S6 S7]. constructor; assumption.
        - apply (remove_keeps_notes_ok g0 _ j n En); reflexivity. }
      match goal with
      |- evolves g0 (if ?c then trigger_random_gimmick_by_name ?v ?h else _) =>
        assert (E2 : evolves g0 h)
      end.
      { eapply evolves_trans; [exact E1|].
        constructor; try reflexivity; try lia.
        - intros [S1 S2 S3 S4 S5 S6 S7]. constructor; auto.
          unfold g_combo in *; cbn in *. lia.
        - intros [N1 N2 N3]. constructor; assumption. }
      match goal with
      |- evolves g0 (if ?c then _ else _) => destruct c; [|exact E2]
      end.
      eapply evolves_trans; [exact E2 | apply trigger_evolves].
    + eapply evolves_trans; [|apply hannya_on_miss_evolves].
      apply miss_step_evolves.
Qed.

Lemma render_game_evolves (g : Game) : evolves g (render_game g).
Proof.
  unfold render_game, now_s. cbv beta iota zeta.
  eapply evolves_trans; [|apply spawn_dummy_evolves].
  eapply evolves_trans; [|apply update_notes_evolves].
  match goal with |- evolves g (on_fx _ ?h) =>
    apply (evolves_trans g h); [|kept] end.
  match goal with |- evolves g (if _ then on_fx _ ?h else _) =>
    apply (evolves_trans g h); [|destruct (Qltb 0 _); kept] end.
  destruct (next_beat_time _).
  - eapply evolves_trans; [|apply schedule_notes_up_to_evolves]. kept.
  - kept.
Qed.

Lemma start_session_world (clear_judge close_panel : bool) (g : Game) :
  has_bgm (start_session clear_judge close_panel g) = has_bgm g
  /\ bgm_length (start_session clear_judge close_panel g) = bgm_length g
  /\ world (start_session clear_judge close_panel g)
     = set_clock_pos (if has_bgm g then S (S (clock_pos (world g)))
                      else S (clock_pos (world g))) (world g).
Proof.
  unfold start_session, reset_run, play_bgm_once, now_s.
  destruct clear_judge, close_panel, (has_bgm g) eqn:B; cbn; rewrite ?B; cbn;
    (split; [exact B|]); (split; reflexivity).
Qed.

Lemma start_session_evolves (clear_judge close_panel : bool) (g : Game) :
  evolves g (start_session clear_judge close_panel g).
Proof.
  destruct (start_session_facts clear_judge close_panel g) as (t & _ & R).
  destruct R as [R1 R2 R3 R4 R5 R6 _ _ _ _ _ R12].
  destruct (start_session_world clear_judge close_panel g) as (E1 & E2 & W).
  generalize dependent (start_session clear_judge close_panel g).
  intros g' R1 R2 R3 R4 R5 R6 R12 E1 E2 W.
  constructor; auto; rewrite ?W; try reflexivity.
  - cbn. destruct (has_bgm g); lia.
  - intros [S1 S2 S3 S4 S5 S6 S7].
    constructor; unfold g_effects, g_triggered_gimmicks in *;
      rewrite ?R2, ?R3, ?R4, ?R5, ?R12; auto; lia.
  - intros _. constructor; rewrite R1; cbn; constructor.
Qed.

Lemma handle_event_evolves (g : Game) (ev : Event) : evolves g (handle_event g ev).
Proof.
  destruct ev as [|button mx my|k|]; cbn [handle_event].
  - kept.
  - destruct (button =? 1)%Z; [|apply evolves_refl].
    unfold on_mouse. destruct (scene g); cbv zeta.
    + destruct (collidepoint _ mx my); [apply start_session_evolves|].
      destruct (collidepoint _ mx my); [kept|].
      destruct (collidepoint _ mx my); kept.
    + destruct (collidepoint _ mx my); [kept|].
      destruct (collidepoint _ mx my); kept.
    + destruct (collidepoint _ mx my); [apply hit_check_evolves | apply evolves_refl].
    + destruct restart_rects as [[r1 r2] r3].
      destruct (collidepoint r1 mx my); [apply start_session_evolves|].
      destruct (collidepoint r2 mx my); [kept|].
      destruct (collidepoint r3 mx my); kept.
    + destruct restart_rects as [[r1 r2] r3].
      destruct (collidepoint r1 mx my); [apply start_session_evolves|].
      destruct (collidepoint r2 mx my); [kept|].
      destruct (collidepoint r3 mx my); kept.
  - unfold on_key. destruct (scene g).
    + destruct k; try apply start_session_evolves; kept.
    + destruct k; try destruct (g_difficulty g); kept.
    + destruct k; try apply hit_check_evolves; apply evolves_refl.
    + destruct k; try apply start_session_evolves; kept.
    + destruct k; try apply start_session_evolves; kept.
  - apply evolves_refl.
Qed.

Lemma fold_events_evolves (evs : list Event) :
  forall g, evolves g (fold_left handle_event evs g).
Proof.
  induction evs as [|ev evs IH]; intro g; cbn [fold_left]; [apply evolves_refl|].
  eapply evolves_trans; [apply handle_event_evolves | apply IH].
Qed.

Lemma tick_timers_evolves (dt : Q) (g : Game) : evolves g (tick_timers dt g).
Proof.
  destruct (effect_timers_decay_facts dt g shake_small)
    as (_ & _ & _ & _ & _ & _ & _ & _ & P & T & _ & _ & W & L).
  assert (B : has_bgm (tick_timers dt g) = has_bgm g
              /\ bgm_length (tick_timers dt g) = bgm_length g).
  { unfold tick_timers. destruct (Qltb 0 _); split; reflexivity. }
  constructor; try tauto; rewrite ?W; try reflexivity; try lia.
  - intros [S1 S2 S3 S4 S5 S6 S7].
    constructor; unfold g_combo, g_misses in *; rewrite ?P, ?T, ?L; auto.
    + intro k.
      destruct (effect_timers_decay_facts dt g k) as (_ & _ & _ & H & _).
      apply H. apply S5.
    + unfold tick_timers. cbn.
      destruct (Qltb 0 (new_gimmick_timer (fx g))) eqn:E; cbn; [|exact S6].
      unfold py_max. qcases; lra.
  - intros [N1 N2 N3]. constructor; unfold g_notes in *; rewrite ?P, ?T; assumption.
Qed.

Lemma in_prep_evolves (g : Game) : evolves g (snd (in_prep g)).
Proof.
  unfold in_prep. destruct (prep_end_time (timing g)); [|apply evolves_refl].
  destruct (truthy _); [|apply evolves_refl]. unfold now_s. kept.
Qed.

Lemma active_update_evolves (g : Game) : evolves g (active_update g).
Proof.
  unfold active_update.
  set (g1 := match next_beat_time (timing g) with
             | Some _ => let '(t, g0) := now_s g in schedule_notes_up_to t g0
             | None => g
             end).
  assert (S1 : evolves g g1).
  { unfold g1. destruct (next_beat_time (timing g)); [|apply evolves_refl].
    unfold now_s. eapply evolves_trans; [|apply schedule_notes_up_to_evolves].
    kept. }
  assert (S3 : evolves g (spawn_dummy None (update_notes None g1))).
  { eapply evolves_trans; [exact S1|].
    eapply evolves_trans; [apply update_notes_evolves|].
    apply spawn_dummy_evolves. }
  generalize dependent (spawn_dummy None (update_notes None g1)).
  intros g3 S3.
  eapply evolves_trans; [exact S3|].
  destruct (bgm_length g3) as [len|]; [|apply evolves_refl].
  destruct (start_time_s (timing g3)) as [st|]; [|apply evolves_refl].
  destruct (truthy (Some len) && truthy (Some st)); [|apply evolves_refl].
  unfold now_s. cbv beta iota.
  destruct (Qltb _ _); kept.
Qed.

Lemma miss_limit_check_evolves (g : Game) : evolves g (miss_limit_check g).
Proof.
  unfold miss_limit_check. destruct (_ <=? _)%Z; [kept | apply render_game_evolves].
Qed.

Lemma game_scene_step_evolves (g : Game) : evolves g (game_scene_step g).
Proof.
  destruct (fst (in_prep g)) eqn:E.
  - rewrite (game_scene_step_prep g E).
    eapply evolves_trans; [apply in_prep_evolves | apply render_game_evolves].
  - rewrite (game_scene_step_active g E).
    eapply evolves_trans; [apply in_prep_evolves|].
    eapply evolves_trans; [apply active_update_evolves|].
    apply miss_limit_check_evolves.
Qed.

Lemma main_loop_body_evolves (tick_ms : Z) (events : list Event) (g : Game) :
  evolves g (main_loop_body tick_ms events g).
Proof.
  assert (A : evolves g (after_events tick_ms events g)).
  { unfold after_events.
    eapply evolves_trans; [apply now_s_evolves|].
    eapply evolves_trans; [apply fold_events_evolves | apply tick_timers_evolves]. }
  rewrite main_loop_body_dispatch.
  destruct (scene (after_events tick_ms events g)); try exact A.
  eapply evolves_trans; [exact A | apply game_scene_step_evolves].
Qed.

Lemma run_passes_evolves (passes : list (Z * list Event)) :
  forall g, evolves g (run_passes passes g).
Proof.
  unfold run_passes.
  induction passes as [|p passes IH]; intro g; cbn [fold_left];
    [apply evolves_refl|].
  eapply evolves_trans; [apply main_loop_body_evolves | apply IH].
Qed.

Lemma initial_game_sane (bgm : bool) (len : option Q) (w : World) :
  sane (initial_game bgm len w).
Proof.
  constructor; cbn; try lia; try (intros; unfold Qle; cbn; lia).
  constructor.
Qed.

Lemma initial_game_notes_ok (bgm : bool) (len : option Q) (w : World) :
  notes_ok (initial_game bgm len w).
Proof. constructor; cbn; constructor. Qed.

(** X11. Counters and timers stay in range.  A pass of the main loop keeps
    combo, the miss counter, the beat index and the spawn counter at or
    above zero, every effect duration and the notification timer at or
    above zero, and the gimmick log free of duplicates; so this holds in
    every state the program reaches from its start, whatever the clock,
    the random draws and the input are. *)
Theorem counters_and_timers_in_range :
  (forall tick_ms events g, sane g -> sane (main_loop_body tick_ms events g))
  /\ (forall bgm len w passes,
        sane (run_passes passes (initial_game bgm len w))).
Proof.
  split.
  - intros tick_ms events g. apply (ev_sane _ _ (main_loop_body_evolves _ _ g)).
  - intros bgm len w passes.
    apply (ev_sane _ _ (run_passes_evolves passes _)). apply initial_game_sane.
Qed.

Lemma counters_and_timers_in_range_witness :
  sane (main_loop_body 16 [KEYDOWN K_SPACE]
          (initial_game false None (still_world 1000))).
Proof.
  apply (proj1 counters_and_timers_in_range). apply initial_game_sane.
Defined.

(** X12. The note list stays well formed.  A pass of the main loop leaves
    no dead note in the list, never sets a note's [hit] flag, keeps every
    note as its constructor shaped it ([spawn_time = target_time - travel],
    fixed start and hit positions), and keeps the target times of the real
    notes pairwise different and recorded in [spawned_target_times]; so
    this holds in every state the program reaches from its start. *)
Theorem note_list_well_formed :
  (forall tick_ms events g, notes_ok g -> notes_ok (main_loop_body tick_ms events g))
  /\ (forall bgm len w passes,
        notes_ok (run_passes passes (initial_game bgm len w))).
Proof.
  split.
  - intros tick_ms events g. apply (ev_notes _ _ (main_loop_body_evolves _ _ g)).
  - intros bgm len w passes.
    apply (ev_notes _ _ (run_passes_evolves passes _)).
    apply initial_game_notes_ok.
Qed.

Lemma note_list_well_formed_witness :
  notes_ok (main_loop_body 16 [KEYDOWN K_RETURN]
              (initial_game false None (still_world 1000))).
Proof.
  apply (proj1 note_list_well_formed). apply initial_game_notes_ok.
Defined.

(** After one pass from the title screen with the start key, the session
    has its first note, and the invariants are about a non-empty list. *)
Example first_pass_has_a_note :
  length (g_notes (main_loop_body 16 [KEYDOWN K_RETURN]
                     (initial_game false None (still_world 1000)))) = 1%nat.
Proof. vm_compute. reflexivity. Qed.

(** ** Scenes and settings *)

(** X13. Settings are changed on the settings screen only: an event
    handled in any other scene leaves difficulty, offset, hazard mode and
    judgement position as they are, and so does a pass without events.
    No event leaves the game scene: during a session the only ways out are
    the miss limit and the end of the track. *)
Theorem settings_change_on_settings_screen_only :
  (forall g ev, scene g <> SCENE_SETTINGS ->
                settings (handle_event g ev) = settings g)
  /\ (forall g ev, scene g = SCENE_GAME -> scene (handle_event g ev) = SCENE_GAME)
  /\ (forall tick_ms g, settings (main_loop_body tick_ms [] g) = settings g).
Proof.
  split; [|split].
  - intros g ev NS.
    assert (St : forall cj cp, settings (start_session cj cp g) = settings g).
    { intros cj cp. destruct (start_session_facts cj cp g) as (t & _ & R).
      exact (sr_settings _ _ _ R). }
    assert (Hc : settings (hit_check g) = settings g) by apply hit_check_cases.
    destruct ev as [|button mx my|k|]; cbn [handle_event]; try reflexivity.
    + destruct (button =? 1)%Z; [|reflexivity].
      unfold on_mouse. destruct (scene g); cbv zeta; try contradiction;
        try destruct restart_rects as [[r1 r2] r3];
        repeat match goal with
        | |- context [collidepoint ?r mx my] => destruct (collidepoint r mx my)
        end; auto.
    + unfold on_key. destruct (scene g); try contradiction; destruct k; auto.
  - intros g ev Sc.
    assert (Hc : scene (hit_check g) = SCENE_GAME).
    { rewrite <- Sc. apply hit_check_cases. }
    destruct ev as [|button mx my|k|]; cbn [handle_event]; auto.
    + destruct (button =? 1)%Z; [|exact Sc].
      unfold on_mouse. rewrite Sc. cbv zeta.
      destruct (collidepoint _ mx my); auto.
    + unfold on_key. rewrite Sc. destruct k; auto.
  - intros tick_ms g. rewrite main_loop_body_dispatch.
    assert (A : settings (after_events tick_ms [] g) = settings g).
    { unfold after_events. cbn [fold_left].
      destruct (tick_timers_frame (inject_Z tick_ms / 1000.0) (snd (now_s g)))
        as (_ & _ & _ & S & _).
      rewrite S. reflexivity. }
    destruct (scene (after_events tick_ms [] g)); try exact A.
    rewrite <- A.
    set (h := after_events tick_ms [] g).
    destruct (in_prep_frame h) as (_ & _ & _ & Sp & _).
    destruct (fst (in_prep h)) eqn:E.
    + rewrite (game_scene_step_prep h E).
      rewrite (st_settings _ _ (render_game_steady _)). exact Sp.
    + rewrite (game_scene_step_active h E).
      destruct (active_update_keeps (snd (in_prep h))) as (Sa & _).
      unfold miss_limit_check. destruct (_ <=? _)%Z.
      * cbn. rewrite Sa. exact Sp.
      * rewrite (st_settings _ _ (render_game_steady _)), Sa. exact Sp.
Qed.

Lemma settings_change_on_settings_screen_only_witness :
  settings (handle_event prep_input (KEYDOWN K_RIGHT)) = settings prep_input
  /\ scene (handle_event prep_input (KEYDOWN K_ESCAPE)) = SCENE_GAME.
Proof.
  split.
  - apply (proj1 settings_change_on_settings_screen_only). discriminate.
  - apply (proj1 (proj2 settings_change_on_settings_screen_only)). reflexivity.
Defined.

(** X14. The keys of the settings screen.  Left and right move the
    difficulty one step and stop at EASY and at HARD; a harder difficulty
    never allows more misses nor a wider window; the hazard-mode key and
    the judgement-position keys are toggles, so pressing one twice gives
    the state back; and all these keys stay on the settings screen and
    leave the run state, the timing and the effects alone. *)
Theorem settings_keys (g : Game) :
  scene g = SCENE_SETTINGS ->
  difficulty_rank (g_difficulty (handle_event g (KEYDOWN K_LEFT)))
  = Z.max 0 (difficulty_rank (g_difficulty g) - 1)
  /\ difficulty_rank (g_difficulty (handle_event g (KEYDOWN K_RIGHT)))
     = Z.min 2 (difficulty_rank (g_difficulty g) + 1)
  /\ (forall d1 d2, (difficulty_rank d1 <= difficulty_rank d2)%Z ->
        (MISS_LIMIT_MAP d2 <= MISS_LIMIT_MAP d1)%Z
        /\ DIFF_WINDOW d2 <= DIFF_WINDOW d1)
  /\ handle_event (handle_event g (KEYDOWN K_y)) (KEYDOWN K_y) = g
  /\ handle_event (handle_event g (KEYDOWN K_UP)) (KEYDOWN K_DOWN) = g
  /\ (forall k, In k [K_LEFT; K_RIGHT; K_UP; K_DOWN; K_LEFTBRACKET;
                      K_RIGHTBRACKET; K_y; K_SPACE; K_s; K_g; K_other] ->
        scene (handle_event g (KEYDOWN k)) = SCENE_SETTINGS
        /\ play (handle_event g (KEYDOWN k)) = play g
        /\ timing (handle_event g (KEYDOWN k)) = timing g
        /\ fx (handle_event g (KEYDOWN k)) = fx g).
Proof.
  intro Sc. cbn [handle_event]. unfold on_key. rewrite Sc.
  split; [unfold g_difficulty; destruct (DIFFICULTY (settings g)) eqn:D; cbn;
          rewrite ?D; reflexivity|].
  split; [unfold g_difficulty; destruct (DIFFICULTY (settings g)) eqn:D; cbn;
          rewrite ?D; reflexivity|].
  split.
  { intros d1 d2 H. destruct d1, d2; cbn in *; split; try lia;
      unfold Qle; cbn; lia. }
  split.
  { cbn. rewrite Sc.
    destruct g as [b l w sc [d jp off ym] tm pl f r sp]; cbn in *.
    rewrite negb_involutive. reflexivity. }
  split.
  { cbn. rewrite Sc.
    destruct g as [b l w sc [d jp off ym] tm pl f r sp]; cbn in *.
    destruct jp; reflexivity. }
  intros k Hk. cbn in Hk.
  repeat (destruct Hk as [<-|Hk]; [try destruct (g_difficulty g); cbn; auto|]).
  destruct Hk.
Qed.

Lemma settings_keys_witness :
  difficulty_rank (g_difficulty (handle_event settings_input (KEYDOWN K_RIGHT))) = 2%Z
  /\ handle_event (handle_event settings_input (KEYDOWN K_y)) (KEYDOWN K_y)
     = settings_input.
Proof.
  destruct (settings_keys settings_input) as (_ & A & _ & B & _);
    [reflexivity|].
  split; [exact A | exact B].
Defined.

(** ** When gimmicks are triggered *)

(** X15. Gimmicks by combo.  A hit input makes a gimmick selection (one
    draw from the generator) exactly when hazard mode is off, the hit is
    successful and the new combo is a multiple of
    [GIMMICK_COMBO_THRESHOLD] (20); in every other case it makes no draw
    and leaves effects, log and notification untouched. *)
Theorem combo_gimmick_every_twenty (g : Game) :
  let success := (g_misses (hit_check g) =? g_misses g)%Z in
  let due := negb (yakubi_mode (settings g)) && success
             && ((g_combo g + 1) mod GIMMICK_COMBO_THRESHOLD =? 0)%Z in
  (due = true ->
   rand_pos (world (hit_check g)) = S (rand_pos (world g)))
  /\ (due = false ->
      rand_pos (world (hit_check g)) = rand_pos (world g)
      /\ fx (hit_check g) = fx g).
Proof.
  cbn zeta. unfold hit_check, now_s. cbv beta iota zeta.
  match goal with |- context [on_world ?f g] => set (g0 := on_world f g) end.
  assert (Miss : forall h,
            g_misses h = (g_misses g + 1)%Z ->
            ((g_misses h =? g_misses g)%Z = false)).
  { intros h E. apply Z.eqb_neq. lia. }
  destruct (nearest_scan (g_notes g0) 0 _ None 1e9) as [[i|] dt].
  - destruct (negb (Judgement_eqb _ MISS)).
    + change (yakubi_mode (settings (on_play _ (on_play _ g0))))
        with (yakubi_mode (settings g)).
      change (g_combo (on_play (set_combo (g_combo (on_play ?a g0) + 1)%Z) ?b))
        with (g_combo g + 1)%Z.
      destruct (negb (yakubi_mode (settings g))
                && ((g_combo g + 1) mod GIMMICK_COMBO_THRESHOLD =? 0)%Z) eqn:D.
      * match goal with |- context [trigger_random_gimmick_by_name ?v ?h] =>
          destruct (trigger_frame v h) as (P & _);
          destruct (trigger_sets_one_effect_facts v h) as (R & _);
          generalize dependent (trigger_random_gimmick_by_name v h);
          intros g2 P R
        end.
        unfold g_misses. cbn. rewrite P, R. cbn. rewrite Z.eqb_refl.
        apply andb_true_iff in D. destruct D as (D1 & D2). rewrite D1, D2.
        cbn. split; [reflexivity | discriminate].
      * unfold g_misses. cbn. rewrite Z.eqb_refl, andb_true_r.
        split; [|auto].
        intro X. congruence.
    + match goal with |- context [hannya_on_miss ?h] =>
        destruct (hannya_on_miss_frame h) as (_ & _ & M & _ & _ & _ & F & W);
        generalize dependent (hannya_on_miss h); intros g2 M F W
      end.
      unfold g_misses in *. cbn in *. rewrite M, F, W.
      replace (misses (play g) + 1 =? misses (play g))%Z with false
        by (symmetry; apply Z.eqb_neq; lia).
      rewrite andb_false_r. cbn. split; [discriminate | auto].
  - match goal with |- context [hannya_on_miss ?h] =>
      destruct (hannya_on_miss_frame h) as (_ & _ & M & _ & _ & _ & F & W);
      generalize dependent (hannya_on_miss h); intros g2 M F W
    end.
    unfold g_misses in *. cbn in *. rewrite M, F, W.
    replace (misses (play g) + 1 =? misses (play g))%Z with false
      by (symmetry; apply Z.eqb_neq; lia).
    rewrite andb_false_r. cbn. split; [discriminate|].
    intros _. split; reflexivity.
Qed.

Lemma combo_gimmick_every_twenty_witness :
  g_combo (hit_check combo19_input) = 20%Z
  /\ rand_pos (world (hit_check combo19_input)) = S (rand_pos (world combo19_input))
  /\ rand_pos (world (hit_check (sample_one_note 2600)))
     = rand_pos (world (sample_one_note 2600))
  /\ fx (hit_check (sample_one_note 2600)) = fx (sample_one_note 2600).
Proof.
  split; [reflexivity|]. split.
  - apply (proj1 (combo_gimmick_every_twenty combo19_input)). reflexivity.
  - apply (proj2 (combo_gimmick_every_twenty (sample_one_note 2600))). reflexivity.
Defined.

Lemma tenth_step (c : Z) :
  ((c + 1) / 10 - c / 10
   = if ((c + 1) mod 10 =? 0) then 1 else 0)%Z.
Proof.
  destruct (Z.eqb_spec ((c + 1) mod 10) 0) as [E|E];
    Z.div_mod_to_equations; lia.
Qed.

(** What scheduling draws from the generator, pass by pass of the loop. *)
Lemma schedule_step_draws (t a : Q) (g g' : Game) :
  schedule_step t a g = Some g' ->
  settings g' = settings g
  /\ (yakubi_mode (settings g) = false -> fx g' = fx g /\ world g' = world g)
  /\ (yakubi_mode (settings g) = true ->
      (Z.of_nat (rand_pos (world g'))
       = Z.of_nat (rand_pos (world g))
         + (note_spawn_counter (timing g') / 10
            - note_spawn_counter (timing g) / 10))%Z).
Proof.
  unfold schedule_step.
  destruct (Qle_bool _ t); [|discriminate].
  destruct (negb (existsb _ _)); intro H; injection H as <-.
  - change (yakubi_mode (settings (on_timing _ (on_timing _ (on_play _ g)))))
      with (yakubi_mode (settings g)).
    change (note_spawn_counter (timing (on_timing (set_note_spawn_counter ?v) ?h)))
      with v.
    change (note_spawn_counter (timing (on_timing _ (on_play _ g))))
      with (note_spawn_counter (timing g)).
    pose proof (tenth_step (note_spawn_counter (timing g))) as Ten.
    destruct (yakubi_mode (settings g)) eqn:Y; cbn [andb].
    + destruct ((note_spawn_counter (timing g) + 1) mod 10 =? 0)%Z.
      * match goal with |- context [trigger_random_gimmick_by_name ?v ?h] =>
          destruct (trigger_frame v h) as (_ & T & Se & _);
          destruct (trigger_sets_one_effect_facts v h) as (R & _);
          generalize dependent (trigger_random_gimmick_by_name v h);
          intros g2 T Se R
        end.
        change (rand_pos (world g2) = S (rand_pos (world g))) in R.
        cbn. rewrite Se, T, R, Nat2Z.inj_succ.
        cbn -[Z.of_nat Z.div Z.add Z.sub Z.succ].
        split; [reflexivity|]. split; [discriminate|]. intros _. lia.
      * cbn -[Z.of_nat Z.div Z.add Z.sub Z.succ].
        split; [reflexivity|]. split; [discriminate|].
        intros _. lia.
    + cbn -[Z.of_nat Z.div Z.add Z.sub Z.succ].
      split; [reflexivity|]. split; [auto | discriminate].
  - cbn -[Z.of_nat Z.div Z.add Z.sub Z.succ].
    split; [reflexivity|]. split; [auto|]. intros _. lia.
Qed.

(** X16. Gimmicks in hazard mode.  With hazard mode off, scheduling never
    draws from the generator and leaves effects, log and notification
    untouched.  With hazard mode on, a call makes one gimmick selection
    for every multiple of 10 the spawn counter reaches, a catch-up burst
    included: the draws it makes are the multiples of 10 between the old
    and the new count. *)
Theorem hazard_gimmick_every_ten (t : Q) (g : Game) :
  (yakubi_mode (settings g) = false ->
   fx (schedule_notes_up_to t g) = fx g
   /\ world (schedule_notes_up_to t g) = world g)
  /\ (yakubi_mode (settings g) = true ->
      (Z.of_nat (rand_pos (world (schedule_notes_up_to t g)))
       = Z.of_nat (rand_pos (world g))
         + (note_spawn_counter (timing (schedule_notes_up_to t g)) / 10
            - note_spawn_counter (timing g) / 10))%Z).
Proof.
  unfold schedule_notes_up_to.
  destruct (next_beat_time (timing g)) as [a|]; [|split; [auto | intros; lia]].
  destruct (schedule_loop _ t a g) as [g'|] eqn:E; [|split; [auto | intros; lia]].
  assert (H : settings g' = settings g
              /\ (yakubi_mode (settings g) = false ->
                  fx g' = fx g /\ world g' = world g)
              /\ (yakubi_mode (settings g) = true ->
                  (Z.of_nat (rand_pos (world g'))
                   = Z.of_nat (rand_pos (world g))
                     + (note_spawn_counter (timing g') / 10
                        - note_spawn_counter (timing g) / 10))%Z)).
  { revert E.
    apply (schedule_loop_ind t a
             (fun g g' =>
                settings g' = settings g
                /\ (yakubi_mode (settings g) = false ->
                    fx g' = fx g /\ world g' = world g)
                /\ (yakubi_mode (settings g) = true ->
                    (Z.of_nat (rand_pos (world g'))
                     = Z.of_nat (rand_pos (world g))
                       + (note_spawn_counter (timing g') / 10
                          - note_spawn_counter (timing g) / 10))%Z))).
    - intros h _. split; [reflexivity|]. split; [auto | intros; lia].
    - intros h h1 h2 Hs (S2 & N2 & Y2).
      destruct (schedule_step_draws _ _ _ _ Hs) as (S1 & N1 & Y1).
      rewrite S1 in *. split; [congruence|]. split.
      + intro Y. destruct (N1 Y) as (F1 & W1). destruct (N2 Y) as (F2 & W2).
        split; congruence.
      + intro Y. specialize (Y1 Y). specialize (Y2 Y). lia. }
  destruct H as (_ & N & Y). split; assumption.
Qed.

Lemma hazard_gimmick_every_ten_witness :
  (fx (schedule_notes_up_to 4 sample_started) = fx sample_started
   /\ world (schedule_notes_up_to 4 sample_started) = world sample_started)
  /\ (Z.of_nat (rand_pos (world (schedule_notes_up_to 4 hazard_input)))
      = Z.of_nat (rand_pos (world hazard_input))
        + (note_spawn_counter (timing (schedule_notes_up_to 4 hazard_input)) / 10
           - note_spawn_counter (timing hazard_input) / 10))%Z.
Proof.
  split.
  - apply (proj1 (hazard_gimmick_every_ten 4 sample_started)). reflexivity.
  - apply (proj2 (hazard_gimmick_every_ten 4 hazard_input)). reflexivity.
Defined.

(** In hazard mode with nine notes spawned, a burst of eight more crosses
    the count of ten once: one draw. *)
Example hazard_burst_draws_once :
  note_spawn_counter (timing (schedule_notes_up_to 4 hazard_input)) = 17%Z
  /\ rand_pos (world (schedule_notes_up_to 4 hazard_input))
     = S (rand_pos (world hazard_input)).
Proof. vm_compute. split; reflexivity. Qed.

(** ** More on scheduling and decoys *)

Lemma beat_time_lt (a : Q) (k1 k2 : Z) :
  (k1 < k2)%Z -> beat_time a k1 < beat_time a k2.
Proof.
  intro H. unfold beat_time.
  assert (L : inject_Z k1 < inject_Z k2) by (rewrite <- Zlt_Qlt; exact H).
  pose proof SPB_pos as P.
  assert (M : inject_Z k1 * SPB < inject_Z k2 * SPB).
  { apply Qmult_lt_compat_r; assumption. }
  lra.
Qed.

Lemma beat_notes_sorted (a : Q) (ks : list Z) :
  StronglySorted Z.lt ks ->
  StronglySorted (fun n m => target_time n < target_time m) (beat_notes a ks).
Proof.
  induction 1 as [|k ks Hs IH Hk]; cbn; constructor; [exact IH|].
  unfold beat_notes. apply Forall_map.
  eapply Forall_impl; [|exact Hk]. cbn. intros k' L. apply beat_time_lt. exact L.
Qed.

(** X17. One call of [schedule_notes_up_to] appends real notes only, in
    strictly increasing order of target time, every one of them due (its
    spawn time is not after [t_now]); it raises the spawn counter by the
    number of notes appended and never lowers the beat index; when it
    returns, the next beat is not yet due; and it touches neither the
    notes already there nor combo, miss counter or scene. *)
Theorem scheduled_notes_in_beat_order (t : Q) (g : Game) (a : Q) :
  next_beat_time (timing g) = Some a ->
  let g' := schedule_notes_up_to t g in
  exists new,
    g_notes g' = g_notes g ++ new
    /\ StronglySorted (fun n m => target_time n < target_time m) new
    /\ Forall (fun n => dummy n = false /\ spawn_time n <= t) new
    /\ note_spawn_counter (timing g')
       = (note_spawn_counter (timing g) + Z.of_nat (length new))%Z
    /\ (spawn_index (timing g) <= spawn_index (timing g'))%Z
    /\ t < beat_time a (spawn_index (timing g')) - NOTE_TRAVEL_SEC
    /\ g_combo g' = g_combo g /\ g_misses g' = g_misses g /\ scene g' = scene g.
Proof.
  intros Ha. cbn zeta.
  destruct (schedule_notes_up_to_facts t g a Ha) as (ks & F).
  exists (beat_notes a ks).
  split; [exact (sc_notes _ _ _ _ _ F)|].
  split; [apply beat_notes_sorted; exact (sc_sorted _ _ _ _ _ F)|].
  split.
  { unfold beat_notes. apply Forall_map.
    pose proof (sc_range _ _ _ _ _ F) as Rg.
    eapply Forall_impl; [|exact Rg]. cbn. intros k Hk.
    split; [reflexivity|]. apply (sc_complete _ _ _ _ _ F k Hk). }
  split.
  { rewrite (sc_counter _ _ _ _ _ F). unfold beat_notes. rewrite length_map.
    reflexivity. }
  split; [exact (sc_index _ _ _ _ _ F)|].
  split; [apply schedule_step_none; exact (sc_break _ _ _ _ _ F)|].
  split; [exact (sc_combo _ _ _ _ _ F)|].
  split; [exact (sc_misses _ _ _ _ _ F) | exact (sc_scene _ _ _ _ _ F)].
Qed.

Lemma scheduled_notes_in_beat_order_witness :
  exists new,
    g_notes (schedule_notes_up_to 4 sample_started)
    = g_notes sample_started ++ new
    /\ StronglySorted (fun n m => target_time n < target_time m) new
    /\ Forall (fun n => dummy n = false /\ spawn_time n <= 4) new
    /\ note_spawn_counter (timing (schedule_notes_up_to 4 sample_started))
       = (note_spawn_counter (timing sample_started) + Z.of_nat (length new))%Z
    /\ (spawn_index (timing sample_started)
        <= spawn_index (timing (schedule_notes_up_to 4 sample_started)))%Z
    /\ 4 < beat_time sample_anchor
             (spawn_index (timing (schedule_notes_up_to 4 sample_started)))
           - NOTE_TRAVEL_SEC
    /\ g_combo (schedule_notes_up_to 4 sample_started) = g_combo sample_started
    /\ g_misses (schedule_notes_up_to 4 sample_started) = g_misses sample_started
    /\ scene (schedule_notes_up_to 4 sample_started) = scene sample_started.
Proof.
  apply (scheduled_notes_in_beat_order 4 sample_started sample_anchor).
  reflexivity.
Defined.

(** What [spawn_dummy] draws, appends and leaves alone. *)
Lemma decoy_spawn_facts (fixed : option Q) (g : Game) :
  let g' := spawn_dummy fixed g in
  let r := rand_float (world g) (rand_pos (world g)) in
  let t := match fixed with
           | Some t => t
           | None => clock_reading g (clock_pos (world g))
           end in
  (g_effects g spawn_rush <= 0 -> g' = g)
  /\ (0 < g_effects g spawn_rush ->
      rand_pos (world g') = S (rand_pos (world g))
      /\ (0.03 <= r -> g_notes g' = g_notes g)
      /\ (r < 0.03 ->
          g_notes g'
          = g_notes g ++ [Note_init (t + NOTE_TRAVEL_SEC * 0.5) LANE_X true]))
  /\ (forall d,
        y (Note_update d t (Note_init (t + NOTE_TRAVEL_SEC * 0.5) LANE_X true))
        == (inject_Z (-60) + inject_Z HITLINE_Y) / 2)
  /\ g_combo g' = g_combo g /\ g_misses g' = g_misses g
  /\ timing g' = timing g /\ fx g' = fx g.
Proof.
  cbn zeta. unfold spawn_dummy, random_random, now_s, clock_reading.
  destruct (Qltb 0 (g_effects g spawn_rush)) eqn:Rush.
  - apply Qltb_true in Rush. cbv beta iota.
    destruct (Qltb (rand_float (world g) (rand_pos (world g))) 0.03) eqn:Draw.
    + apply Qltb_true in Draw.
      split; [intro; lra|]. split.
      * intros _. split; [destruct fixed; reflexivity|].
        split; [intro; lra|]. intros _. destruct fixed; reflexivity.
      * split; [|destruct fixed; repeat split; reflexivity].
        intro d. rewrite Note_update_y. unfold lerp. cbn [spawn_time start_y hit_y Note_init].
        rewrite (clamp_mid _ 0 1).
        -- rewrite travel_div. unfold NOTE_TRAVEL_SEC. field.
        -- rewrite travel_div. unfold NOTE_TRAVEL_SEC. lra.
        -- rewrite travel_div. unfold NOTE_TRAVEL_SEC. lra.
    + apply Qltb_false in Draw.
      split; [intro; lra|]. split.
      * intros _. split; [reflexivity|]. split; [reflexivity|]. intro; lra.
      * split; [|repeat split; reflexivity].
        intro d. rewrite Note_update_y. unfold lerp. cbn [spawn_time start_y hit_y Note_init].
        rewrite (clamp_mid _ 0 1).
        -- rewrite travel_div. unfold NOTE_TRAVEL_SEC. field.
        -- rewrite travel_div. unfold NOTE_TRAVEL_SEC. lra.
        -- rewrite travel_div. unfold NOTE_TRAVEL_SEC. lra.
  - apply Qltb_false in Rush.
    split; [reflexivity|]. split; [intro; lra|].
    split; [|repeat split; reflexivity].
    intro d. rewrite Note_update_y. unfold lerp. cbn [spawn_time start_y hit_y Note_init].
    rewrite (clamp_mid _ 0 1).
    + rewrite travel_div. unfold NOTE_TRAVEL_SEC. field.
    + rewrite travel_div. unfold NOTE_TRAVEL_SEC. lra.
    + rewrite travel_div. unfold NOTE_TRAVEL_SEC. lra.
Qed.



(** ** The end of the track *)

Lemma truthy_nonzero (q : Q) : truthy (Some q) = true <-> ~ q == 0.
Proof.
  unfold truthy. rewrite negb_true_iff. split.
  - intros E H. apply Qeq_bool_iff in H. congruence.
  - intro H. destruct (Qeq_bool q 0) eqn:E; [|reflexivity].
    apply Qeq_bool_iff in E. contradiction.
Qed.

Lemma active_update_scene (g : Game) :
  scene (active_update g) = scene g
  \/ (scene (active_update g) = SCENE_CLEAR
      /\ exists len st i,
           bgm_length g = Some len /\ ~ len == 0
           /\ start_time_s (timing g) = Some st /\ ~ st == 0
           /\ len + START_PREP_DELAY < clock_reading g i - st).
Proof.
  unfold active_update.
  set (g1 := match next_beat_time (timing g) with
             | Some _ => let '(t, g0) := now_s g in schedule_notes_up_to t g0
             | None => g
             end).
  assert (S1 : steady g g1 /\ evolves g g1
               /\ start_time_s (timing g1) = start_time_s (timing g)).
  { unfold g1. destruct (next_beat_time (timing g)) as [a|] eqn:Ha;
      [|split; [apply steady_refl | split; [apply evolves_refl | reflexivity]]].
    unfold now_s.
    match goal with |- context [schedule_notes_up_to ?t ?h] =>
      destruct (schedule_notes_up_to_facts t h a Ha) as (ks & F);
      pose proof (schedule_notes_up_to_steady t h) as St;
      pose proof (schedule_notes_up_to_evolves t h) as Ev
    end.
    split; [eapply steady_trans; [|exact St]; apply steady_fields; reflexivity|].
    split; [eapply evolves_trans; [|exact Ev]; kept|].
    exact (sc_start _ _ _ _ _ F). }
  destruct S1 as (St1 & Ev1 & T1).
  set (g3 := spawn_dummy None (update_notes None g1)).
  assert (S3 : scene g3 = scene g /\ bgm_length g3 = bgm_length g
               /\ clock_ms (world g3) = clock_ms (world g)
               /\ start_time_s (timing g3) = start_time_s (timing g)).
  { pose proof (update_notes_loop_steady None (g_notes g1) [] g1) as St2.
    pose proof (update_notes_evolves None g1) as Ev2.
    pose proof (spawn_dummy_steady None (update_notes None g1)) as St3.
    pose proof (spawn_dummy_evolves None (update_notes None g1)) as Ev3.
    destruct (update_notes_loop_env None (g_notes g1) [] g1)
      as (_ & _ & _ & _ & _ & _ & _ & _ & T2).
    destruct (decoy_spawn_facts None (update_notes None g1))
      as (_ & _ & _ & _ & _ & T3 & _).
    fold (update_notes None g1) in St2, T2. fold g3 in St3, Ev3, T3.
    split; [rewrite (st_scene _ _ St3), (st_scene _ _ St2); exact (st_scene _ _ St1)|].
    split; [rewrite (ev_len _ _ Ev3), (ev_len _ _ Ev2); exact (ev_len _ _ Ev1)|].
    split; [rewrite (ev_clock _ _ Ev3), (ev_clock _ _ Ev2); exact (ev_clock _ _ Ev1)|].
    rewrite T3, T2. exact T1. }
  destruct S3 as (Sc & Len & Clk & Start).
  generalize dependent g3. intros g3 Sc Len Clk Start.
  rewrite Len, Start.
  destruct (bgm_length g) as [len|]; [|left; exact Sc].
  destruct (start_time_s (timing g)) as [st|]; [|left; exact Sc].
  destruct (truthy (Some len) && truthy (Some st)) eqn:Tr; [|left; exact Sc].
  apply andb_true_iff in Tr. destruct Tr as (Tl & Ts).
  apply truthy_nonzero in Tl. apply truthy_nonzero in Ts.
  unfold now_s. cbv beta iota.
  destruct (Qltb (len + START_PREP_DELAY) _) eqn:L; [|left; exact Sc].
  apply Qltb_true in L. right. split; [reflexivity|].
  exists len, st, (clock_pos (world g3)).
  unfold clock_reading. rewrite <- Clk. auto 10.
Qed.

Lemma handle_event_not_clear (g : Game) (ev : Event) :
  scene g <> SCENE_CLEAR -> scene (handle_event g ev) <> SCENE_CLEAR.
Proof.
  intro N.
  destruct (handle_event_cases g ev) as [(Sc & E) | [(_ & cj & cp & E) | Q]].
  - rewrite E, (st_scene _ _ (hit_check_steady g)). exact N.
  - rewrite E. destruct (start_session_facts cj cp g) as (t & _ & R).
    rewrite (sr_scene _ _ _ R). discriminate.
  - destruct Q as [_ _ _ [S | (_ & [S | S])]]; congruence.
Qed.

Lemma fold_events_not_clear (evs : list Event) :
  forall g, scene g <> SCENE_CLEAR ->
            scene (fold_left handle_event evs g) <> SCENE_CLEAR.
Proof.
  induction evs as [|ev evs IH]; intros g N; cbn [fold_left]; [exact N|].
  apply IH. apply handle_event_not_clear. exact N.
Qed.

Lemma main_loop_body_not_clear (tick_ms : Z) (events : list Event) (g : Game) :
  bgm_length g = None -> scene g <> SCENE_CLEAR ->
  scene (main_loop_body tick_ms events g) <> SCENE_CLEAR.
Proof.
  intros Len N. rewrite main_loop_body_dispatch.
  set (h := after_events tick_ms events g).
  assert (Hh : scene h <> SCENE_CLEAR /\ bgm_length h = None).
  { unfold h, after_events. split.
    - destruct (tick_timers_frame (inject_Z tick_ms / 1000.0)
                  (fold_left handle_event events (snd (now_s g))))
        as (_ & _ & S & _).
      rewrite S. apply fold_events_not_clear. exact N.
    - rewrite (ev_len _ _ (tick_timers_evolves _ _)).
      rewrite (ev_len _ _ (fold_events_evolves _ _)). exact Len. }
  destruct Hh as (Nh & Lh).
  destruct (scene h) eqn:Sc; try (rewrite Sc; discriminate);
    try contradiction.
  destruct (in_prep_frame h) as (_ & _ & Sp & _).
  destruct (fst (in_prep h)) eqn:E.
  - rewrite (game_scene_step_prep h E).
    rewrite (st_scene _ _ (render_game_steady _)), Sp, Sc. discriminate.
  - rewrite (game_scene_step_active h E).
    assert (Sa : scene (active_update (snd (in_prep h))) = SCENE_GAME).
    { destruct (active_update_scene (snd (in_prep h)))
        as [S | (_ & len & st & i & L & _)].
      - rewrite S, Sp. exact Sc.
      - rewrite (ev_len _ _ (in_prep_evolves h)), Lh in L. discriminate. }
    unfold miss_limit_check. destruct (_ <=? _)%Z; [discriminate|].
    rewrite (st_scene _ _ (render_game_steady _)), Sa. discriminate.
Qed.

(** X19. The CLEAR scene needs a track.  The update of a pass changes the
    scene to CLEAR only when the track has a non-zero length, the session
    a non-zero start time, and a clock reading lies more than the track
    length plus the prep delay after the start.  Without a track length no
    pass ever enters CLEAR, so a program started without music never
    reaches it. *)
Theorem clear_needs_a_track :
  (forall g,
     scene (active_update g) = scene g
     \/ (scene (active_update g) = SCENE_CLEAR
         /\ exists len st i,
              bgm_length g = Some len /\ ~ len == 0
              /\ start_time_s (timing g) = Some st /\ ~ st == 0
              /\ len + START_PREP_DELAY < clock_reading g i - st))
  /\ (forall tick_ms events g,
        bgm_length g = None -> scene g <> SCENE_CLEAR ->
        scene (main_loop_body tick_ms events g) <> SCENE_CLEAR)
  /\ (forall bgm w passes,
        scene (run_passes passes (initial_game bgm None w)) <> SCENE_CLEAR).
Proof.
  split; [exact active_update_scene|]. split; [exact main_loop_body_not_clear|].
  intros bgm w passes.
  assert (H : forall g, bgm_length g = None -> scene g <> SCENE_CLEAR ->
                scene (run_passes passes g) <> SCENE_CLEAR).
  { unfold run_passes.
    induction passes as [|p passes IH]; intros g L N; cbn [fold_left]; [exact N|].
    apply IH.
    - rewrite (ev_len _ _ (main_loop_body_evolves _ _ g)). exact L.
    - apply main_loop_body_not_clear; assumption. }
  apply H; [reflexivity | discriminate].
Qed.

Lemma clear_needs_a_track_witness :
  scene (main_loop_body 16 [KEYDOWN K_SPACE] five_misses_input) <> SCENE_CLEAR.
Proof.
  apply (proj1 (proj2 clear_needs_a_track)); [reflexivity | discriminate].
Defined.

(** ** Amounts computed for drawing *)

(** X20. Overlay alphas are valid colour components.  For a peak between
    0 and 255 (the flash, blackout and invert overlays use 200, 220 and
    90) the alpha computed for an active effect lies between 0 and the
    peak; it is the peak itself while the effect has a second or more
    left, and fades only during the last second.  No alpha is computed for
    an inactive effect. *)
Theorem overlay_alpha_in_range (peak : Z) (v : Q) :
  (0 <= peak <= 255)%Z ->
  (v <= 0 -> overlay_alpha peak v = None)
  /\ (0 < v ->
      exists a, overlay_alpha peak v = Some a
                /\ (0 <= a <= peak)%Z /\ (a <= 255)%Z
                /\ (1 <= v -> a = peak)).
Proof.
  intros (P0 & P1). unfold overlay_alpha. split.
  - intro H. apply Qltb_false in H. rewrite H. reflexivity.
  - intro H. rewrite (proj2 (Qltb_true 0 v) H).
    eexists. split; [reflexivity|].
    assert (Pq : 0 <= inject_Z peak) by (rewrite Zle_Qle in P0; exact P0).
    assert (B : 0 <= py_min 1.0 v <= 1 /\ (1 <= v -> py_min 1.0 v == 1)).
    { unfold py_min. qcases; split; try lra; intro; lra. }
    destruct B as ((B0 & B1) & B2).
    assert (L : 0 <= inject_Z peak * py_min 1.0 v) by nra.
    assert (U : inject_Z peak * py_min 1.0 v <= inject_Z peak) by nra.
    unfold py_int.
    apply Qfloor_resp_le in L. apply Qfloor_resp_le in U.
    rewrite Qfloor_Z in U. change (Qfloor 0) with 0%Z in L.
    split; [lia|]. split; [lia|].
    intro V. rewrite (Qfloor_comp _ (inject_Z peak)); [apply Qfloor_Z|].
    rewrite (B2 V). ring.
Qed.

Lemma overlay_alpha_in_range_witness :
  overlay_alpha 200 0 = None
  /\ exists a, overlay_alpha 200 0.5 = Some a
               /\ (0 <= a <= 200)%Z /\ (a <= 255)%Z /\ (1 <= 0.5 -> a = 200%Z).
Proof.
  destruct (overlay_alpha_in_range 200 0) as (A & _); [lia|].
  destruct (overlay_alpha_in_range 200 0.5) as (_ & B); [lia|].
  split; [apply A; vm_compute; discriminate | apply B; reflexivity].
Defined.

Lemma specter_ratio (d : Difficulty) (m : Z) :
  (0 <= m)%Z ->
  let maxp := Z.max 1 (MISS_LIMIT_MAP d - 1) in
  (0 <? maxp)%Z = true
  /\ 0 <= inject_Z m / inject_Z maxp
  /\ ((maxp <= m)%Z -> 1 <= inject_Z m / inject_Z maxp)
  /\ (forall m', (m <= m')%Z ->
        inject_Z m / inject_Z maxp <= inject_Z m' / inject_Z maxp).
Proof.
  intro H. cbn zeta.
  assert (P : 0 <= inject_Z m) by (rewrite Zle_Qle in H; exact H).
  assert (K : forall (c : positive) (x : Z),
            inject_Z x / inject_Z (Z.pos c) == inject_Z x * (1 # c)).
  { intros c x. unfold Qdiv, Qinv. cbn. reflexivity. }
  assert (M : forall m', (m <= m')%Z -> inject_Z m <= inject_Z m').
  { intros m' L. rewrite Zle_Qle in L. exact L. }
  assert (A : forall (c : positive) (x y : Q), x <= y -> x * (1 # c) <= y * (1 # c)).
  { intros c x y L. apply Qmult_le_compat_r; [exact L | discriminate]. }
  assert (B : forall c : positive, (Z.pos c <= m)%Z -> 1 <= inject_Z m * (1 # c)).
  { intros c L. rewrite Zle_Qle in L.
    setoid_replace 1 with (inject_Z (Z.pos c) * (1 # c)).
    - apply A. exact L.
    - unfold Qeq. cbn. lia. }
  assert (Z0 : forall c : positive, 0 <= inject_Z m * (1 # c)).
  { intro c. setoid_replace 0 with (0 * (1 # c)) by ring. apply A. exact P. }
  destruct d; cbn [MISS_LIMIT_MAP Z.sub Z.max Z.compare Z.add Z.opp Pos.compare
                   Pos.compare_cont Z.pos_sub Pos.pred_double]; cbn;
    (split; [reflexivity|]); rewrite K;
    (split; [apply Z0|]);
    (split; [apply B|]);
    intros m' L; rewrite K; apply A, M, L.
Qed.

(** X21. The size the specter is drawn at.  Whenever it is drawn (visible
    and not hidden) with a miss counter that is not negative, its scale
    lies between the base 0.45 and 1.35; it is the base with no miss, 1.35
    once the counter has reached [max(1, miss limit - 1)], and a larger
    miss counter never gives a smaller scale. *)
Theorem specter_scale_bounds (g : Game) :
  (0 <= g_misses g)%Z ->
  hannya_visible (play g) = true ->
  hannya_hidden_behind (play g) = false ->
  exists s, hannya_scale g = Some s
    /\ hannya_scale_base <= s <= 1.35
    /\ ((Z.max 1 (MISS_LIMIT_MAP (g_difficulty g) - 1) <= g_misses g)%Z ->
        s == 1.35)
    /\ (g_misses g = 0%Z -> s == hannya_scale_base)
    /\ (forall m' s', (g_misses g <= m')%Z ->
          hannya_scale (on_play (set_misses m') g) = Some s' -> s <= s').
Proof.
  intros M V Hd. unfold hannya_scale. rewrite V, Hd. cbn [andb negb].
  destruct (specter_ratio (g_difficulty g) (g_misses g) M) as (Pz & R0 & R1 & R2).
  cbn zeta in Pz, R0, R1, R2. rewrite Pz.
  eexists. split; [reflexivity|].
  set (r := inject_Z (g_misses g) / inject_Z (Z.max 1 (MISS_LIMIT_MAP (g_difficulty g) - 1))) in *.
  assert (Pm : 0 <= py_min r 1.0 <= 1 /\ (1 <= r -> py_min r 1.0 == 1)
               /\ (r == 0 -> py_min r 1.0 == 0)
               /\ (forall r', r <= r' -> py_min r 1.0 <= py_min r' 1.0)).
  { unfold py_min. repeat split; qcases; try lra; intros; qcases; lra. }
  destruct Pm as ((P0 & P1) & P2 & P3 & P4).
  unfold hannya_scale_base.
  split; [split; lra|]. split; [|split].
  - intro L. specialize (P2 (R1 L)). lra.
  - intro Z0. assert (r == 0).
    { unfold r. rewrite Z0. unfold Qdiv. ring. }
    specialize (P3 H). lra.
  - intros m' s' L.
    cbn [on_play set_misses play g_misses g_difficulty hannya_visible
         hannya_hidden_behind misses].
    replace (hannya_visible (play g)) with true.
    replace (hannya_hidden_behind (play g)) with false.
    cbn [andb negb].
    replace (g_difficulty (on_play (set_misses m') g)) with (g_difficulty g)
      by reflexivity.
    replace (g_misses (on_play (set_misses m') g)) with m' by reflexivity.
    rewrite Pz. intro E. injection E as <-.
    specialize (P4 _ (R2 m' L)). lra.
Qed.

Lemma specter_scale_bounds_witness :
  exists s, hannya_scale (hit_check (sample_one_note 1500)) = Some s
    /\ hannya_scale_base <= s <= 1.35.
Proof.
  destruct (specter_scale_bounds (hit_check (sample_one_note 1500)))
    as (s & E & B & _); [vm_compute; discriminate | reflexivity | reflexivity |].
  exists s. split; assumption.
Defined.

(** ** Ties between equally near notes *)



